(** * fetchvector/fileupload: the upload server and its metadata store

    A shallow embedding of [server/index.js] (Express + Multer, metadata
    kept in one JSON document) and the proofs of the properties its
    specification states.

    Conventions of the embedding.
    - A JavaScript string is a [string]: the UTF-8 bytes of the text, which
      is also what [fs.writeFileSync(.., 'utf-8')] stores.  Strings holding
      lone surrogates have no such form and are not represented.
    - The file system is a finite map from path to content, together with
      the set of paths on which a mutation ([writeFileSync], [unlink])
      raises an I/O error.
    - Node and library functions the server calls ([path.extname],
      [path.parse], [JSON.stringify], [JSON.parse], [encodeURIComponent],
      [Array.prototype.sort], Multer's middleware, Express's dispatch) are
      modelled after their documented behaviour; [mime.lookup], the
      [Date] parser, the clock and the UUID generator are parameters. *)

From Stdlib Require Import ZArith NArith Lia Ascii String List Bool.
From Stdlib Require Import Permutation Sorted DecimalString DecimalN DecimalFacts.
From stdpp Require Import gmap strings list.

Open Scope string_scope.

(** ** Characters *)

Module Char.

Definition code (c : ascii) : N := N_of_ascii c.

Definition between (lo hi : N) (c : ascii) : bool :=
  ((lo <=? code c) && (code c <=? hi))%N.

Definition is_digit (c : ascii) : bool := between 48 57 c.
Definition is_lower (c : ascii) : bool := between 97 122 c.
Definition is_upper (c : ascii) : bool := between 65 90 c.
Definition is_letter (c : ascii) : bool := is_lower c || is_upper c.
Definition is_dot (c : ascii) : bool := Ascii.eqb c ".".
Definition is_slash (c : ascii) : bool := Ascii.eqb c "/".

(** The class [[.a-zA-Z0-9]] of the regular expression in
    [storage.filename]. *)
Definition ext_allowed (c : ascii) : bool :=
  is_dot c || is_letter c || is_digit c.

(** A character that is neither a dot nor a path separator. *)
Definition plain (c : ascii) : bool := negb (is_dot c) && negb (is_slash c).

End Char.

(** ** [path.extname] and [path.parse] (POSIX)

    Both functions of Node's [path] module run the same loop, from the last
    character of the path to the first: trailing separators are skipped,
    the first other character marks [end], the first dot met marks
    [startDot], a separator met after [end] is set stops the loop
    ([startPart]), and [preDotState] records what was seen to the left of
    the dot.  The scan below is that loop over the reversed characters; it
    carries the slices the two functions cut out of the path instead of
    their indices. *)

Module Path.

Record scan := Scan {
  seen_end : bool;          (* end !== -1 *)
  seen_dot : bool;          (* startDot !== -1 *)
  tail : list ascii;        (* path.slice(startDot + 1, end), or
                               path.slice(i + 1, end) while no dot was met *)
  head : list ascii;        (* path.slice(i + 1, startDot) *)
  preDotState : Z
}.

Definition scan0 : scan := Scan false false [] [] 0.

(** One iteration on a character that is not a separator. *)
Definition scan_char (c : ascii) (st : scan) : scan :=
  let st := if seen_end st then st
            else Scan true (seen_dot st) (tail st) (head st) (preDotState st) in
  if Char.is_dot c then
    if negb (seen_dot st) then
      Scan true true (tail st) (head st) (preDotState st)
    else
      Scan true true (tail st) (c :: head st) 1
  else if seen_dot st then
    Scan true true (tail st) (c :: head st) (-1)
  else
    Scan true false (c :: tail st) (head st) (preDotState st).

(** The loop; [rpath] holds the characters still to visit, last first. *)
Fixpoint scan_loop (rpath : list ascii) (st : scan) : scan :=
  match rpath with
  | [] => st
  | c :: rest =>
      if Char.is_slash c then
        if seen_end st then st          (* !matchedSlash: break *)
        else scan_loop rest st          (* continue *)
      else scan_loop rest (scan_char c st)
  end.

Definition scan_path (p : string) : scan :=
  scan_loop (rev (list_ascii_of_string p)) scan0.

(** The test both functions make after the loop: no extension. *)
Definition no_ext (st : scan) : bool :=
  negb (seen_dot st) || negb (seen_end st)
  || (preDotState st =? 0)%Z
  || ((preDotState st =? 1)%Z
      && (length (tail st) =? 0)%nat && (length (head st) =? 1)%nat).

Definition extname_chars (st : scan) : list ascii :=
  if no_ext st then [] else "."%char :: tail st.

Definition name_chars (st : scan) : list ascii :=
  if negb (seen_end st) then []
  else if no_ext st then
    head st ++ (if seen_dot st then "."%char :: tail st else tail st)
  else head st.

Definition extname (p : string) : string :=
  string_of_list_ascii (extname_chars (scan_path p)).

(** [path.parse(p).name] *)
Definition parse_name (p : string) : string :=
  string_of_list_ascii (name_chars (scan_path p)).

(** [path.join(dir, name)] for a [name] that is a single path component,
    as every stored name is; no normalisation is modelled. *)
Definition join (dir name : string) : string := dir +:+ "/" +:+ name.

(** Characters that are neither dots nor separators. *)
Definition plain_chars (l : list ascii) : Prop :=
  Forall (fun c => Char.plain c = true) l.

End Path.

(** ** [storage.filename] (index.js, lines 42-47) *)

(** [ext.replace(/[^.a-zA-Z0-9]/g, '')] *)
Definition safeExt_of (ext : string) : string :=
  string_of_list_ascii
    (List.filter Char.ext_allowed (list_ascii_of_string ext)).

Definition storage_filename (id originalname : string) : string :=
  let ext := Path.extname originalname in
  let safeExt := safeExt_of ext in
  id +:+ safeExt.

(** ** JSON text: [JSON.stringify] and [JSON.parse] *)

Module JSON.

#[warnings="-register-all"]
Inductive json :=
| JNull
| JBool (b : bool)
| JNum (literal : string)     (* a number, kept as its JSON text *)
| JStr (s : string)
| JArr (items : list json)
| JObj (members : list (string * json)).

Definition dquote : ascii := "034"%char.
Definition backslash : ascii := "\"%char.
Definition newline : ascii := "010"%char.
Definition nl : string := String newline "".

(** *** Serialisation *)

Definition hex_digit (n : N) : ascii :=
  if (n <? 10)%N then ascii_of_N (48 + n) else ascii_of_N (87 + n).

(** One character of QuoteJSONString. *)
Definition quote_char (c : ascii) : string :=
  let n := Char.code c in
  if Ascii.eqb c dquote then String backslash (String dquote "")
  else if Ascii.eqb c backslash then String backslash (String backslash "")
  else if (n =? 8)%N then String backslash "b"
  else if (n =? 12)%N then String backslash "f"
  else if (n =? 10)%N then String backslash "n"
  else if (n =? 13)%N then String backslash "r"
  else if (n =? 9)%N then String backslash "t"
  else if (n <? 32)%N then
    String backslash
      (String "u" (String "0" (String "0"
         (String (hex_digit (n / 16)) (String (hex_digit (n mod 16)) "")))))
  else String c "".

Fixpoint quote_chars (s : string) : string :=
  match s with
  | "" => ""
  | String c r => quote_char c +:+ quote_chars r
  end.

Definition quote (s : string) : string :=
  String dquote (quote_chars s +:+ String dquote "").

(** The bracketed, separated layout of SerializeJSONArray and
    SerializeJSONObject; [indent] is the indentation of the enclosing
    value. *)
Definition wrap (gap indent : string) (opening closing : ascii)
    (items : list string) : string :=
  match items with
  | [] => String opening (String closing "")
  | _ =>
      if String.eqb gap "" then
        String opening (String.concat "," items +:+ String closing "")
      else
        let inner := indent +:+ gap in
        String opening
          (nl +:+ inner +:+ String.concat ("," +:+ nl +:+ inner) items
           +:+ nl +:+ indent +:+ String closing "")
  end.

Fixpoint serialize (gap indent : string) (v : json) : string :=
  match v with
  | JNull => "null"
  | JBool b => if b then "true" else "false"
  | JNum literal => literal
  | JStr s => quote s
  | JArr items =>
      wrap gap indent "[" "]" (map (serialize gap (indent +:+ gap)) items)
  | JObj members =>
      wrap gap indent "{" "}"
        (map (fun kv =>
                let '(k, x) := kv in
                quote k +:+ (if String.eqb gap "" then ":" else ": ")
                  +:+ serialize gap (indent +:+ gap) x)
             members)
  end.

(** [JSON.stringify(v)] and [JSON.stringify(v, null, 2)] *)
Definition stringify (v : json) : string := serialize "" "" v.
Definition stringify2 (v : json) : string := serialize "  " "" v.

(** *** Parsing *)

Definition is_ws (c : ascii) : bool :=
  let n := Char.code c in
  ((n =? 32) || (n =? 9) || (n =? 10) || (n =? 13))%N.

Fixpoint skip_ws (s : string) : string :=
  match s with
  | "" => ""
  | String c r => if is_ws c then skip_ws r else s
  end.

Fixpoint expect (word s : string) : option string :=
  match word with
  | "" => Some s
  | String c w =>
      match s with
      | String d r => if Ascii.eqb c d then expect w r else None
      | "" => None
      end
  end.

Fixpoint take_digits (s : string) : string * string :=
  match s with
  | String c r =>
      if Char.is_digit c then
        let '(ds, rest) := take_digits r in (String c ds, rest)
      else ("", s)
  | "" => ("", "")
  end.

(** The number grammar: an optional minus sign; a zero, or a non-zero
    digit and more digits; an optional fraction (a dot and one digit or
    more); an optional exponent (e or E, an optional sign, one digit or
    more).  The result is the text of the number and what follows it. *)
Definition number_int (s : string) : option (string * string) :=
  match s with
  | String c r =>
      if Ascii.eqb c "0" then Some ("0", r)
      else if Char.is_digit c then
        let '(ds, rest) := take_digits r in Some (String c ds, rest)
      else None
  | "" => None
  end.

Definition number_frac (s : string) : option (string * string) :=
  match s with
  | String c r =>
      if Ascii.eqb c "." then
        match take_digits r with
        | ("", _) => None
        | (ds, rest) => Some (String c ds, rest)
        end
      else Some ("", s)
  | "" => Some ("", s)
  end.

Definition number_exp (s : string) : option (string * string) :=
  match s with
  | String c r =>
      if Ascii.eqb c "e" || Ascii.eqb c "E" then
        let '(sign, r1) :=
          match r with
          | String d r' =>
              if Ascii.eqb d "+" || Ascii.eqb d "-" then (String d "", r')
              else ("", r)
          | "" => ("", r)
          end in
        match take_digits r1 with
        | ("", _) => None
        | (ds, rest) => Some (String c (sign +:+ ds), rest)
        end
      else Some ("", s)
  | "" => Some ("", s)
  end.

Definition parse_number (s : string) : option (string * string) :=
  let '(sign, s1) :=
    match s with
    | String c r => if Ascii.eqb c "-" then ("-", r) else ("", s)
    | "" => ("", s)
    end in
  match number_int s1 with
  | None => None
  | Some (i, s2) =>
      match number_frac s2 with
      | None => None
      | Some (f, s3) =>
          match number_exp s3 with
          | None => None
          | Some (e, s4) => Some (sign +:+ i +:+ f +:+ e, s4)
          end
      end
  end.

Definition hex_val (c : ascii) : option N :=
  let n := Char.code c in
  if Char.is_digit c then Some (n - 48)%N
  else if Char.between 97 102 c then Some (n - 87)%N
  else if Char.between 65 70 c then Some (n - 55)%N
  else None.

Definition hex4 (a b c d : ascii) : option N :=
  match hex_val a, hex_val b, hex_val c, hex_val d with
  | Some x, Some y, Some z, Some w => Some (((x * 16 + y) * 16 + z) * 16 + w)%N
  | _, _, _, _ => None
  end.

Definition byte (n : N) : string := String (ascii_of_N n) "".

(** The UTF-8 bytes of a code point (a surrogate met alone is written
    in the same three-byte form). *)
Definition utf8 (cp : N) : string :=
  (if cp <? 128 then byte cp
   else if cp <? 2048 then byte (192 + cp / 64) +:+ byte (128 + cp mod 64)
   else if cp <? 65536 then
     byte (224 + cp / 4096) +:+ byte (128 + (cp / 64) mod 64)
       +:+ byte (128 + cp mod 64)
   else
     byte (240 + cp / 262144) +:+ byte (128 + (cp / 4096) mod 64)
       +:+ byte (128 + (cp / 64) mod 64) +:+ byte (128 + cp mod 64))%N.

Definition is_high_surrogate (u : N) : bool := ((55296 <=? u) && (u <=? 56319))%N.
Definition is_low_surrogate (u : N) : bool := ((56320 <=? u) && (u <=? 57343))%N.

Definition prepend (pre : string) (res : option (string * string))
    : option (string * string) :=
  match res with
  | Some (s, rest) => Some (pre +:+ s, rest)
  | None => None
  end.

(** A low surrogate escape at the head of [s], if there is one. *)
Definition low_escape (s : string) : option N :=
  match s with
  | String b (String u (String h1 (String h2 (String h3 (String h4 _))))) =>
      if Ascii.eqb b backslash && Ascii.eqb u "u" then
        match hex4 h1 h2 h3 h4 with
        | Some lo => if is_low_surrogate lo then Some lo else None
        | None => None
        end
      else None
  | _ => None
  end.

(** The characters of a string literal, after its opening quote, up to
    and including the closing quote. *)
Fixpoint parse_chars (s : string) : option (string * string) :=
  match s with
  | "" => None
  | String c r =>
      if Ascii.eqb c dquote then Some ("", r)
      else if Ascii.eqb c backslash then
        match r with
        | "" => None
        | String e r1 =>
            if Ascii.eqb e dquote then prepend (String dquote "") (parse_chars r1)
            else if Ascii.eqb e backslash then prepend (String backslash "") (parse_chars r1)
            else if Ascii.eqb e "/" then prepend "/" (parse_chars r1)
            else if Ascii.eqb e "b" then prepend (byte 8) (parse_chars r1)
            else if Ascii.eqb e "f" then prepend (byte 12) (parse_chars r1)
            else if Ascii.eqb e "n" then prepend (byte 10) (parse_chars r1)
            else if Ascii.eqb e "r" then prepend (byte 13) (parse_chars r1)
            else if Ascii.eqb e "t" then prepend (byte 9) (parse_chars r1)
            else if Ascii.eqb e "u" then
              match r1 with
              | String h1 (String h2 (String h3 (String h4 r2))) =>
                  match hex4 h1 h2 h3 h4 with
                  | None => None
                  | Some u =>
                      match (if is_high_surrogate u then low_escape r2 else None), r2 with
                      | Some lo, String _ (String _ (String _ (String _ (String _ (String _ r3))))) =>
                          prepend
                            (utf8 (65536 + (u - 55296) * 1024 + (lo - 56320))%N)
                            (parse_chars r3)
                      | _, _ => prepend (utf8 u) (parse_chars r2)
                      end
                  end
              | _ => None
              end
            else None
        end
      else if (Char.code c <? 32)%N then None
      else prepend (String c "") (parse_chars r)
  end.

Fixpoint parse_value (fuel : nat) (s : string) {struct fuel}
    : option (json * string) :=
  match fuel with
  | O => None
  | S fuel =>
      match skip_ws s with
      | "" => None
      | String c r =>
          if Ascii.eqb c "[" then
            match skip_ws r with
            | "" => None
            | String d r' =>
                if Ascii.eqb d "]" then Some (JArr [], r')
                else
                  match parse_elements fuel r with
                  | Some (vs, rest) => Some (JArr vs, rest)
                  | None => None
                  end
            end
          else if Ascii.eqb c "{" then
            match skip_ws r with
            | "" => None
            | String d r' =>
                if Ascii.eqb d "}" then Some (JObj [], r')
                else
                  match parse_members fuel r with
                  | Some (kvs, rest) => Some (JObj kvs, rest)
                  | None => None
                  end
            end
          else if Ascii.eqb c dquote then
            match parse_chars r with
            | Some (str, rest) => Some (JStr str, rest)
            | None => None
            end
          else if Ascii.eqb c "t" then
            match expect "rue" r with
            | Some rest => Some (JBool true, rest)
            | None => None
            end
          else if Ascii.eqb c "f" then
            match expect "alse" r with
            | Some rest => Some (JBool false, rest)
            | None => None
            end
          else if Ascii.eqb c "n" then
            match expect "ull" r with
            | Some rest => Some (JNull, rest)
            | None => None
            end
          else
            match parse_number (String c r) with
            | Some (literal, rest) => Some (JNum literal, rest)
            | None => None
            end
      end
  end

with parse_elements (fuel : nat) (s : string) {struct fuel}
    : option (list json * string) :=
  match fuel with
  | O => None
  | S fuel =>
      match parse_value fuel s with
      | None => None
      | Some (v, r) =>
          match skip_ws r with
          | "" => None
          | String c r' =>
              if Ascii.eqb c "," then
                match parse_elements fuel r' with
                | Some (vs, rest) => Some (v :: vs, rest)
                | None => None
                end
              else if Ascii.eqb c "]" then Some ([v], r')
              else None
          end
      end
  end

with parse_members (fuel : nat) (s : string) {struct fuel}
    : option (list (string * json) * string) :=
  match fuel with
  | O => None
  | S fuel =>
      match skip_ws s with
      | "" => None
      | String q r =>
          if Ascii.eqb q dquote then
            match parse_chars r with
            | None => None
            | Some (k, r1) =>
                match skip_ws r1 with
                | "" => None
                | String colon r2 =>
                    if Ascii.eqb colon ":" then
                      match parse_value fuel r2 with
                      | None => None
                      | Some (v, r3) =>
                          match skip_ws r3 with
                          | "" => None
                          | String c r4 =>
                              if Ascii.eqb c "," then
                                match parse_members fuel r4 with
                                | Some (kvs, rest) => Some ((k, v) :: kvs, rest)
                                | None => None
                                end
                              else if Ascii.eqb c "}" then Some ([(k, v)], r4)
                              else None
                          end
                      end
                    else None
                end
            end
          else None
      end
  end.

(** [JSON.parse(text)]: [None] stands for the [SyntaxError]. *)
Definition parse (text : string) : option json :=
  match parse_value (S (String.length text)) text with
  | Some (v, rest) =>
      if String.eqb (skip_ws rest) "" then Some v else None
  | None => None
  end.

End JSON.

Import JSON.

(** ** Vocabulary for JSON text

    What the statements and proofs about [JSON.parse] and
    [JSON.stringify] speak of: well-formed number texts, white space and
    the layout of bracketed values, the fuel a text needs, and an
    induction principle for values. *)

Module JSONText.

(** A character that cannot continue a number. *)
Definition number_stop (c : ascii) : bool :=
  negb (Char.is_digit c) && negb (Ascii.eqb c ".")
  && negb (Ascii.eqb c "e") && negb (Ascii.eqb c "E").

(** What may follow a value: nothing, or a character that ends a number. *)
Definition value_end (rest : string) : bool :=
  match rest with
  | "" => true
  | String c _ => number_stop c
  end.

Section json_induction.
Variable P : json -> Prop.
Hypothesis Hnull : P JNull.
Hypothesis Hbool : forall b, P (JBool b).
Hypothesis Hnum : forall literal, P (JNum literal).
Hypothesis Hstr : forall s, P (JStr s).
Hypothesis Harr : forall items, Forall P items -> P (JArr items).
Hypothesis Hobj :
  forall members, Forall (fun kv => P (snd kv)) members -> P (JObj members).

Fixpoint json_nested_ind (v : json) : P v :=
  match v with
  | JNull => Hnull
  | JBool b => Hbool b
  | JNum literal => Hnum literal
  | JStr s => Hstr s
  | JArr items =>
      Harr items
        ((fix all (l : list json) : Forall P l :=
            match l with
            | [] => List.Forall_nil P
            | x :: xs => @List.Forall_cons _ P x xs (json_nested_ind x) (all xs)
            end) items)
  | JObj members =>
      Hobj members
        ((fix all (l : list (string * json))
            : Forall (fun kv => P (snd kv)) l :=
            match l with
            | [] => List.Forall_nil _
            | kv :: xs =>
                @List.Forall_cons _ (fun kv => P (snd kv)) kv xs
                  (json_nested_ind (snd kv)) (all xs)
            end) members)
  end.
End json_induction.

(** A number text the parser reads back whole. *)
Definition num_head (c : ascii) : bool := Char.is_digit c || Ascii.eqb c "-".

Definition wf_number (literal : string) : Prop :=
  (exists c r, literal = String c r /\ num_head c = true)
  /\ forall rest, value_end rest = true ->
       parse_number (literal +:+ rest) = Some (literal, rest).

Fixpoint wf_json (v : json) : Prop :=
  match v with
  | JNum literal => wf_number literal
  | JArr items =>
      (fix all (l : list json) : Prop :=
         match l with [] => True | x :: xs => wf_json x /\ all xs end) items
  | JObj members =>
      (fix all (l : list (string * json)) : Prop :=
         match l with [] => True | kv :: xs => wf_json (snd kv) /\ all xs end)
        members
  | _ => True
  end.

(** Fuel that is enough to parse the text of a value. *)
Fixpoint need (v : json) : nat :=
  match v with
  | JArr items =>
      S ((fix sum (l : list json) : nat :=
            match l with [] => 0 | x :: xs => S (need x + sum xs) end) items)
  | JObj members =>
      S ((fix sum (l : list (string * json)) : nat :=
            match l with [] => 0 | kv :: xs => S (need (snd kv) + sum xs) end)
           members)
  | _ => 1
  end.

Definition need_items (l : list json) : nat :=
  fold_right (fun x n => S (need x + n)) 0%nat l.

Definition need_members (l : list (string * json)) : nat :=
  fold_right (fun kv n => S (need (snd kv) + n)) 0%nat l.

Fixpoint blank (s : string) : bool :=
  match s with
  | "" => true
  | String c r => is_ws c && blank r
  end.

Definition pre (gap indent : string) : string :=
  if String.eqb gap "" then "" else nl +:+ (indent +:+ gap).

Definition post (gap indent : string) : string :=
  if String.eqb gap "" then "" else nl +:+ indent.

Definition colon_space (gap : string) : string :=
  if String.eqb gap "" then "" else " ".

(** The items of a bracketed value, each after [lead], separated by
    commas and followed by [tl]. *)
Fixpoint joined (lead : string) (texts : list string) (tl : string) : string :=
  match texts with
  | [] => tl
  | x :: xs =>
      lead +:+ x +:+ match xs with
                     | [] => tl
                     | _ => String "," (joined lead xs tl)
                     end
  end.

Definition after_value {A} (next : string -> option (list A * string))
    (closing : ascii) (x : A) (r : string) : option (list A * string) :=
  match skip_ws r with
  | "" => None
  | String c r' =>
      if Ascii.eqb c "," then
        match next r' with
        | Some (xs, rest) => Some (x :: xs, rest)
        | None => None
        end
      else if Ascii.eqb c closing then Some ([x], r')
      else None
  end.

Definition parses (v : json) : Prop :=
  wf_json v ->
  forall gap indent fuel rest,
    blank gap = true -> blank indent = true ->
    (need v <= fuel)%nat -> value_end rest = true ->
    parse_value fuel (serialize gap indent v +:+ rest) = Some (v, rest).

Definition member_text (gap indent : string) (kv : string * json) : string :=
  let '(k, x) := kv in
  quote k +:+ (if String.eqb gap "" then ":" else ": ") +:+ serialize gap indent x.

Definition sum_len (texts : list string) : nat :=
  fold_right (fun t n => S (String.length t + n)) 0%nat texts.

End JSONText.

(** ** The data model *)

Record FileRecord := mkRecord {
  id : string;
  originalName : string;
  storedName : string;
  extension : string;
  size : N;
  mime : string;
  uploadedAt : string
}.

(** [Number.MAX_SAFE_INTEGER + 1]: below it a double holds every integer. *)
Definition safe_limit : N := 9007199254740992.

(** A record whose size is such a count. *)
Definition safe_size (r : FileRecord) : Prop := (size r < safe_limit)%N.

Definition N_to_string (n : N) : string := NilZero.string_of_uint (N.to_uint n).

(** The object literal of the upload handler (index.js, lines 89-97); the
    members are in the order the literal lists them. *)
Definition record_to_json (r : FileRecord) : json :=
  JObj [("id", JStr (id r));
        ("originalName", JStr (originalName r));
        ("storedName", JStr (storedName r));
        ("extension", JStr (extension r));
        ("size", JNum (N_to_string (size r)));
        ("mime", JStr (mime r));
        ("uploadedAt", JStr (uploadedAt r))].

Definition records_to_json (l : list FileRecord) : json :=
  JArr (map record_to_json l).

(** The byte count a number text denotes: the text is the decimal form of
    an integer below [safe_limit], as [JSON.stringify] writes it. *)
Definition size_of_literal (literal : string) : option N :=
  match NilZero.uint_of_string literal with
  | Some d =>
      let n := N.of_uint d in
      if String.eqb (N_to_string n) literal && (n <? safe_limit)%N
      then Some n else None
  | None => None
  end.

(** The view of a parsed value as a [FileRecord]: an object with exactly
    the seven members, in the order the server writes them. *)
Definition json_to_record (v : json) : option FileRecord :=
  match v with
  | JObj [(k1, JStr a); (k2, JStr b); (k3, JStr c); (k4, JStr d);
          (k5, JNum n); (k6, JStr e); (k7, JStr f)] =>
      if String.eqb k1 "id" && String.eqb k2 "originalName"
         && String.eqb k3 "storedName" && String.eqb k4 "extension"
         && String.eqb k5 "size" && String.eqb k6 "mime"
         && String.eqb k7 "uploadedAt"
      then
        match size_of_literal n with
        | Some sz => Some (mkRecord a b c d sz e f)
        | None => None
        end
      else None
  | _ => None
  end.

Fixpoint json_to_records_list (l : list json) : option (list FileRecord) :=
  match l with
  | [] => Some []
  | v :: rest =>
      match json_to_record v, json_to_records_list rest with
      | Some r, Some rs => Some (r :: rs)
      | _, _ => None
      end
  end.

Definition json_to_records (v : json) : option (list FileRecord) :=
  match v with
  | JArr l => json_to_records_list l
  | _ => None
  end.

(** ** Errors, the world and the handler monad *)

Inductive JsError :=
| SystemError (code : string)       (* raised by [fs]: ENOENT, EACCES, ... *)
| SyntaxError                       (* raised by [JSON.parse] *)
| MulterError (code : string).      (* raised by Multer: LIMIT_FILE_SIZE, ... *)

(** [err.code] *)
Definition err_code (e : JsError) : option string :=
  match e with
  | SystemError c => Some c
  | MulterError c => Some c
  | SyntaxError => None
  end.

Record World := mkWorld {
  files : gmap string string;   (* the disk: path to content *)
  denied : gset string;         (* paths whose mutation fails *)
  uuid_calls : nat;             (* calls made to [uuidv4] *)
  clock_reads : nat             (* readings taken of the clock *)
}.

Definition set_files (w : World) (fs : gmap string string) : World :=
  mkWorld fs (denied w) (uuid_calls w) (clock_reads w).

(** The result of a computation: a value, a thrown error, or [Unmodelled]
    when the metadata document holds valid JSON that is not an array of
    [FileRecord] objects, on which the handlers' behaviour (property
    accesses on arbitrary values) is not represented. *)
Inductive Result (A : Type) :=
| Ok (a : A)
| Throw (e : JsError)
| Unmodelled.
Arguments Ok {A} a.
Arguments Throw {A} e.
Arguments Unmodelled {A}.

Definition M (A : Type) : Type := World -> Result A * World.

Definition ret {A} (a : A) : M A := fun w => (Ok a, w).
Definition throw {A} (e : JsError) : M A := fun w => (Throw e, w).
Definition bind {A B} (m : M A) (k : A -> M B) : M B :=
  fun w =>
    match m w with
    | (Ok a, w') => k a w'
    | (Throw e, w') => (Throw e, w')
    | (Unmodelled, w') => (Unmodelled, w')
    end.
(** [try { m } catch (e) { h e }] *)
Definition try_catch {A} (m : M A) (h : JsError -> M A) : M A :=
  fun w =>
    match m w with
    | (Throw e, w') => h e w'
    | r => r
    end.

Notation "'let*' x := m 'in' k" := (bind m (fun x => k))
  (at level 10, x name, m at level 99, k at level 200).
Notation "'exec' m ;; k" := (bind m (fun _ => k))
  (at level 10, m at level 99, k at level 200).

(** *** The file system *)

Definition existsSync (p : string) : M bool :=
  fun w => (Ok (bool_decide (is_Some (files w !! p))), w).

Definition readFileSync (p : string) : M string :=
  fun w =>
    match files w !! p with
    | Some data => (Ok data, w)
    | None => (Throw (SystemError "ENOENT"), w)
    end.

Definition writeFileSync (p data : string) : M unit :=
  fun w =>
    if bool_decide (p ∈ denied w) then (Throw (SystemError "EACCES"), w)
    else (Ok tt, set_files w (<[p := data]> (files w))).

Definition unlink (p : string) : M unit :=
  fun w =>
    if bool_decide (p ∈ denied w) then (Throw (SystemError "EACCES"), w)
    else
      match files w !! p with
      | Some _ => (Ok tt, set_files w (delete p (files w)))
      | None => (Throw (SystemError "ENOENT"), w)
      end.

(** ** HTTP responses *)

Inductive Body :=
| BJson (v : json)            (* [res.json(v)] *)
| BStream (data : string)     (* a file piped into the response *)
| BErrorPage.                 (* the page of Express's default error handler *)

Record Response := mkResponse {
  status : Z;
  headers : list (string * string);
  body : Body
}.

Definition json_response (code : Z) (v : json) : Response :=
  mkResponse code [] (BJson v).

Definition error_json (msg : string) : json := JObj [("error", JStr msg)].

(** What a request ends in: a response, or no response at all when the
    promise of an [async] handler rejects (Express 4 does not observe
    it). *)
Inductive Outcome :=
| Responded (r : Response)
| Rejected (e : JsError)
| NotModelled.

Definition run (m : M Response) (w : World) : Outcome * World :=
  match m w with
  | (Ok r, w') => (Responded r, w')
  | (Throw e, w') => (Rejected e, w')
  | (Unmodelled, w') => (NotModelled, w')
  end.

(** Express's default error handler (finalhandler): the status is
    [err.status] or [err.statusCode] when that is a 4xx or 5xx number,
    and 500 otherwise; no error of this program carries either
    property. *)
Definition default_error_handler (e : JsError) : Response :=
  mkResponse 500 [] BErrorPage.

(** ** Library functions used by the handlers *)

(** [a || b] on strings: the empty string is falsy. *)
Definition js_or (a b : string) : string := if String.eqb a "" then b else a.

(** [encodeURIComponent]: every byte outside
    [A-Z a-z 0-9 - _ . ! ~ * ' ( )] becomes [%XX]. *)
Definition uri_unreserved (c : ascii) : bool :=
  Char.is_letter c || Char.is_digit c
  || existsb (Ascii.eqb c) (list_ascii_of_string "-_.!~*'()").

Definition upper_hex (n : N) : ascii :=
  if (n <? 10)%N then ascii_of_N (48 + n) else ascii_of_N (55 + n).

Definition uri_encode_char (c : ascii) : string :=
  if uri_unreserved c then String c ""
  else String "%" (String (upper_hex (Char.code c / 16))
                     (String (upper_hex (Char.code c mod 16)) "")).

Fixpoint encodeURIComponent (s : string) : string :=
  match s with
  | "" => ""
  | String c r => uri_encode_char c +:+ encodeURIComponent r
  end.

(** [Array.prototype.sort(comparefn)].  A comparator result is a number,
    [None] standing for NaN, which SortCompare reads as +0.  The sort is
    stable; as long as the comparator is a consistent ordering of the
    elements every implementation returns the list computed here. *)
Section Sort.
Context {A : Type} (comparefn : A -> A -> option Z).

Definition sort_compare (x y : A) : Z :=
  match comparefn x y with Some v => v | None => 0%Z end.

Fixpoint sort_insert (x : A) (l : list A) : list A :=
  match l with
  | [] => [x]
  | y :: l' =>
      if (sort_compare x y <=? 0)%Z then x :: y :: l'
      else y :: sort_insert x l'
  end.

Definition js_sort (l : list A) : list A := fold_right sort_insert [] l.
End Sort.

(** A comparator that orders by a key, largest first. *)
Section SortOrder.
Context {A : Type} (comparefn : A -> A -> option Z) (key : A -> Z).

Definition by_key (l : list A) : Prop :=
  forall x y, In x l -> In y l ->
    sort_compare comparefn x y = (key y - key x)%Z.

Definition key_ge (a b : A) : Prop := (key b <= key a)%Z.

Definition key_gt (a b : A) : Prop := (key b < key a)%Z.

End SortOrder.

(** [uuid.v4()]: 128 random bits with the version and variant nibbles
    set, written as 32 lower-case hexadecimal digits in groups of
    8-4-4-4-12. *)
Module UUID.

Definition nibble (r : N) (i : nat) : N :=
  let raw := ((r / 16 ^ N.of_nat (31 - i)) mod 16)%N in
  if (i =? 12)%nat then 4%N
  else if (i =? 16)%nat then (8 + raw mod 4)%N
  else raw.

Definition hex (r : N) (i : nat) : ascii := hex_digit (nibble r i).

Definition group (r : N) (from count : nat) : list ascii :=
  map (hex r) (seq from count).

Definition format (r : N) : string :=
  string_of_list_ascii
    (group r 0 8 ++ "-"%char :: group r 8 4 ++ "-"%char :: group r 12 4
       ++ "-"%char :: group r 16 4 ++ "-"%char :: group r 20 12).

End UUID.

(** ** The server (index.js) *)

(** A file part of a multipart request, and the file object Multer hands
    to the route ([f.originalname], [f.mimetype], [f.filename],
    [f.size]). *)
Record Part := mkPart {
  fieldname : string;
  part_filename : string;
  part_type : string;
  part_data : string
}.

Record MulterFile := mkFile {
  f_originalname : string;
  f_mimetype : string;
  f_filename : string;
  f_size : N
}.

Section Server.

Variable UPLOAD_DIR : string.
Variable MAX_FILE_SIZE : N.
(** The 128 bits the [k]-th call of [uuidv4] draws. *)
Variable random_bits : nat -> N.
(** [new Date().toISOString()] at the [k]-th reading of the clock. *)
Variable clock : nat -> string.
(** [mime.lookup]; [None] is its [false]. *)
Variable mime_lookup : string -> option string.
(** The time value of [new Date(s)]; [None] is the NaN of an invalid
    date. *)
Variable Date_value : string -> option Z.

Definition META_PATH : string := Path.join UPLOAD_DIR "metadata.json".

(** Startup (index.js, lines 21-25); the directory itself is not
    represented. *)
Definition startup : M unit :=
  let* present := existsSync META_PATH in
  if negb present then writeFileSync META_PATH (JSON.stringify (JArr []))
  else ret tt.

Definition uuidv4 : M string :=
  fun w =>
    (Ok (UUID.format (random_bits (uuid_calls w))),
     mkWorld (files w) (denied w) (S (uuid_calls w)) (clock_reads w)).

Definition now_toISOString : M string :=
  fun w =>
    (Ok (clock (clock_reads w)),
     mkWorld (files w) (denied w) (uuid_calls w) (S (clock_reads w))).

(** *** The metadata store (index.js, lines 55-72) *)

Definition loadMeta : M json :=
  try_catch
    (let* raw := readFileSync META_PATH in
     match JSON.parse raw with
     | Some v => ret v
     | None => throw SyntaxError
     end)
    (fun e =>
       exec writeFileSync META_PATH (JSON.stringify (JArr [])) ;;
       ret (JArr [])).

(** The loaded value as the handlers use it, an array of records. *)
Definition loadRecords : M (list FileRecord) :=
  let* v := loadMeta in
  match json_to_records v with
  | Some l => ret l
  | None => fun w => (Unmodelled, w)
  end.

Definition saveMeta (list : list FileRecord) : M unit :=
  writeFileSync META_PATH (JSON.stringify2 (records_to_json list)).

Definition getFileInfoById (req_id : string) (list : list FileRecord)
    : option FileRecord :=
  find (fun f => String.eqb (id f) req_id) list.

(** What the metadata document holds, when it holds an array of
    records. *)
Definition stored (w : World) : option (list FileRecord) :=
  match files w !! META_PATH with
  | Some raw =>
      match JSON.parse raw with
      | Some v => json_to_records v
      | None => None
      end
  | None => None
  end.

(** *** Multer: [upload.array('files', 10)] with the disk storage *)

(** Aborting a request removes the files it has written. *)
Definition remove_uploaded (uploaded : list string) (w : World) : World :=
  set_files w
    (fold_right
       (fun p fs => if bool_decide (p ∈ denied w) then fs else delete p fs)
       (files w) uploaded).

Definition abort {A} (uploaded : list string) (e : JsError) : M A :=
  fun w => (Throw e, remove_uploaded uploaded w).

(** The parts are handled in order.  [filesLeft] counts the files the
    field may still receive; a part of another field, or one too many,
    is an unexpected file.  The file name is chosen before the bytes
    arrive, and a part that outgrows the limit aborts the request. *)
Fixpoint multer_parts (filesLeft : nat) (uploaded : list string)
    (parts : list Part) : M (list MulterFile) :=
  match parts with
  | [] => ret []
  | p :: rest =>
      if negb (String.eqb (fieldname p) "files") || (filesLeft =? 0)%nat then
        abort uploaded (MulterError "LIMIT_UNEXPECTED_FILE")
      else
        let* uuid := uuidv4 in
        let name := storage_filename uuid (part_filename p) in
        let path := Path.join UPLOAD_DIR name in
        let bytes := N.of_nat (String.length (part_data p)) in
        if (MAX_FILE_SIZE <? bytes)%N then
          abort (path :: uploaded) (MulterError "LIMIT_FILE_SIZE")
        else
          exec try_catch (writeFileSync path (part_data p))
                         (fun e => abort (path :: uploaded) e) ;;
          let* fs := multer_parts (pred filesLeft) (path :: uploaded) rest in
          ret (mkFile (part_filename p) (part_type p) name bytes :: fs)
  end.

Definition upload_array (parts : list Part) : M (list MulterFile) :=
  multer_parts 10 [] parts.

(** *** POST /api/upload (index.js, lines 79-110) *)

Definition new_record (now : string) (f : MulterFile) : FileRecord :=
  let id := Path.parse_name (f_filename f) in
  let ext := Path.extname (f_filename f) in
  {| id := id;
     originalName := f_originalname f;
     storedName := f_filename f;
     extension := ext;
     size := f_size f;
     mime := js_or (f_mimetype f)
               (js_or (default "" (mime_lookup (f_originalname f)))
                      "application/octet-stream");
     uploadedAt := now |}.

(** The [for] loop: each record is pushed on [meta] and on [saved]. *)
Fixpoint push_records (now : string) (files : list MulterFile)
    (meta saved : list FileRecord) : list FileRecord * list FileRecord :=
  match files with
  | [] => (meta, saved)
  | f :: rest =>
      let record := new_record now f in
      push_records now rest (meta ++ [record]) (saved ++ [record])
  end.

Definition upload_handler (files : list MulterFile) : M Response :=
  try_catch
    (let* meta := loadRecords in
     let* now := now_toISOString in
     let '(meta, saved) := push_records now files meta [] in
     exec saveMeta meta ;;
     ret (json_response 201 (JObj [("files", records_to_json saved)])))
    (fun err =>
       if bool_decide (err_code err = Some "LIMIT_FILE_SIZE") then
         ret (json_response 400
                (error_json ("File too large. Max "
                             +:+ N_to_string MAX_FILE_SIZE +:+ " bytes.")))
       else ret (json_response 500 (error_json "Upload failed."))).

(** The route: the middleware runs first; when it passes an error on,
    Express skips the handler and its default error handler answers. *)
Definition post_upload (parts : list Part) (w : World) : Outcome * World :=
  match upload_array parts w with
  | (Ok files, w1) => run (upload_handler files) w1
  | (Throw e, w1) => (Responded (default_error_handler e), w1)
  | (Unmodelled, w1) => (NotModelled, w1)
  end.

(** *** GET /api/files (index.js, lines 112-117) *)

Definition newest_first (a b : FileRecord) : option Z :=
  match Date_value (uploadedAt b), Date_value (uploadedAt a) with
  | Some tb, Some ta => Some (tb - ta)%Z
  | _, _ => None
  end.

Definition list_handler : M Response :=
  let* meta := loadRecords in
  let meta := js_sort newest_first meta in
  ret (json_response 200 (JObj [("files", records_to_json meta)])).

Definition get_files (w : World) : Outcome * World := run list_handler w.

(** *** GET /api/files/:id (index.js, lines 119-124) *)

Definition not_found : Response := json_response 404 (error_json "Not found").

Definition info_handler (req_id : string) : M Response :=
  let* meta := loadRecords in
  match getFileInfoById req_id meta with
  | None => ret not_found
  | Some file => ret (json_response 200 (record_to_json file))
  end.

Definition get_file (req_id : string) (w : World) : Outcome * World :=
  run (info_handler req_id) w.

(** *** GET /api/files/:id/download (index.js, lines 126-137) *)

Definition content_disposition (file : FileRecord) : string :=
  "attachment; filename=" +:+ String dquote ""
    +:+ encodeURIComponent (originalName file) +:+ String dquote "".

Definition download_handler (req_id : string) : M Response :=
  let* meta := loadRecords in
  match getFileInfoById req_id meta with
  | None => ret not_found
  | Some file =>
      let abs := Path.join UPLOAD_DIR (storedName file) in
      let* present := existsSync abs in
      if negb present then
        ret (json_response 404 (error_json "Missing file on disk"))
      else
        let* data := readFileSync abs in
        ret (mkResponse 200
               [("Content-Type", mime file);
                ("Content-Disposition", content_disposition file)]
               (BStream data))
  end.

Definition get_download (req_id : string) (w : World) : Outcome * World :=
  run (download_handler req_id) w.

(** *** DELETE /api/files/:id (index.js, lines 139-158) *)

(** [meta.findIndex((f) => f.id === id)]; [None] is its -1. *)
Fixpoint findIndex (req_id : string) (meta : list FileRecord) : option nat :=
  match meta with
  | [] => None
  | f :: rest =>
      if String.eqb (id f) req_id then Some 0%nat
      else option_map S (findIndex req_id rest)
  end.

Definition delete_handler (req_id : string) : M Response :=
  let* meta := loadRecords in
  match findIndex req_id meta with
  | None => ret not_found
  | Some idx =>
      match meta !! idx with
      | None => ret not_found        (* not reached: [idx] is in range *)
      | Some file =>
          let abs := Path.join UPLOAD_DIR (storedName file) in
          try_catch
            (let* present := existsSync abs in
             exec (if present then unlink abs else ret tt) ;;
             let meta := delete idx meta in       (* meta.splice(idx, 1) *)
             exec saveMeta meta ;;
             ret (json_response 200 (JObj [("ok", JBool true)])))
            (fun e =>
               ret (json_response 500 (error_json "Failed to delete")))
      end
  end.

Definition delete_file (req_id : string) (w : World) : Outcome * World :=
  run (delete_handler req_id) w.

(** *** Vocabulary of the statements *)

(** The world after a successful write of [data] to [p]. *)
Definition written (p data : string) (w : World) : World :=
  set_files w (<[p := data]> (files w)).

Definition document (list : list FileRecord) : string :=
  JSON.stringify2 (records_to_json list).

(** Reading or parsing the document fails. *)
Definition load_fails (w : World) : Prop :=
  match files w !! META_PATH with
  | None => True
  | Some raw => JSON.parse raw = None
  end.

Definition ok_response : Response := json_response 200 (JObj [("ok", JBool true)]).

Definition delete_failed : Response := json_response 500 (error_json "Failed to delete").

(** The world after [unlink(p)], or after finding no file at [p]. *)
Definition unlinked (p : string) (w : World) : World :=
  set_files w (delete p (files w)).

Definition missing_on_disk : Response :=
  json_response 404 (error_json "Missing file on disk").

Definition download_response (file : FileRecord) (data : string) : Response :=
  mkResponse 200
    [("Content-Type", mime file);
     ("Content-Disposition",
      "attachment; filename=" +:+ String dquote ""
        +:+ encodeURIComponent (originalName file) +:+ String dquote "")]
    (BStream data).

(** The time value of a record with a valid time stamp. *)
Definition time_of (r : FileRecord) : Z := default 0%Z (Date_value (uploadedAt r)).

Definition valid_time (r : FileRecord) : Prop := is_Some (Date_value (uploadedAt r)).

(** [a] was uploaded no earlier than [b]. *)
Definition not_older (a b : FileRecord) : Prop :=
  exists ta tb, Date_value (uploadedAt a) = Some ta
    /\ Date_value (uploadedAt b) = Some tb /\ (tb <= ta)%Z.

Definition part_size (p : Part) : N := N.of_nat (String.length (part_data p)).

(** A part Multer accepts: it comes in the field [files] and is not
    larger than the limit. *)
Definition accepted (p : Part) : Prop :=
  fieldname p = "files" /\ (part_size p <= MAX_FILE_SIZE)%N.

Definition oversize (p : Part) : Prop := (MAX_FILE_SIZE < part_size p)%N.

(** The identifier the [k]-th call of [uuidv4] returns. *)
Definition uuid_at (k : nat) : string := UUID.format (random_bits k).

Definition stored_name (k : nat) (p : Part) : string :=
  storage_filename (uuid_at k) (part_filename p).

Definition dest (k : nat) (p : Part) : string :=
  Path.join UPLOAD_DIR (stored_name k p).

(** The file objects of a request whose first part draws the [k]-th
    identifier, the paths they are written to, and the disk after. *)
Fixpoint multer_result (k : nat) (parts : list Part) : list MulterFile :=
  match parts with
  | [] => []
  | p :: rest =>
      mkFile (part_filename p) (part_type p) (stored_name k p) (part_size p)
      :: multer_result (S k) rest
  end.

Fixpoint dests (k : nat) (parts : list Part) : list string :=
  match parts with
  | [] => []
  | p :: rest => dest k p :: dests (S k) rest
  end.

Fixpoint disk_after (k : nat) (parts : list Part) (fs : gmap string string)
    : gmap string string :=
  match parts with
  | [] => fs
  | p :: rest => disk_after (S k) rest (<[dest k p := part_data p]> fs)
  end.

Definition drawn (w : World) : World :=
  mkWorld (files w) (denied w) (S (uuid_calls w)) (clock_reads w).

Definition ticked (w : World) : World :=
  mkWorld (files w) (denied w) (uuid_calls w) (S (clock_reads w)).

Definition upload_failed : Response := json_response 500 (error_json "Upload failed.").

Definition created (saved : list FileRecord) : Response :=
  json_response 201 (JObj [("files", records_to_json saved)]).

(** The records a request creates from the file objects it was handed. *)
Definition new_records (w : World) (fls : list MulterFile) : list FileRecord :=
  map (new_record (clock (clock_reads w))) fls.


End Server.

(** ** The routes together *)

(** A request the router has matched with one of the API routes.  The
    parts of an upload are its file parts that carry a file name; Multer
    passes over the others. *)
Inductive Request :=
| GetHealth
| PostUpload (parts : list Part)
| GetFiles
| GetFile (req_id : string)
| GetDownload (req_id : string)
| DeleteFile (req_id : string).

Section Routes.

Variable UPLOAD_DIR : string.
Variable MAX_FILE_SIZE : N.
Variable random_bits : nat -> N.
Variable clock : nat -> string.
Variable mime_lookup : string -> option string.
Variable Date_value : string -> option Z.

(** GET /api/health (index.js, lines 75-77) *)
Definition health : M Response :=
  ret (json_response 200 (JObj [("ok", JBool true)])).

Definition serve (r : Request) (w : World) : Outcome * World :=
  match r with
  | GetHealth => run health w
  | PostUpload parts =>
      post_upload UPLOAD_DIR MAX_FILE_SIZE random_bits clock mime_lookup parts w
  | GetFiles => get_files UPLOAD_DIR Date_value w
  | GetFile req_id => get_file UPLOAD_DIR req_id w
  | GetDownload req_id => get_download UPLOAD_DIR req_id w
  | DeleteFile req_id => delete_file UPLOAD_DIR req_id w
  end.

(** The requests are served one after the other. *)
Fixpoint serve_all (rs : list Request) (w : World) : list Outcome * World :=
  match rs with
  | [] => ([], w)
  | r :: rest =>
      let '(o, w1) := serve r w in
      let '(os, w2) := serve_all rest w1 in
      (o :: os, w2)
  end.

(** *** More vocabulary *)

Definition answered (o : Outcome) : Prop := exists resp, o = Responded resp.

(** The identifier was returned by one of the calls made to [uuidv4]. *)
Definition drawn_id (w : World) (r : FileRecord) : Prop :=
  exists k, (k < uuid_calls w)%nat /\ id r = uuid_at random_bits k.

(** The document holds records with distinct identifiers, all of them
    generated by this server. *)
Definition unique_ids (w : World) : Prop :=
  exists meta,
    stored UPLOAD_DIR w = Some meta /\ NoDup (map id meta)
    /\ Forall (drawn_id w) meta.

(** The first [n] identifiers of the generator differ from each other. *)
Definition never_repeats (n : nat) : Prop :=
  forall j k, (j < k < n)%nat -> uuid_at random_bits j <> uuid_at random_bits k.

(** The record was created by this server for a file that is on disk:
    its identifier was returned by [uuidv4], its stored name begins with
    it, and the file of that name is there. *)
Definition backed (w : World) (r : FileRecord) : Prop :=
  exists k ext,
    (k < uuid_calls w)%nat /\ id r = uuid_at random_bits k
    /\ storedName r = uuid_at random_bits k +:+ ext
    /\ is_Some (files w !! Path.join UPLOAD_DIR (storedName r)).

(** The path is that of the metadata document or of the file of a
    record. *)
Definition owned (meta : list FileRecord) (q : string) : Prop :=
  q = META_PATH UPLOAD_DIR
  \/ exists r, In r meta /\ q = Path.join UPLOAD_DIR (storedName r).

(** Records and files match: the identifiers are distinct, every record
    has its file, and every file is the document or the file of a
    record. *)
Definition matched (w : World) : Prop :=
  exists meta,
    stored UPLOAD_DIR w = Some meta /\ NoDup (map id meta)
    /\ Forall (backed w) meta
    /\ forall q, is_Some (files w !! q) -> owned meta q.


(** The record was uploaded at time [t]. *)
Definition uploaded_at (t : Z) (r : FileRecord) : bool :=
  bool_decide (Date_value (uploadedAt r) = Some t).

End Routes.

(** The characters [encodeURIComponent] can return. *)
Definition uri_char (c : ascii) : bool := uri_unreserved c || Ascii.eqb c "%".

(** A lower-case hexadecimal digit or the hyphen: the characters of a
    UUID. *)
Definition uuid_char (c : ascii) : bool :=
  Char.is_digit c || Char.between 97 102 c || Ascii.eqb c "-".

Definition alphanumeric (c : ascii) : bool := Char.is_letter c || Char.is_digit c.

(** ** The client (client/src/App.tsx) *)

Module Client.

(** The text [res.json(v)] sends: [JSON.stringify(v)]. *)
Definition sent (v : json) : string := JSON.stringify v.

(** [res.ok] *)
Definition ok (resp : Response) : bool :=
  (200 <=? status resp)%Z && (status resp <? 300)%Z.

(** [v.key] on a parsed value that is not [null]: the member with that
    key, the last one when the text repeated the key; [None] is
    [undefined]. *)
Fixpoint member (key : string) (members : list (string * json)) : option json :=
  match members with
  | [] => None
  | (k, x) :: rest =>
      match member key rest with
      | Some y => Some y
      | None => if String.eqb k key then Some x else None
      end
  end.

Definition property (key : string) (v : json) : option json :=
  match v with
  | JObj members => member key members
  | _ => None
  end.



(** What the client reports: a text, or a value of [err.error] that is
    not a string. *)
Inductive Message :=
| Says (text : string)
| NotText.

(** The message for a response that is not a success,
    [err?.error || fallback], the fallback also when the text is not
    JSON: [uploadOne] (App.tsx, lines 102-109) and [handleDelete] (lines
    132-135). *)
Definition error_message (fallback : string) (text : string) : Message :=
  match JSON.parse text with
  | None => Says fallback
  | Some err =>
      match property "error" err with
      | None | Some JNull | Some (JBool false) => Says fallback
      | Some (JStr msg) => Says (js_or msg fallback)
      | Some _ => NotText
      end
  end.

End Client.

(** ** A concrete run *)

Module Scenario.

Definition dir : string := "uploads".
Definition limit : N := 16.
Definition bits (k : nat) : N := N.of_nat k.

Definition t1 : string := "2024-03-01T09:00:00.000Z".
Definition t2 : string := "2024-03-02T09:00:00.000Z".
Definition t3 : string := "2024-03-03T09:00:00.000Z".

Definition clock (k : nat) : string :=
  match k with
  | O => t1
  | S O => t2
  | _ => t3
  end.

Definition no_lookup (name : string) : option string := None.

Definition date (s : string) : option Z :=
  if String.eqb s t1 then Some 1709283600000%Z
  else if String.eqb s t2 then Some 1709370000000%Z
  else if String.eqb s t3 then Some 1709456400000%Z
  else None.

Definition notes : Part := mkPart "files" "notes.txt" "text/plain" "hello".
Definition photo : Part := mkPart "files" "photo.p;n$g" "" "0123456789".
Definition large : Part := mkPart "files" "large.bin" "" "0123456789abcdefXYZ".

Definition upload (parts : list Part) (w : World) : Outcome * World :=
  post_upload dir limit bits clock no_lookup parts w.

(** The server after startup on an empty directory and after each of
    three uploads of one file. *)
Definition w0 : World := snd (startup dir (mkWorld ∅ ∅ 0 0)).
Definition w1 : World := snd (upload [notes] w0).
Definition w2 : World := snd (upload [photo] w1).
Definition w3 : World := snd (upload [notes] w2).

Definition r1 : FileRecord :=
  {| id := "00000000-0000-4000-8000-000000000000";
     originalName := "notes.txt";
     storedName := "00000000-0000-4000-8000-000000000000.txt";
     extension := ".txt";
     size := 5;
     mime := "text/plain";
     uploadedAt := t1 |}.

Definition r2 : FileRecord :=
  {| id := "00000000-0000-4000-8000-000000000001";
     originalName := "photo.p;n$g";
     storedName := "00000000-0000-4000-8000-000000000001.png";
     extension := ".png";
     size := 10;
     mime := "application/octet-stream";
     uploadedAt := t2 |}.

Definition r3 : FileRecord :=
  {| id := "00000000-0000-4000-8000-000000000002";
     originalName := "notes.txt";
     storedName := "00000000-0000-4000-8000-000000000002.txt";
     extension := ".txt";
     size := 5;
     mime := "text/plain";
     uploadedAt := t3 |}.

(** A world whose metadata document is not JSON and cannot be written,
    and the same document, writable. *)
Definition locked : World :=
  mkWorld {[ META_PATH dir := "{ not json" ]} {[ META_PATH dir ]} 0 0.
Definition corrupt : World :=
  mkWorld {[ META_PATH dir := "{ not json" ]} ∅ 0 0.

(** [w3] with the file of [r1] protected against removal. *)
Definition protected : World :=
  mkWorld (files w3) {[ Path.join dir (storedName r1) ]}
    (uuid_calls w3) (clock_reads w3).

Definition response_of (o : Outcome) : Response :=
  match o with
  | Responded r => r
  | _ => mkResponse 0 [] BErrorPage
  end.


End Scenario.

(** ** More concrete runs *)

Module Cases.

(** An upload directory without a metadata document. *)
Definition fresh : World := mkWorld ∅ ∅ 0 0.

(** [Scenario.w3] with the metadata document protected against
    writing. *)
Definition frozen : World :=
  mkWorld (files Scenario.w3) {[ META_PATH Scenario.dir ]}
    (uuid_calls Scenario.w3) (clock_reads Scenario.w3).


(** The server after one upload of two parts, and its records. *)
Definition together : World :=
  snd (Scenario.upload [Scenario.notes; Scenario.photo] Scenario.w0).

Definition batch : list FileRecord :=
  [Scenario.r1;
   {| id := id Scenario.r2;
      originalName := originalName Scenario.r2;
      storedName := storedName Scenario.r2;
      extension := extension Scenario.r2;
      size := size Scenario.r2;
      mime := mime Scenario.r2;
      uploadedAt := Scenario.t1 |}].

(** A session: requests served one after the other from startup. *)
Definition session : list Request :=
  [PostUpload [Scenario.notes; Scenario.photo];
   GetFiles;
   DeleteFile "00000000-0000-4000-8000-000000000000";
   GetDownload "00000000-0000-4000-8000-000000000000";
   PostUpload [Scenario.notes; Scenario.large];
   GetFile "00000000-0000-4000-8000-000000000001";
   PostUpload [Scenario.photo];
   GetHealth].

Definition serve_session (rs : list Request) (w : World) : list Outcome * World :=
  serve_all Scenario.dir Scenario.limit Scenario.bits Scenario.clock
    Scenario.no_lookup Scenario.date rs w.

End Cases.

(** * Properties *)

Open Scope list_scope.
Arguments String.append : simpl nomatch.

(** ** Strings as character lists *)

Lemma chars_app (a b : string) :
  list_ascii_of_string (a +:+ b)
  = list_ascii_of_string a ++ list_ascii_of_string b.
Proof. induction a as [|c a IH]; simpl; [reflexivity | now rewrite IH]. Qed.

Lemma string_of_chars_app (a b : list ascii) :
  string_of_list_ascii (a ++ b)
  = string_of_list_ascii a +:+ string_of_list_ascii b.
Proof. induction a as [|c a IH]; simpl; [reflexivity | now rewrite IH]. Qed.

Lemma string_cons_app (c : ascii) (a b : string) :
  String c a +:+ b = String c (a +:+ b).
Proof. reflexivity. Qed.

Lemma string_app_nil_r (a : string) : a +:+ "" = a.
Proof. induction a as [|c a IH]; simpl; [reflexivity | now rewrite IH]. Qed.

Lemma string_app_assoc (a b c : string) : (a +:+ b) +:+ c = a +:+ (b +:+ c).
Proof. induction a as [|x a IH]; simpl; [reflexivity | now rewrite IH]. Qed.

Lemma string_app_length (a b : string) :
  String.length (a +:+ b) = (String.length a + String.length b)%nat.
Proof. induction a as [|x a IH]; simpl; [reflexivity | now rewrite IH]. Qed.

Lemma string_app_inv_head (a b c : string) : a +:+ b = a +:+ c -> b = c.
Proof. induction a as [|x a IH]; simpl; intros H; [assumption|]. injection H. exact IH. Qed.

(** ** The path scan *)

Module PathFacts.
Import Path.

Lemma plain_not_slash c : Char.plain c = true -> Char.is_slash c = false.
Proof. unfold Char.plain. destruct (Char.is_slash c); [|reflexivity]. rewrite andb_false_r. discriminate. Qed.

Lemma plain_not_dot c : Char.plain c = true -> Char.is_dot c = false.
Proof. unfold Char.plain. destruct (Char.is_dot c); [discriminate | reflexivity]. Qed.

(** The tail of a scan never holds a dot or a separator. *)
Lemma scan_char_tail c st :
  Char.is_slash c = false ->
  plain_chars (tail st) -> plain_chars (tail (scan_char c st)).
Proof.
  intros Hs Ht. unfold scan_char.
  destruct (seen_end st), (Char.is_dot c) eqn:Hd, (seen_dot st); simpl; try assumption;
    constructor; try assumption; unfold Char.plain; now rewrite Hd, Hs.
Qed.

Lemma scan_loop_tail rpath st :
  plain_chars (tail st) -> plain_chars (tail (scan_loop rpath st)).
Proof.
  revert st. induction rpath as [|c rest IH]; intros st Ht; simpl; [assumption|].
  destruct (Char.is_slash c) eqn:Hs.
  - destruct (seen_end st); [assumption | now apply IH].
  - apply IH. now apply scan_char_tail.
Qed.

(** [path.extname] returns the empty string, or a dot followed by
    characters that are neither dots nor separators. *)
Lemma extname_shape (p : string) :
  extname_chars (scan_path p) = []
  \/ exists t, extname_chars (scan_path p) = "."%char :: t /\ plain_chars t.
Proof.
  unfold extname_chars. destruct (no_ext (scan_path p)); [now left | right].
  eexists; split; [reflexivity|]. apply scan_loop_tail. constructor.
Qed.

Lemma scan_char_plain_tail c e tl hd pre :
  Char.plain c = true ->
  scan_char c (Scan e false tl hd pre) = Scan true false (c :: tl) hd pre.
Proof.
  intros Hc. unfold scan_char. rewrite (plain_not_dot _ Hc). now destruct e.
Qed.

Lemma scan_char_plain_head c tl hd pre :
  Char.plain c = true ->
  scan_char c (Scan true true tl hd pre) = Scan true true tl (c :: hd) (-1).
Proof. intros Hc. unfold scan_char. now rewrite (plain_not_dot _ Hc). Qed.

Lemma scan_char_first_dot e tl hd pre :
  scan_char "."%char (Scan e false tl hd pre) = Scan true true tl hd pre.
Proof. now destruct e. Qed.

(** Scanning plain characters before any dot was met. *)
Lemma scan_plain_tail (l rest : list ascii) e tl hd pre :
  plain_chars l ->
  scan_loop (l ++ rest) (Scan e false tl hd pre)
  = scan_loop rest
      (Scan (e || negb (length l =? 0)%nat) false (rev l ++ tl) hd pre).
Proof.
  revert e tl. induction l as [|c l IH]; intros e tl Hl; simpl.
  - now rewrite orb_false_r.
  - inversion Hl as [|? ? Hc Hl']; subst.
    rewrite (plain_not_slash _ Hc), scan_char_plain_tail by assumption.
    rewrite IH by assumption. rewrite orb_true_r. simpl.
    now rewrite <- app_assoc.
Qed.

(** Scanning plain characters to the left of the dot. *)
Lemma scan_plain_head (l rest : list ascii) tl hd pre :
  plain_chars l ->
  scan_loop (l ++ rest) (Scan true true tl hd pre)
  = scan_loop rest
      (Scan true true tl (rev l ++ hd)
         (if (length l =? 0)%nat then pre else (-1)%Z)).
Proof.
  revert hd pre. induction l as [|c l IH]; intros hd pre Hl; simpl; [reflexivity|].
  inversion Hl as [|? ? Hc Hl']; subst.
  rewrite (plain_not_slash _ Hc), scan_char_plain_head by assumption.
  rewrite IH by assumption.
  rewrite <- app_assoc. simpl. now destruct (length l =? 0)%nat.
Qed.

Lemma scan_name_ext (u t : list ascii) :
  plain_chars u -> u <> [] -> plain_chars t ->
  scan_loop (rev (u ++ "."%char :: t)) scan0 = Scan true true t u (-1).
Proof.
  intros Hu Hne Ht. rewrite rev_app_distr. simpl rev. rewrite <- app_assoc.
  unfold scan0. rewrite scan_plain_tail by (apply Forall_rev; exact Ht).
  change (["."%char] ++ rev u) with ("."%char :: rev u).
  change (scan_loop ("."%char :: rev u) ?st)
    with (scan_loop (rev u) (scan_char "."%char st)).
  rewrite scan_char_first_dot.
  rewrite <- (app_nil_r (rev u)).
  rewrite scan_plain_head by (apply Forall_rev; exact Hu).
  simpl. rewrite !app_nil_r, !rev_involutive.
  destruct u as [|c u]; [contradiction|].
  rewrite length_rev. reflexivity.
Qed.

Lemma scan_name_only (u : list ascii) :
  plain_chars u -> u <> [] ->
  scan_loop (rev u) scan0 = Scan true false u [] 0.
Proof.
  intros Hu Hne. rewrite <- (app_nil_r (rev u)). unfold scan0.
  rewrite scan_plain_tail by (apply Forall_rev; exact Hu).
  simpl. rewrite app_nil_r, rev_involutive, length_rev.
  destruct u; [contradiction | reflexivity].
Qed.

End PathFacts.

(** ** Identifiers and stored names *)

Module NameFacts.
Import Path PathFacts.

Lemma hex_digit_plain (n : N) : (n < 16)%N -> Char.plain (hex_digit n) = true.
Proof.
  intros Hn.
  assert (Hall : forallb (fun k => Char.plain (hex_digit (N.of_nat k))) (seq 0 16) = true)
    by (vm_compute; reflexivity).
  rewrite List.forallb_forall in Hall.
  specialize (Hall (N.to_nat n)). rewrite N2Nat.id in Hall.
  apply Hall, List.in_seq. lia.
Qed.

Lemma nibble_bound r i : (UUID.nibble r i < 16)%N.
Proof.
  unfold UUID.nibble.
  destruct (i =? 12)%nat; [lia|].
  destruct (i =? 16)%nat.
  - assert ((r / 16 ^ N.of_nat (31 - i)) mod 16 mod 4 < 4)%N
      by (apply N.mod_lt; lia). lia.
  - apply N.mod_lt; lia.
Qed.

Lemma group_plain r from count : plain_chars (UUID.group r from count).
Proof.
  unfold UUID.group, plain_chars. apply List.Forall_forall. intros c Hc.
  apply List.in_map_iff in Hc as [i [<- _]]. apply hex_digit_plain, nibble_bound.
Qed.

Lemma uuid_chars r :
  exists u, UUID.format r = string_of_list_ascii u /\ plain_chars u /\ u <> [].
Proof.
  eexists; split; [reflexivity|]. split.
  - repeat (apply List.Forall_app; split; [apply group_plain|]; constructor; [reflexivity|]).
    apply group_plain.
  - discriminate.
Qed.

(** The sanitised extension is empty, or a dot and allowed characters
    none of which is a dot or a separator. *)
Lemma safeExt_shape (name : string) :
  safeExt_of (extname name) = ""
  \/ exists t, safeExt_of (extname name) = string_of_list_ascii ("."%char :: t)
               /\ plain_chars t.
Proof.
  unfold safeExt_of, extname. rewrite list_ascii_of_string_of_list_ascii.
  destruct (extname_shape name) as [-> | [t [-> Ht]]]; [now left | right].
  exists (List.filter Char.ext_allowed t). split; [reflexivity|].
  unfold plain_chars in *. rewrite List.Forall_forall in *.
  intros c Hc. apply List.filter_In in Hc as [Hc _]. auto.
Qed.

Lemma scan_stored_name r name :
  exists u, UUID.format r = string_of_list_ascii u /\
    (safeExt_of (extname name) = "" /\
       scan_path (storage_filename (UUID.format r) name) = Scan true false u [] 0
     \/ exists t, safeExt_of (extname name) = string_of_list_ascii ("."%char :: t) /\
       scan_path (storage_filename (UUID.format r) name) = Scan true true t u (-1)).
Proof.
  destruct (uuid_chars r) as [u [Hu [Hplain Hne]]].
  exists u. split; [exact Hu|].
  unfold storage_filename, scan_path. rewrite chars_app, Hu.
  rewrite list_ascii_of_string_of_list_ascii.
  destruct (safeExt_shape name) as [-> | [t [-> Ht]]]; [left | right].
  - split; [reflexivity|]. simpl list_ascii_of_string. rewrite app_nil_r.
    now apply scan_name_only.
  - exists t. split; [reflexivity|].
    rewrite list_ascii_of_string_of_list_ascii. now apply scan_name_ext.
Qed.

(** [path.parse] recovers the identifier from a stored name. *)
Lemma parse_name_stored r name :
  parse_name (storage_filename (UUID.format r) name) = UUID.format r.
Proof.
  destruct (scan_stored_name r name) as [u [Hu [[_ Hs] | [t [_ Hs]]]]];
    unfold parse_name; rewrite Hs, Hu; reflexivity.
Qed.


Lemma uuid_length r : String.length (UUID.format r) = 36%nat.
Proof. reflexivity. Qed.

(** A stored name is never the name of the metadata document. *)
Lemma stored_name_not_metadata r name :
  storage_filename (UUID.format r) name <> "metadata.json".
Proof.
  intros H. pose proof (parse_name_stored r name) as Hp. rewrite H in Hp.
  assert (Hm : parse_name "metadata.json" = "metadata") by reflexivity.
  rewrite Hm in Hp. pose proof (uuid_length r) as Hlen.
  rewrite <- Hp in Hlen. discriminate.
Qed.

End NameFacts.

(** ** [JSON.parse] inverts [JSON.stringify] *)

Module JSONFacts.
Import JSONText.

(** *** String literals *)

Lemma parse_quote_char (c : ascii) (tl : string) :
  parse_chars (quote_char c +:+ tl) = prepend (String c "") (parse_chars tl).
Proof.
  destruct c as [[] [] [] [] [] [] [] []]; reflexivity.
Qed.

Lemma parse_quote_chars (s rest : string) :
  parse_chars (quote_chars s +:+ String dquote rest) = Some (s, rest).
Proof.
  induction s as [|c s IH]; [reflexivity|].
  simpl quote_chars. rewrite string_app_assoc, parse_quote_char, IH.
  reflexivity.
Qed.

Lemma parse_quote (s rest : string) :
  exists tl, quote s +:+ rest = String dquote tl /\ parse_chars tl = Some (s, rest).
Proof.
  eexists. split; [reflexivity|].
  rewrite string_app_assoc. apply parse_quote_chars.
Qed.

(** *** Numbers *)

Lemma take_digits_stop (rest : string) :
  value_end rest = true -> take_digits rest = ("", rest).
Proof.
  destruct rest as [|c r]; [reflexivity|]. simpl. unfold number_stop.
  destruct (Char.is_digit c); [discriminate | reflexivity].
Qed.

Lemma take_digits_uint (d : Decimal.uint) (rest : string) :
  value_end rest = true ->
  take_digits (NilEmpty.string_of_uint d +:+ rest)
  = (NilEmpty.string_of_uint d, rest).
Proof.
  intros Hrest. induction d; simpl; [now apply take_digits_stop | ..];
    rewrite IHd; reflexivity.
Qed.

Lemma number_frac_stop (rest : string) :
  value_end rest = true -> number_frac rest = Some ("", rest).
Proof.
  destruct rest as [|c r]; [reflexivity|]. simpl. unfold number_stop.
  destruct (Ascii.eqb c "."); [|reflexivity].
  rewrite andb_false_r. discriminate.
Qed.

Lemma number_exp_stop (rest : string) :
  value_end rest = true -> number_exp rest = Some ("", rest).
Proof.
  destruct rest as [|c r]; [reflexivity|]. simpl. unfold number_stop.
  destruct (Ascii.eqb c "e"); [rewrite andb_false_r; discriminate|].
  destruct (Ascii.eqb c "E"); [rewrite andb_false_r; discriminate|].
  reflexivity.
Qed.

Lemma nzhead_not_zero (d x : Decimal.uint) : Decimal.nzhead d <> Decimal.D0 x.
Proof. induction d; simpl; try discriminate. exact IHd. Qed.

Lemma to_uint_normal (n : N) : Decimal.unorm (N.to_uint n) = N.to_uint n.
Proof. rewrite <- (DecimalN.Unsigned.to_of (N.to_uint n)). now rewrite DecimalN.Unsigned.of_to. Qed.

(** The decimal text of a natural number: a single zero, or a non-zero
    digit followed by digits. *)
Lemma N_to_string_shape (n : N) :
  N_to_string n = "0"
  \/ exists c d, N_to_string n = String c (NilEmpty.string_of_uint d)
                 /\ Char.is_digit c = true /\ Ascii.eqb c "0" = false
                 /\ Ascii.eqb c "-" = false.
Proof.
  unfold N_to_string. pose proof (to_uint_normal n) as Hn.
  destruct (N.to_uint n) as [|d|d|d|d|d|d|d|d|d|d];
    try (right; eexists _, d; repeat split; reflexivity).
  - discriminate.
  - left. rewrite unorm_D0 in Hn. unfold Decimal.unorm in Hn.
    destruct (Decimal.nzhead d) eqn:Hd;
      try (exfalso; rewrite Hn in Hd; exact (nzhead_not_zero _ _ Hd)).
    injection Hn as <-. reflexivity.
Qed.

Lemma parse_number_N (n : N) (rest : string) :
  value_end rest = true ->
  parse_number (N_to_string n +:+ rest) = Some (N_to_string n, rest).
Proof.
  intros Hrest.
  destruct (N_to_string_shape n) as [-> | [c [d [-> [Hc [Hz Hm]]]]]].
  - simpl. unfold parse_number. simpl.
    rewrite number_frac_stop, number_exp_stop by assumption. reflexivity.
  - simpl. unfold parse_number. rewrite Hm. unfold number_int. rewrite Hz, Hc.
    rewrite take_digits_uint by assumption.
    rewrite number_frac_stop, number_exp_stop by assumption.
    simpl. now rewrite !string_app_nil_r.
Qed.

Lemma size_of_literal_N (n : N) :
  (n < safe_limit)%N -> size_of_literal (N_to_string n) = Some n.
Proof.
  intros Hn. unfold size_of_literal, N_to_string.
  rewrite NilZero.usu.
  - rewrite DecimalN.Unsigned.of_to, String.eqb_refl.
    apply N.ltb_lt in Hn. now rewrite Hn.
  - rewrite <- to_uint_normal. apply unorm_nonnil.
Qed.

Lemma size_of_literal_inv (lit : string) (n : N) :
  size_of_literal lit = Some n -> lit = N_to_string n /\ (n < safe_limit)%N.
Proof.
  unfold size_of_literal. destruct (NilZero.uint_of_string lit) as [d|]; [|discriminate].
  destruct (String.eqb _ lit) eqn:He; [|discriminate].
  destruct (N.ltb _ safe_limit) eqn:Hl; [|discriminate].
  simpl. intros [= <-]. apply String.eqb_eq in He. apply N.ltb_lt in Hl. now split.
Qed.

(** *** Values *)

Lemma need_arr items : need (JArr items) = S (need_items items).
Proof. reflexivity. Qed.

Lemma need_obj members : need (JObj members) = S (need_members members).
Proof. reflexivity. Qed.

Lemma wf_arr items : wf_json (JArr items) <-> Forall wf_json items.
Proof.
  simpl. induction items as [|x xs IH]; split; intros H.
  - constructor.
  - exact I.
  - destruct H as [Hx Hxs]. constructor; [assumption | now apply IH].
  - inversion H; subst. split; [assumption | now apply IH].
Qed.

Lemma wf_obj members :
  wf_json (JObj members) <-> Forall (fun kv => wf_json (snd kv)) members.
Proof.
  simpl. induction members as [|x xs IH]; split; intros H.
  - constructor.
  - exact I.
  - destruct H as [Hx Hxs]. constructor; [assumption | now apply IH].
  - inversion H; subst. split; [assumption | now apply IH].
Qed.

(** *** White space and layout *)

Lemma skip_ws_blank (b s : string) :
  blank b = true -> skip_ws (b +:+ s) = skip_ws s.
Proof.
  induction b as [|c b IH]; simpl; [reflexivity|].
  intros H. apply andb_prop in H as [Hc Hb]. rewrite Hc. now apply IH.
Qed.

Lemma blank_app (a b : string) :
  blank a = true -> blank b = true -> blank (a +:+ b) = true.
Proof.
  induction a as [|c a IH]; simpl; [trivial|].
  intros H Hb. apply andb_prop in H as [Hc Ha]. rewrite Hc. now apply IH.
Qed.

Lemma skip_ws_head (c : ascii) (s : string) :
  is_ws c = false -> skip_ws (String c s) = String c s.
Proof. intros H. simpl. now rewrite H. Qed.

Lemma concat_joined (lead : string) (x : string) (xs : list string) (tl : string) :
  lead +:+ String.concat ("," +:+ lead) (x :: xs) +:+ tl = joined lead (x :: xs) tl.
Proof.
  revert x. induction xs as [|y ys IH]; intros x; [reflexivity|].
  change (String.concat ("," +:+ lead) (x :: y :: ys))
    with (x +:+ ("," +:+ lead) +:+ String.concat ("," +:+ lead) (y :: ys)).
  change (joined lead (x :: y :: ys) tl)
    with (lead +:+ x +:+ String "," (joined lead (y :: ys) tl)).
  rewrite <- IH. rewrite !string_app_assoc. reflexivity.
Qed.

Lemma wrap_joined gap indent opening closing x xs rest :
  wrap gap indent opening closing (x :: xs) +:+ rest
  = String opening
      (joined (pre gap indent) (x :: xs) (post gap indent +:+ String closing rest)).
Proof.
  rewrite <- concat_joined. unfold wrap, pre, post.
  destruct (String.eqb gap "");
    rewrite string_cons_app, !string_app_assoc; reflexivity.
Qed.

Lemma blank_pre gap indent :
  blank gap = true -> blank indent = true -> blank (pre gap indent) = true.
Proof.
  intros Hg Hi. unfold pre. destruct (String.eqb gap ""); [reflexivity|].
  simpl. now apply blank_app.
Qed.

Lemma blank_post gap indent :
  blank indent = true -> blank (post gap indent) = true.
Proof.
  intros Hi. unfold post. destruct (String.eqb gap ""); [reflexivity|].
  simpl. assumption.
Qed.

Lemma value_end_post gap indent (closing : ascii) rest :
  blank indent = true -> number_stop closing = true ->
  value_end (post gap indent +:+ String closing rest) = true.
Proof.
  intros Hi Hc. unfold post. destruct (String.eqb gap ""); simpl; [assumption|reflexivity].
Qed.

Lemma skip_ws_post gap indent (closing : ascii) rest :
  blank indent = true -> is_ws closing = false ->
  skip_ws (post gap indent +:+ String closing rest) = String closing rest.
Proof.
  intros Hi Hc. rewrite skip_ws_blank by now apply blank_post.
  now apply skip_ws_head.
Qed.

(** *** One step of the parser on each kind of text *)

Lemma num_head_dispatch (c : ascii) :
  num_head c = true ->
  is_ws c = false /\ Ascii.eqb c "[" = false /\ Ascii.eqb c "{" = false
  /\ Ascii.eqb c dquote = false /\ Ascii.eqb c "t" = false
  /\ Ascii.eqb c "f" = false /\ Ascii.eqb c "n" = false
  /\ Ascii.eqb c "]" = false /\ Ascii.eqb c "}" = false.
Proof.
  destruct c as [[] [] [] [] [] [] [] []]; vm_compute; intros H;
    try discriminate H; repeat split.
Qed.

Lemma parse_value_skip (fuel : nat) (b s : string) :
  blank b = true -> parse_value fuel (b +:+ s) = parse_value fuel s.
Proof.
  intros Hb. destruct fuel as [|f]; [reflexivity|].
  simpl. now rewrite skip_ws_blank.
Qed.

Lemma parse_value_num (f : nat) (c : ascii) (r : string) :
  num_head c = true ->
  parse_value (S f) (String c r)
  = match parse_number (String c r) with
    | Some (literal, rest) => Some (JNum literal, rest)
    | None => None
    end.
Proof.
  intros H. destruct (num_head_dispatch c H) as (Hw & H1 & H2 & H3 & H4 & H5 & H6 & _).
  simpl. rewrite Hw, H1, H2, H3, H4, H5, H6. reflexivity.
Qed.

Lemma parse_value_str (f : nat) (s rest : string) :
  parse_value (S f) (quote s +:+ rest) = Some (JStr s, rest).
Proof.
  unfold quote. rewrite string_cons_app, string_app_assoc. simpl.
  change (String dquote "" +:+ rest) with (String dquote rest).
  now rewrite parse_quote_chars.
Qed.

Lemma parse_value_arr (f : nat) (r : string) :
  parse_value (S f) (String "[" r)
  = match skip_ws r with
    | "" => None
    | String d r' =>
        if Ascii.eqb d "]" then Some (JArr [], r')
        else match parse_elements f r with
             | Some (vs, rest) => Some (JArr vs, rest)
             | None => None
             end
    end.
Proof. reflexivity. Qed.

Lemma parse_value_obj (f : nat) (r : string) :
  parse_value (S f) (String "{" r)
  = match skip_ws r with
    | "" => None
    | String d r' =>
        if Ascii.eqb d "}" then Some (JObj [], r')
        else match parse_members f r with
             | Some (kvs, rest) => Some (JObj kvs, rest)
             | None => None
             end
    end.
Proof. reflexivity. Qed.

Lemma parse_elements_step (f : nat) (s : string) :
  parse_elements (S f) s
  = match parse_value f s with
    | None => None
    | Some (v, r) => after_value (parse_elements f) "]" v r
    end.
Proof. reflexivity. Qed.

Lemma parse_members_step (f : nat) (b k tl : string) :
  blank b = true ->
  parse_members (S f) (b +:+ quote k +:+ String ":" tl)
  = match parse_value f tl with
    | None => None
    | Some (v, r) => after_value (parse_members f) "}" (k, v) r
    end.
Proof.
  intros Hb. unfold quote. rewrite string_cons_app, string_app_assoc.
  change (String dquote "" +:+ String ":" tl) with (String dquote (String ":" tl)).
  simpl. rewrite skip_ws_blank by assumption. simpl.
  rewrite parse_quote_chars. reflexivity.
Qed.

Lemma after_value_comma {A} next closing (x : A) r :
  after_value next closing x (String "," r)
  = match next r with
    | Some (xs, rest) => Some (x :: xs, rest)
    | None => None
    end.
Proof. reflexivity. Qed.

Lemma after_value_close {A} next (closing : ascii) (x : A) gap indent rest :
  blank indent = true -> is_ws closing = false ->
  Ascii.eqb closing "," = false ->
  after_value next closing x (post gap indent +:+ String closing rest)
  = Some ([x], rest).
Proof.
  intros Hi Hw Hc. unfold after_value. rewrite skip_ws_post by assumption.
  now rewrite Hc, Ascii.eqb_refl.
Qed.

(** The text of a value starts with a character that is not white space
    and closes no bracket. *)
Lemma serialize_head (gap indent : string) (v : json) :
  wf_json v ->
  exists h t, serialize gap indent v = String h t
    /\ is_ws h = false /\ Ascii.eqb h "]" = false /\ Ascii.eqb h "}" = false.
Proof.
  intros Hwf. destruct v as [|b|lit|s|items|members].
  - now eexists _, _.
  - destruct b; now eexists _, _.
  - destruct Hwf as [[c [r [-> Hc]]] _].
    destruct (num_head_dispatch c Hc) as (Hw & _ & _ & _ & _ & _ & _ & H7 & H8).
    now exists c, r.
  - now eexists _, _.
  - simpl. unfold wrap. destruct (map _ items); [now eexists _, _|].
    destruct (String.eqb gap ""); now eexists _, _.
  - simpl. unfold wrap. destruct (map _ members); [now eexists _, _|].
    destruct (String.eqb gap ""); now eexists _, _.
Qed.

(** *** The round trip *)

Lemma parse_items (items : list json) :
  Forall parses items -> Forall wf_json items -> items <> [] ->
  forall gap indent f rest,
    blank gap = true -> blank indent = true ->
    (need_items items <= f)%nat ->
    parse_elements f
      (joined (pre gap indent) (map (serialize gap (indent +:+ gap)) items)
         (post gap indent +:+ String "]" rest))
    = Some (items, rest).
Proof.
  induction items as [|x xs IH]; [contradiction|].
  intros Hall Hwf _ gap indent f rest Hg Hi Hf.
  inversion Hall as [|? ? Hx Hxs]; subst.
  inversion Hwf as [|? ? Hwx Hwxs]; subst.
  simpl in Hf. destruct f as [|f]; [lia|].
  assert (Hinner : blank (indent +:+ gap) = true) by now apply blank_app.
  rewrite parse_elements_step.
  change (map (serialize gap (indent +:+ gap)) (x :: xs))
    with (serialize gap (indent +:+ gap) x :: map (serialize gap (indent +:+ gap)) xs).
  destruct xs as [|y ys].
  - change (map (serialize gap (indent +:+ gap)) []) with (@nil string).
    change (joined ?l [?t] ?tl) with (l +:+ t +:+ tl).
    rewrite parse_value_skip by now apply blank_pre.
    rewrite (Hx Hwx) by
      (try assumption; try lia; now apply value_end_post).
    now apply after_value_close.
  - change (joined ?l (?t :: ?ts) ?tl)
      with (l +:+ t +:+ String "," (joined l ts tl)).
    rewrite parse_value_skip by now apply blank_pre.
    rewrite (Hx Hwx) by (try assumption; try lia; reflexivity).
    rewrite after_value_comma.
    rewrite IH; try assumption; try discriminate; [reflexivity | simpl in *; lia].
Qed.

Lemma member_text_eq gap indent k x tl :
  member_text gap indent (k, x) +:+ tl
  = quote k +:+ String ":" (colon_space gap +:+ serialize gap indent x +:+ tl).
Proof.
  unfold member_text, colon_space.
  destruct (String.eqb gap ""); rewrite !string_app_assoc; reflexivity.
Qed.

Lemma blank_colon_space gap : blank (colon_space gap) = true.
Proof. unfold colon_space. now destruct (String.eqb gap ""). Qed.

Lemma parse_members_all (members : list (string * json)) :
  Forall (fun kv => parses (snd kv)) members ->
  Forall (fun kv => wf_json (snd kv)) members -> members <> [] ->
  forall gap indent f rest,
    blank gap = true -> blank indent = true ->
    (need_members members <= f)%nat ->
    parse_members f
      (joined (pre gap indent) (map (member_text gap (indent +:+ gap)) members)
         (post gap indent +:+ String "}" rest))
    = Some (members, rest).
Proof.
  induction members as [|[k x] xs IH]; [contradiction|].
  intros Hall Hwf _ gap indent f rest Hg Hi Hf.
  inversion Hall as [|? ? Hx Hxs]; subst.
  inversion Hwf as [|? ? Hwx Hwxs]; subst.
  simpl in Hx, Hwx.
  simpl in Hf. destruct f as [|f]; [lia|].
  assert (Hinner : blank (indent +:+ gap) = true) by now apply blank_app.
  change (map (member_text gap (indent +:+ gap)) ((k, x) :: xs))
    with (member_text gap (indent +:+ gap) (k, x)
          :: map (member_text gap (indent +:+ gap)) xs).
  destruct xs as [|y ys].
  - change (map (member_text gap (indent +:+ gap)) []) with (@nil string).
    change (joined ?l [?t] ?tl) with (l +:+ t +:+ tl).
    rewrite member_text_eq.
    rewrite parse_members_step by now apply blank_pre.
    rewrite parse_value_skip by apply blank_colon_space.
    rewrite (Hx Hwx) by
      (try assumption; try lia; now apply value_end_post).
    now apply after_value_close.
  - change (joined ?l (?t :: ?ts) ?tl)
      with (l +:+ t +:+ String "," (joined l ts tl)).
    rewrite member_text_eq.
    rewrite parse_members_step by now apply blank_pre.
    rewrite parse_value_skip by apply blank_colon_space.
    rewrite (Hx Hwx) by (try assumption; try lia; reflexivity).
    rewrite after_value_comma.
    rewrite IH; try assumption; try discriminate; [reflexivity | simpl in *; lia].
Qed.

Lemma serialize_obj gap indent members :
  serialize gap indent (JObj members)
  = wrap gap indent "{" "}" (map (member_text gap (indent +:+ gap)) members).
Proof. reflexivity. Qed.

(** Parsing the text of a value gives the value back. *)
Theorem parse_serialize (v : json) : parses v.
Proof.
  induction v as [|b|lit|s|items IH|members IH] using json_nested_ind;
    intros Hwf gap indent fuel rest Hg Hi Hfuel Hrest.
  - destruct fuel; [simpl in Hfuel; lia | reflexivity].
  - destruct fuel; [simpl in Hfuel; lia | destruct b; reflexivity].
  - destruct fuel as [|f]; [simpl in Hfuel; lia|].
    destruct Hwf as [[c [r [-> Hc]]] Hparse]. simpl serialize.
    rewrite string_cons_app, parse_value_num by assumption.
    rewrite <- string_cons_app, Hparse by assumption. reflexivity.
  - destruct fuel as [|f]; [simpl in Hfuel; lia|]. apply parse_value_str.
  - rewrite need_arr in Hfuel. destruct fuel as [|f]; [lia|].
    apply wf_arr in Hwf.
    destruct items as [|x xs]; [reflexivity|].
    change (serialize gap indent (JArr (x :: xs)))
      with (wrap gap indent "[" "]"
              (serialize gap (indent +:+ gap) x
               :: map (serialize gap (indent +:+ gap)) xs)).
    rewrite wrap_joined, parse_value_arr.
    change (serialize gap (indent +:+ gap) x
            :: map (serialize gap (indent +:+ gap)) xs)
      with (map (serialize gap (indent +:+ gap)) (x :: xs)).
    rewrite (parse_items (x :: xs)); try assumption; try discriminate; [|lia].
    inversion Hwf as [|? ? Hwx _]; subst.
    destruct (serialize_head gap (indent +:+ gap) x Hwx) as (h & t & Ht & Hw & Hb & _).
    change (map (serialize gap (indent +:+ gap)) (x :: xs))
      with (serialize gap (indent +:+ gap) x
            :: map (serialize gap (indent +:+ gap)) xs).
    change (joined ?l (?t :: ?ts) ?tl)
      with (l +:+ t +:+ match ts with
                        | [] => tl
                        | _ => String "," (joined l ts tl)
                        end).
    rewrite skip_ws_blank by now apply blank_pre.
    rewrite Ht, string_cons_app, skip_ws_head, Hb by assumption. reflexivity.
  - rewrite need_obj in Hfuel. destruct fuel as [|f]; [lia|].
    apply wf_obj in Hwf.
    destruct members as [|[k x] xs]; [reflexivity|].
    rewrite serialize_obj.
    change (map (member_text gap (indent +:+ gap)) ((k, x) :: xs))
      with (member_text gap (indent +:+ gap) (k, x)
            :: map (member_text gap (indent +:+ gap)) xs).
    rewrite wrap_joined, parse_value_obj.
    change (member_text gap (indent +:+ gap) (k, x)
            :: map (member_text gap (indent +:+ gap)) xs)
      with (map (member_text gap (indent +:+ gap)) ((k, x) :: xs)).
    rewrite (parse_members_all ((k, x) :: xs)); try assumption; try discriminate;
      [|lia].
    change (map (member_text gap (indent +:+ gap)) ((k, x) :: xs))
      with (member_text gap (indent +:+ gap) (k, x)
            :: map (member_text gap (indent +:+ gap)) xs).
    change (joined ?l (?t :: ?ts) ?tl)
      with (l +:+ t +:+ match ts with
                        | [] => tl
                        | _ => String "," (joined l ts tl)
                        end).
    rewrite skip_ws_blank by now apply blank_pre.
    unfold member_text, quote. rewrite !string_cons_app. reflexivity.
Qed.

(** *** The fuel [JSON.parse] gives is enough *)

Lemma joined_length (lead : string) (texts : list string) (tl : string) :
  (1 <= String.length tl)%nat ->
  (sum_len texts <= String.length (joined lead texts tl))%nat.
Proof.
  intros Htl. induction texts as [|x xs IH]; [simpl; lia|].
  change (joined lead (x :: xs) tl)
    with (lead +:+ x +:+ match xs with
                         | [] => tl
                         | _ => String "," (joined lead xs tl)
                         end).
  rewrite !string_app_length. destruct xs as [|y ys].
  - simpl. lia.
  - change (sum_len (x :: y :: ys))
      with (S (String.length x + sum_len (y :: ys))).
    change (String.length (String "," ?j)) with (S (String.length j)). lia.
Qed.

Lemma wrap_length gap indent opening closing texts :
  (S (sum_len texts) <= String.length (wrap gap indent opening closing texts))%nat.
Proof.
  destruct texts as [|x xs]; [simpl; lia|].
  rewrite <- (string_app_nil_r (wrap _ _ _ _ _)), wrap_joined.
  change (String.length (String opening ?j)) with (S (String.length j)).
  apply le_n_S, joined_length.
  rewrite string_app_length. simpl. lia.
Qed.

Lemma need_length (v : json) :
  wf_json v ->
  forall gap indent, (need v <= String.length (serialize gap indent v))%nat.
Proof.
  induction v as [|b|lit|s|items IH|members IH] using json_nested_ind;
    intros Hwf gap indent.
  - simpl. lia.
  - destruct b; simpl; lia.
  - destruct Hwf as [[c [r [-> _]]] _]. simpl. lia.
  - simpl. lia.
  - rewrite need_arr. apply wf_arr in Hwf.
    change (serialize gap indent (JArr items))
      with (wrap gap indent "[" "]" (map (serialize gap (indent +:+ gap)) items)).
    etransitivity; [|apply wrap_length]. apply le_n_S.
    induction items as [|x xs IHl]; [simpl; lia|].
    inversion IH; inversion Hwf; subst. simpl.
    apply le_n_S, Nat.add_le_mono; [auto | now apply IHl].
  - rewrite need_obj, serialize_obj. apply wf_obj in Hwf.
    etransitivity; [|apply wrap_length]. apply le_n_S.
    induction members as [|[k x] xs IHl]; [simpl; lia|].
    inversion IH as [|? ? Hx Hxs]; inversion Hwf as [|? ? Hwx Hwxs]; subst.
    simpl in Hx, Hwx.
    change (need_members ((k, x) :: xs)) with (S (need x + need_members xs)).
    change (sum_len (map (member_text gap (indent +:+ gap)) ((k, x) :: xs)))
      with (S (String.length (member_text gap (indent +:+ gap) (k, x))
               + sum_len (map (member_text gap (indent +:+ gap)) xs))).
    apply le_n_S, Nat.add_le_mono; [|now apply IHl].
    unfold member_text. rewrite !string_app_length.
    specialize (Hx Hwx gap (indent +:+ gap)). lia.
Qed.

(** [JSON.parse(JSON.stringify(v))] and [JSON.parse(JSON.stringify(v, null, 2))]
    are [v]. *)
Theorem parse_serialized (gap : string) (v : json) :
  wf_json v -> blank gap = true -> parse (serialize gap "" v) = Some v.
Proof.
  intros Hwf Hg. unfold parse.
  pose proof (parse_serialize v Hwf gap "" (S (String.length (serialize gap "" v))) ""
                Hg eq_refl) as H.
  rewrite string_app_nil_r in H. rewrite H; [reflexivity| |reflexivity].
  pose proof (need_length v Hwf gap ""). lia.
Qed.

(** *** Records *)

Lemma wf_size (n : N) : wf_number (N_to_string n).
Proof.
  split; [|intros rest Hrest; now apply parse_number_N].
  destruct (N_to_string_shape n) as [-> | [c [d [-> [Hc _]]]]].
  - now exists "0"%char, "".
  - eexists _, _. split; [reflexivity|]. unfold num_head. now rewrite Hc.
Qed.

Lemma wf_records (l : list FileRecord) : wf_json (records_to_json l).
Proof.
  apply wf_arr. induction l as [|r l IH]; constructor; [|exact IH].
  simpl. repeat first [exact I | apply wf_size | split].
Qed.

Lemma json_to_record_of (r : FileRecord) :
  safe_size r -> json_to_record (record_to_json r) = Some r.
Proof.
  intros Hr. unfold record_to_json, json_to_record.
  simpl. rewrite size_of_literal_N by exact Hr. now destruct r.
Qed.

Lemma json_to_records_of (l : list FileRecord) :
  Forall safe_size l -> json_to_records (records_to_json l) = Some l.
Proof.
  intros Hl. unfold json_to_records, records_to_json.
  induction Hl as [|r l Hr Hl IH]; [reflexivity|].
  change (map record_to_json (r :: l)) with (record_to_json r :: map record_to_json l).
  change (json_to_records_list (?x :: ?xs))
    with (match json_to_record x, json_to_records_list xs with
          | Some r, Some rs => Some (r :: rs)
          | _, _ => None
          end).
  now rewrite json_to_record_of, IH.
Qed.

(** Records read from a document have safe sizes and are the document's
    value. *)
Lemma json_to_record_inv (v : json) (r : FileRecord) :
  json_to_record v = Some r -> v = record_to_json r /\ safe_size r.
Proof.
  unfold json_to_record. intros H.
  repeat match type of H with
         | match ?x with _ => _ end = _ => destruct x eqn:?; try discriminate H
         end.
  repeat match goal with
         | E : (_ && _)%bool = true |- _ => apply andb_prop in E as [? ?]
         | E : String.eqb _ _ = true |- _ => apply String.eqb_eq in E
         end.
  injection H as <-. subst.
  match goal with E : size_of_literal _ = Some _ |- _ =>
    apply size_of_literal_inv in E as [-> ?] end.
  split; [reflexivity | assumption].
Qed.

Lemma json_to_records_inv (v : json) (l : list FileRecord) :
  json_to_records v = Some l -> v = records_to_json l /\ Forall safe_size l.
Proof.
  unfold json_to_records, records_to_json. destruct v as [| | | |items|]; try discriminate.
  revert l. induction items as [|x xs IH]; intros l H.
  - injection H as <-. split; [reflexivity | constructor].
  - simpl in H. destruct (json_to_record x) as [r|] eqn:Hx; [|discriminate].
    destruct (json_to_records_list xs) as [rs|] eqn:Hxs; [|discriminate].
    injection H as <-. apply json_to_record_inv in Hx as [-> Hr].
    destruct (IH rs eq_refl) as [Heq Hrs]. injection Heq as ->.
    split; [reflexivity | now constructor].
Qed.

End JSONFacts.

(** ** The metadata store *)

Section StoreFacts.

Variable UPLOAD_DIR : string.

Import JSONText JSONFacts.

Lemma writeFileSync_ok p data w :
  (p ∉ denied w) -> writeFileSync p data w = (Ok tt, written p data w).
Proof. intros H. unfold writeFileSync. now rewrite bool_decide_eq_false_2. Qed.

Lemma writeFileSync_denied p data w :
  (p ∈ denied w) -> writeFileSync p data w = (Throw (SystemError "EACCES"), w).
Proof. intros H. unfold writeFileSync. now rewrite bool_decide_eq_true_2. Qed.

Lemma writeFileSync_inv p data w r w' :
  writeFileSync p data w = (r, w') ->
  (r = Ok tt /\ (p ∉ denied w) /\ w' = written p data w)
  \/ (r = Throw (SystemError "EACCES") /\ (p ∈ denied w) /\ w' = w).
Proof.
  unfold writeFileSync. destruct (bool_decide (p ∈ denied w)) eqn:Hd; intros [= <- <-].
  - right. apply bool_decide_eq_true in Hd. auto.
  - left. apply bool_decide_eq_false in Hd. auto.
Qed.

Lemma parse_document (list : list FileRecord) :
  JSON.parse (document list) = Some (records_to_json list).
Proof. apply parse_serialized; [apply wf_records | reflexivity]. Qed.

Lemma stored_written_meta (list : list FileRecord) (w : World) :
  Forall safe_size list ->
  stored UPLOAD_DIR (written (META_PATH UPLOAD_DIR) (document list) w)
  = Some list.
Proof.
  intros Hl. unfold stored, written. simpl. rewrite lookup_insert_eq.
  rewrite parse_document. now apply json_to_records_of.
Qed.

Lemma stored_inv (w : World) (meta : list FileRecord) :
  stored UPLOAD_DIR w = Some meta ->
  exists raw, files w !! (META_PATH UPLOAD_DIR) = Some raw
    /\ JSON.parse raw = Some (records_to_json meta) /\ Forall safe_size meta.
Proof.
  unfold stored. destruct (files w !! (META_PATH UPLOAD_DIR)) as [raw|]; [|discriminate].
  destruct (JSON.parse raw) as [v|] eqn:Hp; [|discriminate].
  intros H. apply json_to_records_inv in H as [-> Hs]. eauto.
Qed.

Lemma stored_safe (w : World) (meta : list FileRecord) :
  stored UPLOAD_DIR w = Some meta -> Forall safe_size meta.
Proof. intros H. apply stored_inv in H as (? & _ & _ & H). exact H. Qed.

Lemma loadMeta_stored (w : World) (meta : list FileRecord) :
  stored UPLOAD_DIR w = Some meta ->
  loadMeta UPLOAD_DIR w = (Ok (records_to_json meta), w).
Proof.
  intros H. apply stored_inv in H as (raw & Hraw & Hp & _).
  unfold loadMeta, try_catch, bind, readFileSync.
  now rewrite Hraw, Hp.
Qed.

Lemma loadRecords_stored (w : World) (meta : list FileRecord) :
  stored UPLOAD_DIR w = Some meta -> loadRecords UPLOAD_DIR w = (Ok meta, w).
Proof.
  intros H. unfold loadRecords, bind. rewrite (loadMeta_stored _ _ H).
  apply stored_safe in H. now rewrite json_to_records_of.
Qed.

Lemma loadMeta_fails (w : World) :
  load_fails UPLOAD_DIR w ->
  loadMeta UPLOAD_DIR w
  = (exec writeFileSync (META_PATH UPLOAD_DIR) (JSON.stringify (JArr [])) ;;
     ret (JArr [])) w.
Proof.
  unfold load_fails, loadMeta, try_catch, bind, readFileSync, throw.
  destruct (files w !! (META_PATH UPLOAD_DIR)) as [raw|]; [|reflexivity].
  now intros ->.
Qed.

(** C2: for every sequence of records [R] (whose sizes are numbers that
    hold a byte count exactly), [load()] right after a [save(R)] that
    returned gives back [R], and leaves the document as [save] wrote
    it. *)
Theorem C2_load_after_save (R : list FileRecord) (w w' : World) :
  Forall safe_size R ->
  saveMeta UPLOAD_DIR R w = (Ok tt, w') ->
  loadRecords UPLOAD_DIR w' = (Ok R, w')
  /\ loadMeta UPLOAD_DIR w' = (Ok (records_to_json R), w').
Proof.
  intros HR Hsave. unfold saveMeta in Hsave.
  apply writeFileSync_inv in Hsave as [(_ & _ & ->) | (Habs & _)]; [|discriminate].
  pose proof (stored_written_meta R w HR) as Hst.
  split; [now apply loadRecords_stored | now apply loadMeta_stored].
Qed.

(** C3, as the code has it: when reading or parsing the document fails
    and the document can be written, [load()] resets it to the empty
    sequence and returns the empty sequence. *)
Theorem C3_load_resets (w : World) :
  load_fails UPLOAD_DIR w ->
  (META_PATH UPLOAD_DIR ∉ denied w) ->
  let w' := written (META_PATH UPLOAD_DIR) "[]" w in
  loadMeta UPLOAD_DIR w = (Ok (JArr []), w')
  /\ loadRecords UPLOAD_DIR w = (Ok [], w')
  /\ stored UPLOAD_DIR w' = Some [].
Proof.
  intros Hf Hd w'.
  assert (Hl : loadMeta UPLOAD_DIR w = (Ok (JArr []), w')).
  { rewrite loadMeta_fails by assumption. unfold bind.
    change (JSON.stringify (JArr [])) with "[]".
    now rewrite writeFileSync_ok. }
  split; [exact Hl|]. split.
  - unfold loadRecords, bind. now rewrite Hl.
  - unfold stored, w', written. simpl. now rewrite lookup_insert_eq.
Qed.

(** When the reset cannot be written, the error of the write reaches the
    caller of [load()]. *)
Lemma loadMeta_reset_denied (w : World) :
  load_fails UPLOAD_DIR w -> (META_PATH UPLOAD_DIR ∈ denied w) ->
  loadMeta UPLOAD_DIR w = (Throw (SystemError "EACCES"), w).
Proof.
  intros Hf Hd. rewrite loadMeta_fails by assumption. unfold bind.
  now rewrite writeFileSync_denied.
Qed.

(** After startup on a directory without a metadata document the store
    holds the empty sequence. *)
Lemma startup_stored (w : World) :
  files w !! META_PATH UPLOAD_DIR = None ->
  (META_PATH UPLOAD_DIR ∉ denied w) ->
  startup UPLOAD_DIR w = (Ok tt, written (META_PATH UPLOAD_DIR) "[]" w)
  /\ stored UPLOAD_DIR (written (META_PATH UPLOAD_DIR) "[]" w) = Some [].
Proof.
  intros Hnone Hd. split.
  - unfold startup, bind, existsSync. rewrite Hnone.
    rewrite (bool_decide_eq_false_2 (is_Some None)) by (intros [? ?]; discriminate).
    change (JSON.stringify (JArr [])) with "[]". now apply writeFileSync_ok.
  - unfold stored, written. simpl. now rewrite lookup_insert_eq.
Qed.

End StoreFacts.

(** ** Sorting *)

Section SortFacts.
Context {A : Type} (comparefn : A -> A -> option Z) (key : A -> Z).

Lemma sort_insert_perm (x : A) (l : list A) :
  Permutation (sort_insert comparefn x l) (x :: l).
Proof.
  induction l as [|y l IH]; simpl; [reflexivity|].
  destruct (sort_compare comparefn x y <=? 0)%Z; [reflexivity|].
  rewrite IH. apply perm_swap.
Qed.

Lemma js_sort_perm (l : list A) : Permutation (js_sort comparefn l) l.
Proof.
  induction l as [|x l IH]; simpl; [reflexivity|].
  rewrite sort_insert_perm. now constructor.
Qed.

Lemma sort_insert_sorted (x : A) (l : list A) :
  by_key comparefn key (x :: l) ->
  StronglySorted (key_ge key) l -> StronglySorted (key_ge key) (sort_insert comparefn x l).
Proof.
  intros Hk Hs. induction Hs as [|y l Hs IH Hy]; simpl.
  - repeat constructor.
  - assert (Hxy : sort_compare comparefn x y = (key y - key x)%Z)
      by (apply Hk; simpl; auto).
    pose proof (proj1 (List.Forall_forall _ _) Hy) as Hy'.
    destruct (sort_compare comparefn x y <=? 0)%Z eqn:Hc.
    + apply Z.leb_le in Hc. constructor; [now constructor|].
      apply List.Forall_forall. intros z [<- | Hz].
      * unfold key_ge. lia.
      * specialize (Hy' z Hz). unfold key_ge in *. lia.
    + apply Z.leb_gt in Hc. constructor.
      * apply IH. intros a b Ha Hb. apply Hk; simpl in *; tauto.
      * apply List.Forall_forall. intros z Hz.
        apply (Permutation_in _ (sort_insert_perm x l)) in Hz as [<- | Hz].
        -- unfold key_ge. lia.
        -- now apply Hy'.
Qed.

Lemma js_sort_sorted (l : list A) :
  by_key comparefn key l -> StronglySorted (key_ge key) (js_sort comparefn l).
Proof.
  induction l as [|x l IH]; intros Hk; simpl; [constructor|].
  apply sort_insert_sorted.
  - intros a b Ha Hb. apply Hk.
    + destruct Ha as [<- | Ha]; [now left | right].
      now apply (Permutation_in _ (js_sort_perm l)).
    + destruct Hb as [<- | Hb]; [now left | right].
      now apply (Permutation_in _ (js_sort_perm l)).
  - apply IH. intros a b Ha Hb. apply Hk; now right.
Qed.

(** A descending list is the only descending arrangement of its
    elements when their keys differ. *)
Lemma sorted_perm_eq (l1 l2 : list A) :
  StronglySorted (key_ge key) l1 -> StronglySorted (key_gt key) l2 ->
  Permutation l1 l2 -> l1 = l2.
Proof.
  intros H1 H2. revert l1 H1.
  induction H2 as [|b l2 H2 IH Hb]; intros l1 H1 Hp.
  - now apply Permutation_nil, Permutation_sym.
  - destruct l1 as [|a l1];
      [apply Permutation_nil in Hp; discriminate|].
    inversion H1 as [|? ? H1' Ha]; subst.
    rewrite List.Forall_forall in Ha, Hb.
    assert (a = b) as ->.
    { assert (Hin_b : In b (a :: l1))
        by (apply (Permutation_in _ (Permutation_sym Hp)); now left).
      assert (Hin_a : In a (b :: l2))
        by (apply (Permutation_in _ Hp); now left).
      destruct Hin_b as [-> | Hin_b]; [reflexivity|].
      destruct Hin_a as [-> | Hin_a]; [reflexivity|].
      specialize (Ha _ Hin_b). specialize (Hb _ Hin_a).
      unfold key_ge, key_gt in *. lia. }
    f_equal. apply IH; [assumption|]. now apply Permutation_cons_inv in Hp.
Qed.
End SortFacts.

(** ** Lookup, download, delete and listing *)

Lemma findIndex_Some (req_id : string) (meta : list FileRecord) (idx : nat) :
  findIndex req_id meta = Some idx ->
  exists file, meta !! idx = Some file /\ id file = req_id
    /\ getFileInfoById req_id meta = Some file.
Proof.
  revert idx. induction meta as [|f meta IH]; intros idx; simpl; [discriminate|].
  destruct (String.eqb (id f) req_id) eqn:He.
  - intros [= <-]. apply String.eqb_eq in He. now exists f.
  - destruct (findIndex req_id meta) as [i|]; [|discriminate].
    intros [= <-]. destruct (IH i eq_refl) as (file & ? & ? & ?). now exists file.
Qed.

Lemma findIndex_None (req_id : string) (meta : list FileRecord) :
  findIndex req_id meta = None <-> getFileInfoById req_id meta = None.
Proof.
  induction meta as [|f meta IH]; simpl; [tauto|].
  destruct (String.eqb (id f) req_id); [split; discriminate|].
  rewrite <- IH. destruct (findIndex req_id meta); simpl; split; congruence.
Qed.

Lemma getFileInfoById_Some (req_id : string) (meta : list FileRecord) file :
  getFileInfoById req_id meta = Some file ->
  exists idx, findIndex req_id meta = Some idx /\ meta !! idx = Some file.
Proof.
  intros H. destruct (findIndex req_id meta) as [idx|] eqn:Hi.
  - exists idx. split; [reflexivity|].
    destruct (findIndex_Some _ _ _ Hi) as (f & Hf & _ & Hg). congruence.
  - apply findIndex_None in Hi. congruence.
Qed.

Lemma getFileInfoById_None (req_id : string) (meta : list FileRecord) :
  getFileInfoById req_id meta = None <-> ~ In req_id (map id meta).
Proof.
  induction meta as [|f meta IH]; simpl; [tauto|].
  destruct (String.eqb (id f) req_id) eqn:He.
  - apply String.eqb_eq in He. split; [discriminate | tauto].
  - apply String.eqb_neq in He. rewrite IH. tauto.
Qed.

(** With unique identifiers, the record spliced out was the only one
    with its identifier. *)
Lemma getFileInfoById_deleted (req_id : string) (meta : list FileRecord) idx :
  NoDup (map id meta) -> findIndex req_id meta = Some idx ->
  getFileInfoById req_id (delete idx meta) = None.
Proof.
  revert idx. induction meta as [|f meta IH]; intros idx Hnd; simpl; [discriminate|].
  apply NoDup_cons in Hnd as [Hf Hnd].
  destruct (String.eqb (id f) req_id) eqn:He.
  - intros [= <-]. simpl. apply String.eqb_eq in He. subst.
    apply getFileInfoById_None. now rewrite <- list_elem_of_In.
  - destruct (findIndex req_id meta) as [i|] eqn:Hi; [|discriminate].
    intros [= <-]. simpl. rewrite He. now apply IH.
Qed.

(** Splicing a record out keeps the identifiers of the store unique. *)
Lemma unique_ids_deleted (meta : list FileRecord) (idx : nat) :
  NoDup (map id meta) -> NoDup (map id (delete idx meta)).
Proof.
  revert idx. induction meta as [|f meta IH]; intros idx Hnd; [exact Hnd|].
  apply NoDup_cons in Hnd as [Hf Hnd]. destruct idx as [|idx]; [exact Hnd|].
  simpl. apply NoDup_cons. split; [|now apply IH].
  rewrite list_elem_of_In in *. intros Hin. apply Hf.
  apply List.in_map_iff in Hin as (r & <- & Hr). apply in_map.
  rewrite <- list_elem_of_In in *. now apply (list_elem_of_delete_inv _ idx).
Qed.

Lemma elem_of_deleted (req_id : string) (meta : list FileRecord) idx r :
  NoDup (map id meta) -> findIndex req_id meta = Some idx ->
  In r (delete idx meta) <-> In r meta /\ id r <> req_id.
Proof.
  revert idx. induction meta as [|f meta IH]; intros idx Hnd; simpl; [discriminate|].
  apply NoDup_cons in Hnd as [Hf Hnd]. rewrite list_elem_of_In in Hf.
  destruct (String.eqb (id f) req_id) eqn:He.
  - intros [= <-]. simpl. apply String.eqb_eq in He. subst. split.
    + intros Hr. split; [now right|]. intros Heq. apply Hf. rewrite <- Heq.
      now apply in_map.
    + intros [[<- | Hr] Hne]; [contradiction | assumption].
  - destruct (findIndex req_id meta) as [i|] eqn:Hi; [|discriminate].
    intros [= <-]. simpl. rewrite (IH i Hnd eq_refl).
    apply String.eqb_neq in He. split.
    + intros [<- | [Hr Hne]]; auto.
    + intros [[<- | Hr] Hne]; auto.
Qed.

Section HandlerFacts.

Variable UPLOAD_DIR : string.
Variable Date_value : string -> option Z.

Import JSONText JSONFacts.

(** Every outcome of DELETE on a store that holds [meta]. *)
Lemma delete_file_cases (w : World) (meta : list FileRecord) (req_id : string) :
  stored UPLOAD_DIR w = Some meta ->
  match findIndex req_id meta with
  | None => delete_file UPLOAD_DIR req_id w = (Responded not_found, w)
  | Some idx =>
      exists file, meta !! idx = Some file /\
        let abs := Path.join UPLOAD_DIR (storedName file) in
        delete_file UPLOAD_DIR req_id w
        = if bool_decide (is_Some (files w !! abs)) && bool_decide (abs ∈ denied w)
          then (Responded delete_failed, w)
          else if bool_decide (META_PATH UPLOAD_DIR ∈ denied w)
          then (Responded delete_failed, unlinked abs w)
          else (Responded ok_response,
                written (META_PATH UPLOAD_DIR) (document (delete idx meta))
                  (unlinked abs w))
  end.
Proof.
  intros Hst.
  assert (Hrun : delete_file UPLOAD_DIR req_id w
                 = run (match findIndex req_id meta with
                        | Some idx =>
                            match meta !! idx with
                            | Some file =>
                                let abs := Path.join UPLOAD_DIR (storedName file) in
                                try_catch
                                  (let* present := existsSync abs in
                                   exec (if present then unlink abs else ret tt) ;;
                                   exec saveMeta UPLOAD_DIR (delete idx meta) ;;
                                   ret ok_response)
                                  (fun _ => ret delete_failed)
                            | None => ret not_found
                            end
                        | None => ret not_found
                        end) w).
  { unfold delete_file, run, delete_handler. unfold bind at 1.
    now rewrite (loadRecords_stored _ _ _ Hst). }
  rewrite Hrun. clear Hrun.
  destruct (findIndex req_id meta) as [idx|] eqn:Hi; [|reflexivity].
  destruct (findIndex_Some _ _ _ Hi) as (file & Hf & _ & _).
  exists file. split; [exact Hf|]. rewrite Hf. cbv zeta.
  unfold run, try_catch, bind, existsSync, unlink, saveMeta, writeFileSync, ret.
  destruct (files w !! Path.join UPLOAD_DIR (storedName file)) as [data|] eqn:Hfile.
  - rewrite (bool_decide_eq_true_2 (is_Some (Some data))) by eauto. simpl.
    destruct (bool_decide (Path.join UPLOAD_DIR (storedName file) ∈ denied w));
      simpl; [reflexivity|]. rewrite Hfile. simpl.
    destruct (bool_decide (META_PATH UPLOAD_DIR ∈ denied w)); reflexivity.
  - rewrite (bool_decide_eq_false_2 (is_Some None)) by (intros [? ?]; discriminate).
    simpl.
    assert (Hsame : unlinked (Path.join UPLOAD_DIR (storedName file)) w = w).
    { unfold unlinked, set_files. rewrite delete_id by assumption. now destruct w. }
    rewrite Hsame.
    destruct (bool_decide (META_PATH UPLOAD_DIR ∈ denied w)); reflexivity.
Qed.

(** C4: DELETE on a stored identifier removes the backing file if it is
    there, splices the record out, rewrites the document and answers
    200; on an unknown identifier it answers 404 and changes nothing;
    so a second DELETE of the same identifier answers 404 and changes
    nothing.  (The first part holds when no file operation fails; the
    last uses that identifiers are unique in the store.) *)
Theorem C4_delete (w : World) (meta : list FileRecord) (req_id : string) :
  stored UPLOAD_DIR w = Some meta ->
  (getFileInfoById req_id meta = None ->
     delete_file UPLOAD_DIR req_id w = (Responded not_found, w))
  /\ (forall file,
        getFileInfoById req_id meta = Some file ->
        let abs := Path.join UPLOAD_DIR (storedName file) in
        (files w !! abs = None \/ (abs ∉ denied w)) ->
        (META_PATH UPLOAD_DIR ∉ denied w) ->
        exists idx w',
          findIndex req_id meta = Some idx /\ meta !! idx = Some file
          /\ delete_file UPLOAD_DIR req_id w = (Responded ok_response, w')
          /\ files w'
             = <[META_PATH UPLOAD_DIR := document (delete idx meta)]>
                 (delete abs (files w))
          /\ stored UPLOAD_DIR w' = Some (delete idx meta)
          /\ (NoDup (map id meta) ->
              getFileInfoById req_id (delete idx meta) = None
              /\ delete_file UPLOAD_DIR req_id w' = (Responded not_found, w'))).
Proof.
  intros Hst. pose proof (delete_file_cases w meta req_id Hst) as Hc.
  split.
  - intros Hnone. apply findIndex_None in Hnone. now rewrite Hnone in Hc.
  - intros file Hsome abs Hunlink Hmeta.
    destruct (getFileInfoById_Some _ _ _ Hsome) as (idx & Hi & Hf).
    rewrite Hi in Hc. destruct Hc as (file' & Hf' & Hc).
    assert (file' = file) as -> by congruence. cbv zeta in Hc. fold abs in Hc.
    assert (Hguard : bool_decide (is_Some (files w !! abs))
                     && bool_decide (abs ∈ denied w) = false).
    { destruct Hunlink as [-> | Hd].
      - rewrite (bool_decide_eq_false_2 (is_Some None)); [reflexivity|].
        intros [? ?]; discriminate.
      - rewrite (bool_decide_eq_false_2 (abs ∈ denied w)) by assumption.
        apply andb_false_r. }
    rewrite Hguard, (bool_decide_eq_false_2 _ Hmeta) in Hc.
    set (w' := written (META_PATH UPLOAD_DIR) (document (delete idx meta))
                 (unlinked abs w)) in *.
    assert (Hst' : stored UPLOAD_DIR w' = Some (delete idx meta)).
    { apply stored_written_meta. apply Forall_delete. now apply (stored_safe UPLOAD_DIR w). }
    exists idx, w'. repeat split; try assumption.
    + now apply getFileInfoById_deleted.
    + pose proof (delete_file_cases w' _ req_id Hst') as Hc'.
      assert (Hgone : findIndex req_id (delete idx meta) = None)
        by (apply findIndex_None; now apply getFileInfoById_deleted).
      now rewrite Hgone in Hc'.
Qed.

(** C9: when the backing file is there and unlinking it fails, DELETE
    answers 500 and the world, the metadata document included, is as it
    was before the request. *)
Theorem C9_delete_unlink_failure (w : World) (meta : list FileRecord)
    (req_id : string) (file : FileRecord) :
  stored UPLOAD_DIR w = Some meta ->
  getFileInfoById req_id meta = Some file ->
  let abs := Path.join UPLOAD_DIR (storedName file) in
  is_Some (files w !! abs) ->
  (abs ∈ denied w) ->
  unlink abs w = (Throw (SystemError "EACCES"), w)
  /\ delete_file UPLOAD_DIR req_id w = (Responded delete_failed, w).
Proof.
  intros Hst Hsome abs Hfile Hd.
  split; [unfold unlink; now rewrite bool_decide_eq_true_2|].
  pose proof (delete_file_cases w meta req_id Hst) as Hc.
  destruct (getFileInfoById_Some _ _ _ Hsome) as (idx & Hi & Hf).
  rewrite Hi in Hc. destruct Hc as (file' & Hf' & Hc).
  assert (file' = file) as -> by congruence. cbv zeta in Hc. fold abs in Hc.
  rewrite (bool_decide_eq_true_2 _ Hfile), (bool_decide_eq_true_2 _ Hd) in Hc.
  exact Hc.
Qed.

Lemma get_download_cases (w : World) (meta : list FileRecord) (req_id : string) :
  stored UPLOAD_DIR w = Some meta ->
  get_download UPLOAD_DIR req_id w
  = match getFileInfoById req_id meta with
    | None => (Responded not_found, w)
    | Some file =>
        match files w !! Path.join UPLOAD_DIR (storedName file) with
        | None => (Responded missing_on_disk, w)
        | Some data => (Responded (download_response file data), w)
        end
    end.
Proof.
  intros Hst. unfold get_download, run, download_handler. unfold bind at 1.
  rewrite (loadRecords_stored _ _ _ Hst).
  destruct (getFileInfoById req_id meta) as [file|]; [|reflexivity].
  cbv zeta. unfold bind, existsSync, readFileSync.
  destruct (files w !! Path.join UPLOAD_DIR (storedName file)) as [data|] eqn:Hfile.
  - rewrite (bool_decide_eq_true_2 (is_Some (Some data))) by eauto. simpl.
    now rewrite Hfile.
  - now rewrite (bool_decide_eq_false_2 (is_Some None)) by (intros [? ?]; discriminate).
Qed.

(** C7: the download route answers 404 when the store has no record
    with the identifier, in particular once a DELETE of it has
    succeeded, and 404 when the record is there but its file is not;
    otherwise it streams the file with the stored mime as Content-Type
    and an attachment Content-Disposition that carries
    [encodeURIComponent] of the original name. *)
Theorem C7_download (w : World) (meta : list FileRecord) (req_id : string) :
  stored UPLOAD_DIR w = Some meta ->
  (getFileInfoById req_id meta = None ->
     get_download UPLOAD_DIR req_id w = (Responded not_found, w)
     /\ status not_found = 404%Z)
  /\ (forall file,
        getFileInfoById req_id meta = Some file ->
        files w !! Path.join UPLOAD_DIR (storedName file) = None ->
        get_download UPLOAD_DIR req_id w = (Responded missing_on_disk, w)
        /\ status missing_on_disk = 404%Z)
  /\ (forall file data,
        getFileInfoById req_id meta = Some file ->
        files w !! Path.join UPLOAD_DIR (storedName file) = Some data ->
        get_download UPLOAD_DIR req_id w
        = (Responded
             (mkResponse 200
                [("Content-Type", mime file);
                 ("Content-Disposition",
                  "attachment; filename=" +:+ String dquote ""
                    +:+ encodeURIComponent (originalName file)
                    +:+ String dquote "")]
                (BStream data)), w))
  /\ (forall w',
        NoDup (map id meta) ->
        delete_file UPLOAD_DIR req_id w = (Responded ok_response, w') ->
        get_download UPLOAD_DIR req_id w' = (Responded not_found, w')).
Proof.
  intros Hst. pose proof (get_download_cases w meta req_id Hst) as Hc.
  split; [|split; [|split]].
  - intros Hnone. split; [|reflexivity]. now rewrite Hnone in Hc.
  - intros file Hsome Hfile. split; [|reflexivity]. now rewrite Hsome, Hfile in Hc.
  - intros file data Hsome Hfile. now rewrite Hsome, Hfile in Hc.
  - intros w' Hnd Hdel.
    pose proof (delete_file_cases w meta req_id Hst) as Hd.
    destruct (findIndex req_id meta) as [idx|] eqn:Hi.
    + destruct Hd as (file & Hf & Hd). cbv zeta in Hd. rewrite Hd in Hdel.
      destruct (bool_decide _ && bool_decide _); [discriminate|].
      destruct (bool_decide _); [discriminate|].
      injection Hdel as <-.
      assert (Hst' : stored UPLOAD_DIR
                       (written (META_PATH UPLOAD_DIR) (document (delete idx meta))
                          (unlinked (Path.join UPLOAD_DIR (storedName file)) w))
                     = Some (delete idx meta)).
      { apply stored_written_meta, Forall_delete. now apply (stored_safe UPLOAD_DIR w). }
      rewrite (get_download_cases _ _ req_id Hst').
      now rewrite (getFileInfoById_deleted _ _ _ Hnd Hi).
    + rewrite Hd in Hdel. discriminate.
Qed.

Lemma newest_first_by_key (meta : list FileRecord) :
  Forall (valid_time Date_value) meta ->
  by_key (newest_first Date_value) (time_of Date_value) meta.
Proof.
  intros Hv x y Hx Hy. rewrite List.Forall_forall in Hv.
  destruct (Hv x Hx) as [tx Htx], (Hv y Hy) as [ty Hty].
  unfold sort_compare, newest_first, time_of. now rewrite Htx, Hty.
Qed.

Lemma sorted_not_older (l : list FileRecord) :
  Forall (valid_time Date_value) l ->
  StronglySorted (key_ge (time_of Date_value)) l ->
  StronglySorted (not_older Date_value) l.
Proof.
  intros Hv Hs. induction Hs as [|a l Hs IH Ha]; [constructor|].
  inversion Hv as [|? ? Hva Hvl]; subst. constructor; [now apply IH|].
  rewrite List.Forall_forall in *. intros b Hb.
  destruct Hva as [ta Hta], (Hvl b Hb) as [tb Htb].
  specialize (Ha b Hb). unfold key_ge, time_of in Ha. rewrite Hta, Htb in Ha.
  now exists ta, tb.
Qed.

Lemma get_files_stored (w : World) (meta : list FileRecord) :
  stored UPLOAD_DIR w = Some meta ->
  get_files UPLOAD_DIR Date_value w
  = (Responded
       (json_response 200
          (JObj [("files",
                  records_to_json (js_sort (newest_first Date_value) meta))])),
     w).
Proof.
  intros Hst. unfold get_files, run, list_handler, bind.
  now rewrite (loadRecords_stored _ _ _ Hst).
Qed.

(** C5: on a store whose records carry valid time stamps, the listing
    answers 200 with all the records of the store, most recent first and
    without touching the store; three records with times T1 < T2 < T3
    are listed in the order T3, T2, T1. *)
Theorem C5_listing_newest_first (w : World) (meta : list FileRecord) :
  stored UPLOAD_DIR w = Some meta ->
  Forall (valid_time Date_value) meta ->
  exists listing,
    get_files UPLOAD_DIR Date_value w
    = (Responded
         (json_response 200 (JObj [("files", records_to_json listing)])), w)
    /\ Permutation listing meta
    /\ StronglySorted (not_older Date_value) listing
    /\ (forall r1 r2 r3 T1 T2 T3,
          Permutation meta [r1; r2; r3] ->
          Date_value (uploadedAt r1) = Some T1 ->
          Date_value (uploadedAt r2) = Some T2 ->
          Date_value (uploadedAt r3) = Some T3 ->
          (T1 < T2 < T3)%Z ->
          listing = [r3; r2; r1]).
Proof.
  intros Hst Hv. exists (js_sort (newest_first Date_value) meta).
  pose proof (js_sort_perm (newest_first Date_value) meta) as Hperm.
  pose proof (js_sort_sorted _ _ _ (newest_first_by_key meta Hv)) as Hsorted.
  split; [now apply get_files_stored|]. split; [exact Hperm|]. split.
  - apply sorted_not_older; [|exact Hsorted].
    rewrite List.Forall_forall in *. intros r Hr. apply Hv.
    now apply (Permutation_in _ Hperm).
  - intros r1 r2 r3 T1 T2 T3 Hm H1 H2 H3 HT.
    apply (sorted_perm_eq (time_of Date_value)); [exact Hsorted| |].
    + repeat constructor; unfold key_gt, time_of;
        rewrite ?H1, ?H2, ?H3; simpl; lia.
    + rewrite Hperm, Hm.
      change [r3; r2; r1] with (rev [r1; r2; r3]). apply Permutation_rev.
Qed.

End HandlerFacts.

(** ** Upload *)

Section UploadFacts.

Variable UPLOAD_DIR : string.
Variable MAX_FILE_SIZE : N.
Variable random_bits : nat -> N.
Variable clock : nat -> string.
Variable mime_lookup : string -> option string.

Import JSONText JSONFacts NameFacts.

Lemma multer_parts_cons filesLeft wr p rest w :
  multer_parts UPLOAD_DIR MAX_FILE_SIZE random_bits filesLeft wr (p :: rest) w
  = if negb (String.eqb (fieldname p) "files") || (filesLeft =? 0)%nat then
      (Throw (MulterError "LIMIT_UNEXPECTED_FILE"), remove_uploaded wr w)
    else
      let d := dest UPLOAD_DIR random_bits (uuid_calls w) p in
      if (MAX_FILE_SIZE <? part_size p)%N then
        (Throw (MulterError "LIMIT_FILE_SIZE"), remove_uploaded (d :: wr) (drawn w))
      else if bool_decide (d ∈ denied w) then
        (Throw (SystemError "EACCES"), remove_uploaded (d :: wr) (drawn w))
      else
        match multer_parts UPLOAD_DIR MAX_FILE_SIZE random_bits
                (pred filesLeft) (d :: wr) rest
                (written d (part_data p) (drawn w)) with
        | (Ok fs, w') =>
            (Ok (mkFile (part_filename p) (part_type p)
                   (stored_name random_bits (uuid_calls w) p) (part_size p) :: fs), w')
        | (Throw e, w') => (Throw e, w')
        | (Unmodelled, w') => (Unmodelled, w')
        end.
Proof.
  simpl. destruct (negb (String.eqb (fieldname p) "files") || (filesLeft =? 0)%nat);
    [reflexivity|].
  unfold bind at 1. unfold uuidv4 at 1. fold (drawn w). fold (uuid_at random_bits (uuid_calls w)).
  fold (stored_name random_bits (uuid_calls w) p). fold (dest UPLOAD_DIR random_bits (uuid_calls w) p). fold (part_size p).
  cbv zeta. destruct (MAX_FILE_SIZE <? part_size p)%N; [reflexivity|].
  unfold bind at 1, try_catch, writeFileSync. simpl denied.
  destruct (bool_decide (dest UPLOAD_DIR random_bits (uuid_calls w) p ∈ denied w)); [reflexivity|].
  unfold bind, ret. reflexivity.
Qed.

Lemma join_inj (d a b : string) : Path.join d a = Path.join d b -> a = b.
Proof.
  unfold Path.join. intros H. apply string_app_inv_head in H.
  now apply (string_app_inv_head "/") in H.
Qed.

Lemma dest_not_meta (k : nat) (p : Part) :
  dest UPLOAD_DIR random_bits k p <> META_PATH UPLOAD_DIR.
Proof.
  intros H. apply join_inj in H. now apply stored_name_not_metadata in H.
Qed.

Lemma remove_uploaded_lookup (wr : list string) (w : World) (q : string) :
  ~ In q wr -> files (remove_uploaded wr w) !! q = files w !! q.
Proof.
  unfold remove_uploaded. simpl. induction wr as [|p wr IH]; intros Hq; [reflexivity|].
  simpl. destruct (bool_decide (p ∈ denied w)).
  - apply IH. intros Hin. apply Hq. now right.
  - rewrite lookup_delete_ne by (intros ->; apply Hq; now left).
    apply IH. intros Hin. apply Hq. now right.
Qed.

(** Multer touches neither the metadata document nor the clock, and
    never meets a value it cannot handle. *)
Lemma multer_parts_frame (parts : list Part) :
  forall filesLeft wr w res w',
    (forall q, In q wr -> q <> META_PATH UPLOAD_DIR) ->
    multer_parts UPLOAD_DIR MAX_FILE_SIZE random_bits filesLeft wr parts w
    = (res, w') ->
    denied w' = denied w /\ clock_reads w' = clock_reads w
    /\ files w' !! META_PATH UPLOAD_DIR = files w !! META_PATH UPLOAD_DIR
    /\ res <> Unmodelled.
Proof.
  induction parts as [|p rest IH]; intros filesLeft wr w res w' Hwr.
  - intros [= <- <-]. repeat split. discriminate.
  - rewrite multer_parts_cons.
    assert (Hwr' : forall q, In q (dest UPLOAD_DIR random_bits (uuid_calls w) p :: wr) ->
                             q <> META_PATH UPLOAD_DIR).
    { intros q [<- | Hq]; [apply dest_not_meta | now apply Hwr]. }
    destruct (negb _ || _).
    { intros [= <- <-]. repeat split; [|discriminate].
      apply remove_uploaded_lookup. intros Hin. now apply (Hwr _ Hin). }
    cbv zeta. destruct (MAX_FILE_SIZE <? part_size p)%N.
    { intros [= <- <-]. repeat split; [|discriminate].
      rewrite remove_uploaded_lookup; [reflexivity|].
      intros Hin. now apply (Hwr' _ Hin). }
    destruct (bool_decide _).
    { intros [= <- <-]. repeat split; [|discriminate].
      rewrite remove_uploaded_lookup; [reflexivity|].
      intros Hin. now apply (Hwr' _ Hin). }
    destruct (multer_parts _ _ _ _ _ rest _) as [r w1] eqn:Hrec.
    apply IH in Hrec as (Hd & Hc & Hf & Hu); [|exact Hwr'].
    simpl in Hd, Hc, Hf. rewrite lookup_insert_ne in Hf by apply dest_not_meta.
    destruct r; intros [= <- <-]; repeat split; try assumption; try discriminate.
Qed.

(** A request with a part over the limit never reaches the route
    handler: the middleware passes an error on. *)
Lemma multer_parts_oversize (parts : list Part) :
  Exists (oversize MAX_FILE_SIZE) parts ->
  forall filesLeft wr w,
  exists e w',
    multer_parts UPLOAD_DIR MAX_FILE_SIZE random_bits filesLeft wr parts w
    = (Throw e, w').
Proof.
  induction parts as [|p rest IH]; intros Hex filesLeft wr w.
  - inversion Hex.
  - rewrite multer_parts_cons. destruct (negb _ || _); [now eexists _, _|].
    cbv zeta. destruct (MAX_FILE_SIZE <? part_size p)%N eqn:Hsz; [now eexists _, _|].
    destruct (bool_decide _); [now eexists _, _|].
    assert (Hrest : Exists (oversize MAX_FILE_SIZE) rest).
    { inversion Hex as [? ? Hp | ? ? Hr]; subst; [|exact Hr].
      apply N.ltb_ge in Hsz. unfold oversize in Hp. lia. }
    destruct (IH Hrest (pred filesLeft) (dest UPLOAD_DIR random_bits (uuid_calls w) p :: wr)
                (written (dest UPLOAD_DIR random_bits (uuid_calls w) p) (part_data p) (drawn w)))
      as (e & w' & ->).
    now eexists _, _.
Qed.

(** What Multer hands to the route when it lets a request through. *)
Lemma multer_parts_inv (parts : list Part) :
  forall filesLeft wr w fls w',
    multer_parts UPLOAD_DIR MAX_FILE_SIZE random_bits filesLeft wr parts w
    = (Ok fls, w') ->
    fls = multer_result random_bits (uuid_calls w) parts
    /\ Forall (accepted MAX_FILE_SIZE) parts /\ (length parts <= filesLeft)%nat
    /\ uuid_calls w' = (uuid_calls w + length parts)%nat
    /\ files w'
       = disk_after UPLOAD_DIR random_bits (uuid_calls w) parts (files w).
Proof.
  induction parts as [|p rest IH]; intros filesLeft wr w fls w'.
  - intros [= <- <-]. repeat split; [constructor | simpl; lia | simpl; lia].
  - rewrite multer_parts_cons.
    destruct (negb (String.eqb (fieldname p) "files")) eqn:Hfield; [discriminate|].
    destruct (filesLeft =? 0)%nat eqn:Hleft; [discriminate|]. simpl orb. cbv iota.
    cbv zeta. destruct (MAX_FILE_SIZE <? part_size p)%N eqn:Hsz; [discriminate|].
    destruct (bool_decide _); [discriminate|].
    destruct (multer_parts _ _ _ _ _ rest _) as [r w1] eqn:Hrec.
    destruct r as [fs|e|]; try discriminate. intros [= <- <-].
    apply IH in Hrec as (-> & Hacc & Hlen & Hcalls & Hdisk).
    apply negb_false_iff, String.eqb_eq in Hfield.
    apply Nat.eqb_neq in Hleft. apply N.ltb_ge in Hsz.
    simpl in *. repeat split; try assumption; try lia.
    constructor; [now split | assumption].
Qed.


(** *** The route handler *)

Lemma push_records_eq now fls meta saved :
  push_records mime_lookup now fls meta saved
  = (meta ++ map (new_record mime_lookup now) fls,
     saved ++ map (new_record mime_lookup now) fls).
Proof.
  revert meta saved. induction fls as [|f fls IH]; intros meta saved; simpl.
  - now rewrite !app_nil_r.
  - rewrite IH, <- !app_assoc. reflexivity.
Qed.

(** [load()] leaves the clock, the generator and the access rights
    alone, and the only error it lets through is that of its own
    write. *)
Lemma loadRecords_frame (w : World) r w' :
  loadRecords UPLOAD_DIR w = (r, w') ->
  clock_reads w' = clock_reads w /\ uuid_calls w' = uuid_calls w
  /\ denied w' = denied w
  /\ (forall e, r = Throw e -> e = SystemError "EACCES").
Proof.
  unfold loadRecords, bind, loadMeta, try_catch, bind, readFileSync, throw,
    writeFileSync, ret.
  destruct (files w !! META_PATH UPLOAD_DIR) as [raw|].
  - destruct (JSON.parse raw) as [v|].
    + destruct (json_to_records v); intros [= <- <-]; repeat split; discriminate.
    + destruct (bool_decide _); simpl; intros [= <- <-]; repeat split;
        intros e [= <-]; reflexivity.
  - destruct (bool_decide _); simpl; intros [= <- <-]; repeat split;
      intros e [= <-]; reflexivity.
Qed.

(** Every way the route handler can end. *)
Lemma upload_handler_outcomes (fls : list MulterFile) (w : World) res w' :
  upload_handler UPLOAD_DIR MAX_FILE_SIZE clock mime_lookup fls w = (res, w') ->
  res = Unmodelled
  \/ res = Ok upload_failed
  \/ exists meta w1,
       loadRecords UPLOAD_DIR w = (Ok meta, w1)
       /\ (META_PATH UPLOAD_DIR ∉ denied w)
       /\ res = Ok (created (new_records clock mime_lookup w fls))
       /\ w' = written (META_PATH UPLOAD_DIR)
                 (document (meta ++ new_records clock mime_lookup w fls)) (ticked w1).
Proof.
  unfold upload_handler, try_catch. unfold bind at 1.
  destruct (loadRecords UPLOAD_DIR w) as [r w1] eqn:Hl.
  destruct (loadRecords_frame _ _ _ Hl) as (Hclock & _ & Hden & Herr).
  destruct r as [meta|e|].
  - unfold bind at 1, now_toISOString. rewrite push_records_eq. cbv iota beta.
    unfold bind, saveMeta, writeFileSync, ret. simpl denied. rewrite Hden.
    destruct (bool_decide (META_PATH UPLOAD_DIR ∈ denied w)) eqn:Hd.
    + rewrite bool_decide_eq_false_2 by discriminate.
      intros [= <- <-]. right. now left.
    + intros [= <- <-]. right. right. exists meta, w1.
      apply bool_decide_eq_false in Hd. unfold new_records. rewrite <- Hclock.
      repeat split; [exact Hd|].
      unfold written, ticked, set_files, document. simpl. now rewrite Hden.
  - rewrite (Herr e eq_refl).
    rewrite bool_decide_eq_false_2 by discriminate.
    intros [= <- <-]. right. now left.
  - intros [= <- <-]. now left.
Qed.

(** The upload route never answers 400: no error raised inside the
    [try] block carries the code the [catch] block tests for. *)
Lemma upload_never_400 (parts : list Part) (w : World) resp w' :
  post_upload UPLOAD_DIR MAX_FILE_SIZE random_bits clock mime_lookup parts w
  = (Responded resp, w') ->
  status resp <> 400%Z.
Proof.
  unfold post_upload, upload_array.
  destruct (multer_parts _ _ _ _ _ parts w) as [[fls|e|] w1].
  - unfold run.
    destruct (upload_handler _ _ _ _ fls w1) as [res w2] eqn:Hh.
    destruct (upload_handler_outcomes _ _ _ _ Hh) as [-> | [-> | (? & ? & _ & _ & -> & _)]];
      [discriminate | |]; intros [= <- <-]; discriminate.
  - intros [= <- <-]. discriminate.
  - discriminate.
Qed.

(** C1, as the code has it: a request with a part larger than the limit
    is answered by Express's default error handler with status 500, not
    by the 400 branch of the route's [catch]; the metadata document is
    left as it was. *)
Theorem C1_oversize_upload_answers_500 (parts : list Part) (w : World) :
  Exists (oversize MAX_FILE_SIZE) parts ->
  exists resp w',
    post_upload UPLOAD_DIR MAX_FILE_SIZE random_bits clock mime_lookup parts w
    = (Responded resp, w')
    /\ status resp = 500%Z
    /\ files w' !! META_PATH UPLOAD_DIR = files w !! META_PATH UPLOAD_DIR
    /\ stored UPLOAD_DIR w' = stored UPLOAD_DIR w.
Proof.
  intros Hex. unfold post_upload, upload_array.
  destruct (multer_parts_oversize parts Hex 10%nat [] w) as (e & w' & Hm).
  rewrite Hm. exists (default_error_handler e), w'.
  destruct (multer_parts_frame parts 10%nat [] w _ _ (fun q (H : In q []) => match H with end) Hm)
    as (_ & _ & Hf & _).
  repeat split; [exact Hf|]. unfold stored. now rewrite Hf.
Qed.

(** *** The records of a request *)

Lemma multer_result_length (k : nat) (parts : list Part) :
  length (multer_result random_bits k parts) = length parts.
Proof. revert k. induction parts as [|p rest IH]; intros k; simpl; [reflexivity|]. now rewrite IH. Qed.

Lemma multer_result_lookup (parts : list Part) :
  forall (k i : nat) (p : Part),
    parts !! i = Some p ->
    multer_result random_bits k parts !! i
    = Some (mkFile (part_filename p) (part_type p) (stored_name random_bits (k + i) p)
              (part_size p)).
Proof.
  induction parts as [|q rest IH]; intros k i p; [discriminate|].
  destruct i as [|i]; simpl.
  - intros [= ->]. now rewrite Nat.add_0_r.
  - intros H. rewrite (IH (S k) i p H). now rewrite Nat.add_succ_r.
Qed.

Lemma new_record_id now (k : nat) (p : Part) (f : MulterFile) :
  f_filename f = stored_name random_bits k p ->
  id (new_record mime_lookup now f) = uuid_at random_bits k.
Proof. intros H. simpl. rewrite H. apply parse_name_stored. Qed.

Lemma new_records_ids now (k : nat) (parts : list Part) :
  map id (map (new_record mime_lookup now) (multer_result random_bits k parts))
  = map (uuid_at random_bits) (seq k (length parts)).
Proof.
  revert k. induction parts as [|p rest IH]; intros k; [reflexivity|].
  simpl map at 1. simpl length. simpl seq. simpl map at 3.
  rewrite <- IH. f_equal.
  change (Path.parse_name (stored_name random_bits k p) = uuid_at random_bits k). apply parse_name_stored.
Qed.

Lemma new_records_safe now (k : nat) (parts : list Part) :
  (MAX_FILE_SIZE < safe_limit)%N -> Forall (accepted MAX_FILE_SIZE) parts ->
  Forall safe_size
    (map (new_record mime_lookup now) (multer_result random_bits k parts)).
Proof.
  intros Hmax Hacc. revert k. induction Hacc as [|p rest [_ Hp] _ IH]; intros k.
  - constructor.
  - simpl. constructor; [|apply IH]. unfold safe_size. simpl. lia.
Qed.


(** C10: whenever an upload is answered 201, the clock was read once
    during the request and every record of the answer carries that one
    reading as [uploadedAt]. *)
Theorem C10_one_timestamp_per_request (parts : list Part) (w : World) resp w' :
  post_upload UPLOAD_DIR MAX_FILE_SIZE random_bits clock mime_lookup parts w
  = (Responded resp, w') ->
  status resp = 201%Z ->
  exists saved,
    body resp = BJson (JObj [("files", records_to_json saved)])
    /\ length saved = length parts
    /\ Forall (fun r => uploadedAt r = clock (clock_reads w)) saved
    /\ clock_reads w' = S (clock_reads w).
Proof.
  unfold post_upload, upload_array.
  destruct (multer_parts _ _ _ _ _ parts w) as [[fls|e|] w1] eqn:Hm.
  - destruct (multer_parts_frame parts _ _ _ _ _
                (fun q (H : In q []) => match H with end) Hm) as (_ & Hclock & _ & _).
    apply multer_parts_inv in Hm as (-> & _ & _ & _ & _).
    unfold run.
    destruct (upload_handler _ _ _ _ _ w1) as [res w2] eqn:Hh.
    destruct (upload_handler_outcomes _ _ _ _ Hh)
      as [-> | [-> | (meta & w1' & Hl & _ & -> & ->)]].
    + discriminate.
    + intros [= <- <-]. discriminate.
    + intros [= <- <-] _. exists (new_records clock mime_lookup w1 (multer_result random_bits (uuid_calls w) parts)).
      destruct (loadRecords_frame _ _ _ Hl) as (Hc & _ & _ & _).
      repeat split.
      * unfold new_records. now rewrite length_map, multer_result_length.
      * unfold new_records. rewrite Hclock. apply List.Forall_forall.
        intros r Hr. apply List.in_map_iff in Hr as (f & <- & _). reflexivity.
      * simpl. now rewrite Hc, Hclock.
  - intros [= <- <-]. discriminate.
  - discriminate.
Qed.


End UploadFacts.

(** Closing tactics for the side conditions of the concrete run. *)
Ltac by_computation := vm_compute; reflexivity.
Ltac by_decision := apply (bool_decide_unpack _); vm_compute; exact I.

Lemma scenario_stored :
  stored Scenario.dir Scenario.w3
  = Some [Scenario.r1; Scenario.r2; Scenario.r3].
Proof. by_computation. Qed.

(** The oversize upload of the concrete run. *)
Lemma C1_witness :
  exists resp w',
    Scenario.upload [Scenario.notes; Scenario.large] Scenario.w3
    = (Responded resp, w')
    /\ status resp = 500%Z
    /\ files w' !! META_PATH Scenario.dir
       = files Scenario.w3 !! META_PATH Scenario.dir
    /\ stored Scenario.dir w' = stored Scenario.dir Scenario.w3.
Proof.
  apply (C1_oversize_upload_answers_500 Scenario.dir Scenario.limit Scenario.bits
           Scenario.clock Scenario.no_lookup [Scenario.notes; Scenario.large]
           Scenario.w3).
  apply Exists_cons_tl, Exists_cons_hd. reflexivity.
Defined.

Lemma C2_witness :
  let R := [Scenario.r1; Scenario.r2] in
  let w' := written (META_PATH Scenario.dir) (document R) Scenario.w0 in
  loadRecords Scenario.dir w' = (Ok R, w')
  /\ loadMeta Scenario.dir w' = (Ok (records_to_json R), w').
Proof.
  apply (C2_load_after_save Scenario.dir [Scenario.r1; Scenario.r2] Scenario.w0).
  - repeat constructor.
  - by_computation.
Defined.

(** C3 as stated fails: the document of [Scenario.locked] cannot be
    parsed, and [load()] raises the error of its own write instead of
    returning the empty sequence. *)
Lemma C3_counterexample :
  load_fails Scenario.dir Scenario.locked
  /\ loadMeta Scenario.dir Scenario.locked
     = (Throw (SystemError "EACCES"), Scenario.locked)
  /\ ~ (exists w', loadMeta Scenario.dir Scenario.locked = (Ok (JArr []), w')).
Proof.
  assert (Hf : load_fails Scenario.dir Scenario.locked) by by_computation.
  assert (Hl : loadMeta Scenario.dir Scenario.locked
               = (Throw (SystemError "EACCES"), Scenario.locked)).
  { apply loadMeta_reset_denied; [exact Hf | by_decision]. }
  repeat split; try assumption.
  intros [w' H]. rewrite Hl in H. discriminate.
Qed.

Lemma C3_witness :
  let w' := written (META_PATH Scenario.dir) "[]" Scenario.corrupt in
  loadMeta Scenario.dir Scenario.corrupt = (Ok (JArr []), w')
  /\ loadRecords Scenario.dir Scenario.corrupt = (Ok [], w')
  /\ stored Scenario.dir w' = Some [].
Proof.
  apply (C3_load_resets Scenario.dir Scenario.corrupt).
  - by_computation.
  - by_decision.
Defined.

Lemma C4_witness :
  exists w',
    delete_file Scenario.dir (id Scenario.r2) Scenario.w3
    = (Responded ok_response, w')
    /\ stored Scenario.dir w' = Some [Scenario.r1; Scenario.r3]
    /\ delete_file Scenario.dir (id Scenario.r2) w' = (Responded not_found, w')
    /\ delete_file Scenario.dir "unknown" Scenario.w3
       = (Responded not_found, Scenario.w3).
Proof.
  destruct (C4_delete Scenario.dir Scenario.w3 _ "unknown" scenario_stored)
    as [Hnone _].
  destruct (C4_delete Scenario.dir Scenario.w3 _ (id Scenario.r2) scenario_stored)
    as [_ Hsome].
  destruct (Hsome Scenario.r2) as (idx & w' & Hi & _ & Hdel & _ & Hst & Htwice).
  - reflexivity.
  - right. by_decision.
  - by_decision.
  - exists w'. injection Hi as <-. split; [exact Hdel|]. split; [exact Hst|].
    split; [apply Htwice; by_decision | apply Hnone; reflexivity].
Defined.

Lemma C5_witness :
  get_files Scenario.dir Scenario.date Scenario.w3
  = (Responded
       (json_response 200
          (JObj [("files",
                  records_to_json [Scenario.r3; Scenario.r2; Scenario.r1])])),
     Scenario.w3).
Proof.
  destruct (C5_listing_newest_first Scenario.dir Scenario.date Scenario.w3 _
              scenario_stored)
    as (listing & Hget & _ & _ & Horder).
  - repeat constructor; eexists; reflexivity.
  - rewrite (Horder Scenario.r1 Scenario.r2 Scenario.r3
               1709283600000 1709370000000 1709456400000)%Z in Hget;
      [exact Hget | reflexivity | reflexivity | reflexivity | reflexivity | lia].
Defined.


Lemma C7_witness :
  get_download Scenario.dir (id Scenario.r2) Scenario.w3
  = (Responded
       (mkResponse 200
          [("Content-Type", "application/octet-stream");
           ("Content-Disposition",
            "attachment; filename=" +:+ String dquote ""
              +:+ "photo.p%3Bn%24g" +:+ String dquote "")]
          (BStream "0123456789")), Scenario.w3).
Proof.
  destruct (C7_download Scenario.dir Scenario.w3 _ (id Scenario.r2) scenario_stored)
    as (_ & _ & Hfile & _).
  apply (Hfile Scenario.r2 "0123456789"); by_computation.
Defined.


Lemma C9_witness :
  let abs := Path.join Scenario.dir (storedName Scenario.r1) in
  unlink abs Scenario.protected
  = (Throw (SystemError "EACCES"), Scenario.protected)
  /\ delete_file Scenario.dir (id Scenario.r1) Scenario.protected
     = (Responded delete_failed, Scenario.protected).
Proof.
  apply (C9_delete_unlink_failure Scenario.dir Scenario.protected
           [Scenario.r1; Scenario.r2; Scenario.r3] (id Scenario.r1) Scenario.r1).
  - by_computation.
  - reflexivity.
  - exists "hello". by_computation.
  - by_decision.
Defined.

Lemma C10_witness :
  let run := Scenario.upload [Scenario.notes; Scenario.photo] Scenario.w3 in
  exists saved,
    body (Scenario.response_of (fst run))
    = BJson (JObj [("files", records_to_json saved)])
    /\ length saved = 2%nat
    /\ Forall
         (fun r => uploadedAt r = Scenario.clock (clock_reads Scenario.w3)) saved
    /\ clock_reads (snd run) = S (clock_reads Scenario.w3).
Proof.
  intros run.
  apply (C10_one_timestamp_per_request Scenario.dir Scenario.limit Scenario.bits
           Scenario.clock Scenario.no_lookup [Scenario.notes; Scenario.photo]
           Scenario.w3 (Scenario.response_of (fst run)) (snd run)).
  - by_computation.
  - reflexivity.
Defined.

(** * Further properties

    Properties of the code that the specification does not state:
    startup, the lookup route, the routes on a store in trouble, the
    shape of names and headers, what an upload leaves behind, the
    routes as a state machine, and the client's reading of the
    responses. *)

(** ** Startup, lookup and the store in trouble *)

Lemma find_unique (meta : list FileRecord) (r : FileRecord) :
  NoDup (map id meta) -> In r meta -> find (fun f => String.eqb (id f) (id r)) meta = Some r.
Proof.
  induction meta as [|f meta IH]; intros Hnd Hin; [destruct Hin|].
  apply NoDup_cons in Hnd as [Hf Hnd]. simpl.
  destruct Hin as [-> | Hin]; [now rewrite String.eqb_refl|].
  destruct (String.eqb (id f) (id r)) eqn:He; [|now apply IH].
  apply String.eqb_eq in He. exfalso. apply Hf. rewrite He.
  apply list_elem_of_In. now apply in_map.
Qed.

Section StoreInTrouble.

Variable UPLOAD_DIR : string.
Variable Date_value : string -> option Z.

Lemma loadRecords_reset (w : World) :
  load_fails UPLOAD_DIR w -> (META_PATH UPLOAD_DIR ∉ denied w) ->
  loadRecords UPLOAD_DIR w = (Ok [], written (META_PATH UPLOAD_DIR) "[]" w).
Proof.
  intros Hf Hd. unfold loadRecords, bind.
  rewrite loadMeta_fails by assumption. unfold bind.
  change (JSON.stringify (JArr [])) with "[]".
  now rewrite writeFileSync_ok.
Qed.

Lemma loadRecords_reset_denied (w : World) :
  load_fails UPLOAD_DIR w -> (META_PATH UPLOAD_DIR ∈ denied w) ->
  loadRecords UPLOAD_DIR w = (Throw (SystemError "EACCES"), w).
Proof.
  intros Hf Hd. unfold loadRecords, bind.
  now rewrite loadMeta_reset_denied.
Qed.

Lemma get_file_cases (w : World) (meta : list FileRecord) (req_id : string) :
  stored UPLOAD_DIR w = Some meta ->
  get_file UPLOAD_DIR req_id w
  = (Responded
       match getFileInfoById req_id meta with
       | None => not_found
       | Some file => json_response 200 (record_to_json file)
       end, w).
Proof.
  intros Hst. unfold get_file, run, info_handler, bind.
  rewrite (loadRecords_stored _ _ _ Hst).
  now destruct (getFileInfoById req_id meta).
Qed.

(** X1: when startup returns, a second startup changes nothing; a
    metadata document that was already there is left exactly as it was,
    whatever it holds, and one that was missing is created holding the
    empty sequence, no other file being touched. *)
Theorem startup_creates_or_keeps (w w1 : World) :
  startup UPLOAD_DIR w = (Ok tt, w1) ->
  startup UPLOAD_DIR w1 = (Ok tt, w1)
  /\ (is_Some (files w !! META_PATH UPLOAD_DIR) -> w1 = w)
  /\ (files w !! META_PATH UPLOAD_DIR = None ->
      stored UPLOAD_DIR w1 = Some []
      /\ forall q, q <> META_PATH UPLOAD_DIR -> files w1 !! q = files w !! q).
Proof.
  unfold startup, bind, existsSync.
  destruct (files w !! META_PATH UPLOAD_DIR) as [raw|] eqn:Hraw.
  - rewrite (bool_decide_eq_true_2 (is_Some (Some raw))) by eauto. simpl.
    intros [= <-]. rewrite Hraw.
    rewrite (bool_decide_eq_true_2 (is_Some (Some raw))) by eauto. simpl.
    repeat split; intros; discriminate.
  - rewrite (bool_decide_eq_false_2 (is_Some None)) by (intros [? ?]; discriminate).
    simpl. change (JSON.stringify (JArr [])) with "[]". intros Hw.
    apply writeFileSync_inv in Hw as [(_ & Hd & ->) | (Habs & _)]; [|discriminate].
    assert (Hnew : files (written (META_PATH UPLOAD_DIR) "[]" w) !! META_PATH UPLOAD_DIR
                   = Some "[]") by (unfold written; simpl; apply lookup_insert_eq).
    rewrite Hnew.
    rewrite (bool_decide_eq_true_2 (is_Some (Some "[]"))) by eauto. simpl.
    split; [reflexivity|]. split; [intros [? ?]; discriminate|].
    intros _. split.
    + unfold stored, written. simpl. now rewrite lookup_insert_eq.
    + intros q Hq. unfold written. simpl. now rewrite lookup_insert_ne.
Qed.

(** X2: on a store whose identifiers are distinct, GET /api/files/:id
    answers 200 with the record, for the identifier of every stored
    record, and 404 for every identifier the store does not hold; the
    world is left as it was. *)
Theorem lookup_returns_stored_record (w : World) (meta : list FileRecord) :
  stored UPLOAD_DIR w = Some meta ->
  NoDup (map id meta) ->
  (forall r, In r meta ->
     get_file UPLOAD_DIR (id r) w
     = (Responded (json_response 200 (record_to_json r)), w))
  /\ (forall req_id, ~ In req_id (map id meta) ->
        get_file UPLOAD_DIR req_id w = (Responded not_found, w)).
Proof.
  intros Hst Hnd. split.
  - intros r Hr. rewrite (get_file_cases _ _ _ Hst).
    unfold getFileInfoById. now rewrite find_unique.
  - intros req_id Hno. rewrite (get_file_cases _ _ _ Hst).
    apply getFileInfoById_None in Hno. now rewrite Hno.
Qed.

(** X3: when the metadata document cannot be read or parsed, and can be
    written, every route that loads it replaces it by the empty
    sequence: the listing answers 200 with no file, and lookup, download
    and DELETE answer 404 for every identifier. *)
Theorem unreadable_document_is_reset (w : World) (req_id : string) :
  load_fails UPLOAD_DIR w ->
  (META_PATH UPLOAD_DIR ∉ denied w) ->
  let w' := written (META_PATH UPLOAD_DIR) "[]" w in
  get_files UPLOAD_DIR Date_value w
  = (Responded (json_response 200 (JObj [("files", JArr [])])), w')
  /\ get_file UPLOAD_DIR req_id w = (Responded not_found, w')
  /\ get_download UPLOAD_DIR req_id w = (Responded not_found, w')
  /\ delete_file UPLOAD_DIR req_id w = (Responded not_found, w')
  /\ stored UPLOAD_DIR w' = Some [].
Proof.
  intros Hf Hd w'. pose proof (loadRecords_reset w Hf Hd) as Hl. fold w' in Hl.
  repeat split.
  - unfold get_files, run, list_handler, bind. now rewrite Hl.
  - unfold get_file, run, info_handler, bind. now rewrite Hl.
  - unfold get_download, run, download_handler, bind. now rewrite Hl.
  - unfold delete_file, run, delete_handler, bind. now rewrite Hl.
  - unfold stored, w', written. simpl. now rewrite lookup_insert_eq.
Qed.

(** X4: when the document can neither be read nor rewritten, the error
    of the failing write leaves the listing, lookup, download and DELETE
    handlers, whose promise rejects without a response, while the upload
    handler, whose [try] block encloses the load, answers 500 with
    [Upload failed.]. *)
Theorem failing_reset_reaches_the_caller (w : World) (req_id : string)
    (MAX_FILE_SIZE : N) (clock : nat -> string)
    (mime_lookup : string -> option string) (fls : list MulterFile) :
  load_fails UPLOAD_DIR w ->
  (META_PATH UPLOAD_DIR ∈ denied w) ->
  let e := SystemError "EACCES" in
  get_files UPLOAD_DIR Date_value w = (Rejected e, w)
  /\ get_file UPLOAD_DIR req_id w = (Rejected e, w)
  /\ get_download UPLOAD_DIR req_id w = (Rejected e, w)
  /\ delete_file UPLOAD_DIR req_id w = (Rejected e, w)
  /\ run (upload_handler UPLOAD_DIR MAX_FILE_SIZE clock mime_lookup fls) w
     = (Responded upload_failed, w).
Proof.
  intros Hf Hd e. pose proof (loadRecords_reset_denied w Hf Hd) as Hl.
  repeat split.
  - unfold get_files, run, list_handler, bind. now rewrite Hl.
  - unfold get_file, run, info_handler, bind. now rewrite Hl.
  - unfold get_download, run, download_handler, bind. now rewrite Hl.
  - unfold delete_file, run, delete_handler, bind. now rewrite Hl.
  - unfold run, upload_handler, try_catch. unfold bind at 1. rewrite Hl.
    now rewrite bool_decide_eq_false_2 by discriminate.
Qed.

(** X5: when the backing file can be unlinked and the document cannot
    be rewritten, DELETE answers 500 after the file is gone: the record
    stays in the store, lookup still returns it, and download answers
    404 with [Missing file on disk]. *)
Theorem delete_is_not_atomic (w : World) (meta : list FileRecord)
    (req_id : string) (file : FileRecord) :
  stored UPLOAD_DIR w = Some meta ->
  getFileInfoById req_id meta = Some file ->
  let abs := Path.join UPLOAD_DIR (storedName file) in
  is_Some (files w !! abs) ->
  (abs ∉ denied w) ->
  (META_PATH UPLOAD_DIR ∈ denied w) ->
  let w' := unlinked abs w in
  delete_file UPLOAD_DIR req_id w = (Responded delete_failed, w')
  /\ files w' !! abs = None
  /\ stored UPLOAD_DIR w' = Some meta
  /\ get_file UPLOAD_DIR req_id w'
     = (Responded (json_response 200 (record_to_json file)), w')
  /\ get_download UPLOAD_DIR req_id w' = (Responded missing_on_disk, w').
Proof.
  intros Hst Hsome abs Hfile Habs Hmeta w'.
  assert (Hne : abs <> META_PATH UPLOAD_DIR) by (intros Heq; apply Habs; now rewrite Heq).
  assert (Hgone : files w' !! abs = None) by (unfold w', unlinked; simpl; apply lookup_delete_eq).
  assert (Hst' : stored UPLOAD_DIR w' = Some meta).
  { unfold stored, w', unlinked in *. simpl. now rewrite lookup_delete_ne. }
  split; [|split; [exact Hgone|split; [exact Hst'|split]]].
  - pose proof (delete_file_cases UPLOAD_DIR w meta req_id Hst) as Hc.
    destruct (getFileInfoById_Some _ _ _ Hsome) as (idx & Hi & Hf).
    rewrite Hi in Hc. destruct Hc as (file' & Hf' & Hc).
    assert (file' = file) as -> by congruence. cbv zeta in Hc. fold abs in Hc.
    rewrite (bool_decide_eq_false_2 _ Habs), andb_false_r in Hc.
    now rewrite (bool_decide_eq_true_2 _ Hmeta) in Hc.
  - rewrite (get_file_cases _ _ _ Hst'). now rewrite Hsome.
  - rewrite (get_download_cases _ _ _ _ Hst'). rewrite Hsome. fold abs. now rewrite Hgone.
Qed.

End StoreInTrouble.

(** X6: [getFileInfoById] and the [findIndex] of the DELETE route pick
    the same record, the first whose identifier is the requested one,
    and both find nothing exactly when no record carries it. *)
Theorem find_and_findIndex_agree (req_id : string) (meta : list FileRecord) :
  match getFileInfoById req_id meta with
  | Some file =>
      In file meta /\ id file = req_id
      /\ exists idx,
           findIndex req_id meta = Some idx /\ meta !! idx = Some file
           /\ forall j g, (j < idx)%nat -> meta !! j = Some g -> id g <> req_id
  | None =>
      findIndex req_id meta = None /\ Forall (fun f => id f <> req_id) meta
  end.
Proof.
  unfold getFileInfoById.
  induction meta as [|f meta IH]; simpl; [split; [reflexivity | constructor]|].
  destruct (String.eqb (id f) req_id) eqn:He.
  - apply String.eqb_eq in He. split; [now left|]. split; [exact He|].
    exists 0%nat. repeat split. intros j g Hj. lia.
  - apply String.eqb_neq in He.
    destruct (find _ meta) as [file|].
    + destruct IH as (Hin & Hid & idx & Hi & Hf & Hfirst).
      split; [now right|]. split; [exact Hid|].
      exists (S idx). rewrite Hi. repeat split; [exact Hf|].
      intros [|j] g Hj; simpl; [now intros [= <-]|].
      apply Hfirst. lia.
    + destruct IH as [-> Hall]. split; [reflexivity | now constructor].
Qed.

(** ** The Content-Disposition header *)

Lemma upper_hex_uri (n : N) : (n < 16)%N -> uri_unreserved (upper_hex n) = true.
Proof.
  intros Hn.
  assert (Hall : forallb (fun k => uri_unreserved (upper_hex (N.of_nat k))) (seq 0 16) = true)
    by (vm_compute; reflexivity).
  rewrite List.forallb_forall in Hall.
  specialize (Hall (N.to_nat n)). rewrite N2Nat.id in Hall.
  apply Hall, List.in_seq. lia.
Qed.

Lemma code_bound (c : ascii) : (Char.code c < 256)%N.
Proof. apply N_ascii_bounded. Qed.

Lemma uri_encode_char_chars (c : ascii) :
  Forall (fun x => uri_char x = true) (list_ascii_of_string (uri_encode_char c)).
Proof.
  unfold uri_encode_char. destruct (uri_unreserved c) eqn:Hc; simpl.
  - repeat constructor. unfold uri_char. now rewrite Hc.
  - pose proof (code_bound c) as Hb.
    repeat constructor; unfold uri_char.
    + rewrite upper_hex_uri; [reflexivity|].
      apply N.Div0.div_lt_upper_bound. lia.
    + rewrite upper_hex_uri; [reflexivity|]. apply N.mod_lt. lia.
Qed.

Lemma encodeURIComponent_chars (s : string) :
  Forall (fun x => uri_char x = true) (list_ascii_of_string (encodeURIComponent s)).
Proof.
  induction s as [|c s IH]; simpl; [constructor|].
  rewrite chars_app. apply List.Forall_app. split; [apply uri_encode_char_chars | exact IH].
Qed.

(** X7: the Content-Disposition value is [attachment; filename=]
    followed by a quoted name made of unreserved URI characters and
    percent signs: whatever the original name, the quoted part holds no
    quote, no backslash, no space and no control or non-ASCII
    character. *)
Theorem content_disposition_is_well_formed (file : FileRecord) :
  exists name,
    content_disposition file
    = "attachment; filename=" +:+ String dquote (name +:+ String dquote "")
    /\ Forall (fun c => uri_char c = true) (list_ascii_of_string name)
    /\ Forall (fun c => c <> dquote /\ c <> backslash /\ (32 < Char.code c < 127)%N)
         (list_ascii_of_string name).
Proof.
  exists (encodeURIComponent (originalName file)).
  split; [reflexivity|]. split; [apply encodeURIComponent_chars|].
  eapply List.Forall_impl; [|apply encodeURIComponent_chars].
  intros c Hc.
  assert (Hall : forallb (fun k => let c := ascii_of_nat k in
                    negb (uri_char c)
                    || (negb (Ascii.eqb c dquote) && negb (Ascii.eqb c backslash)
                        && (32 <? Char.code c)%N && (Char.code c <? 127)%N))
                   (seq 0 256) = true) by (vm_compute; reflexivity).
  rewrite List.forallb_forall in Hall.
  specialize (Hall (nat_of_ascii c)). rewrite ascii_nat_embedding in Hall.
  cbv zeta in Hall. rewrite Hc in Hall. simpl in Hall.
  assert (Hin : In (nat_of_ascii c) (seq 0 256)).
  { apply List.in_seq. pose proof (nat_ascii_bounded c). lia. }
  apply Hall in Hin. apply andb_prop in Hin as [Hin H4].
  apply andb_prop in Hin as [Hin H3]. apply andb_prop in Hin as [H1 H2].
  apply negb_true_iff, Ascii.eqb_neq in H1, H2.
  apply N.ltb_lt in H3, H4. repeat split; assumption.
Qed.

(** ** The listing is stable *)

Section Stable.
Context {A : Type} (comparefn : A -> A -> option Z) (key : A -> Z).

Lemma sort_insert_same_key (k : Z) (x : A) (l : list A) :
  by_key comparefn key (x :: l) ->
  List.filter (fun a => (key a =? k)%Z) (sort_insert comparefn x l)
  = List.filter (fun a => (key a =? k)%Z) (x :: l).
Proof.
  induction l as [|y l IH]; intros Hk; [reflexivity|].
  assert (Hxy : sort_compare comparefn x y = (key y - key x)%Z)
    by (apply Hk; simpl; auto).
  simpl sort_insert. destruct (sort_compare comparefn x y <=? 0)%Z eqn:Hc; [reflexivity|].
  apply Z.leb_gt in Hc.
  assert (IH' : List.filter (fun a => (key a =? k)%Z) (sort_insert comparefn x l)
                = List.filter (fun a => (key a =? k)%Z) (x :: l)).
  { apply IH. intros a b Ha Hb. apply Hk; simpl in *; tauto. }
  simpl in *. rewrite IH'.
  destruct (key x =? k)%Z eqn:Hx; [|reflexivity].
  apply Z.eqb_eq in Hx.
  replace (key y =? k)%Z with false; [reflexivity|].
  symmetry. apply Z.eqb_neq. lia.
Qed.

Lemma js_sort_same_key (k : Z) (l : list A) :
  by_key comparefn key l ->
  List.filter (fun a => (key a =? k)%Z) (js_sort comparefn l)
  = List.filter (fun a => (key a =? k)%Z) l.
Proof.
  induction l as [|x l IH]; intros Hk; [reflexivity|].
  simpl js_sort. rewrite sort_insert_same_key.
  - simpl. rewrite IH; [reflexivity|].
    intros a b Ha Hb. apply Hk; now right.
  - intros a b Ha Hb. apply Hk.
    + destruct Ha as [<- | Ha]; [now left | right].
      now apply (Permutation_in _ (js_sort_perm comparefn l)).
    + destruct Hb as [<- | Hb]; [now left | right].
      now apply (Permutation_in _ (js_sort_perm comparefn l)).
Qed.

End Stable.

Lemma filter_all {A} (P : A -> bool) (l : list A) :
  Forall (fun a => P a = true) l -> List.filter P l = l.
Proof.
  induction 1 as [|a l Ha _ IH]; [reflexivity|]. simpl. now rewrite Ha, IH.
Qed.

Section ListingFacts.

Variable UPLOAD_DIR : string.
Variable Date_value : string -> option Z.

Lemma uploaded_at_time_of (t : Z) (l : list FileRecord) :
  Forall (valid_time Date_value) l ->
  List.filter (uploaded_at Date_value t) l
  = List.filter (fun r => (time_of Date_value r =? t)%Z) l.
Proof.
  intros Hv. apply List.filter_ext_in. intros r Hr.
  rewrite List.Forall_forall in Hv. destruct (Hv r Hr) as [tr Htr].
  unfold uploaded_at, time_of. rewrite Htr. simpl.
  destruct (tr =? t)%Z eqn:He.
  - apply Z.eqb_eq in He. subst. now apply bool_decide_eq_true_2.
  - apply Z.eqb_neq in He. apply bool_decide_eq_false_2. congruence.
Qed.

(** X8: the listing is stable: for every time [t], the records uploaded
    at [t] appear in the listing in the order the store has them; when
    all records carry one time stamp the listing is the store's
    sequence. *)
Theorem listing_keeps_store_order_among_equals (w : World) (meta : list FileRecord) :
  stored UPLOAD_DIR w = Some meta ->
  Forall (valid_time Date_value) meta ->
  exists listing,
    get_files UPLOAD_DIR Date_value w
    = (Responded
         (json_response 200 (JObj [("files", records_to_json listing)])), w)
    /\ (forall t,
          List.filter (uploaded_at Date_value t) listing
          = List.filter (uploaded_at Date_value t) meta)
    /\ (forall t,
          Forall (fun r => Date_value (uploadedAt r) = Some t) meta ->
          listing = meta).
Proof.
  intros Hst Hv. exists (js_sort (newest_first Date_value) meta).
  pose proof (js_sort_perm (newest_first Date_value) meta) as Hperm.
  assert (Hv' : Forall (valid_time Date_value) (js_sort (newest_first Date_value) meta)).
  { rewrite List.Forall_forall in *. intros r Hr. apply Hv.
    now apply (Permutation_in _ Hperm). }
  assert (Hsame : forall t,
            List.filter (uploaded_at Date_value t) (js_sort (newest_first Date_value) meta)
            = List.filter (uploaded_at Date_value t) meta).
  { intros t. rewrite !uploaded_at_time_of by assumption.
    apply js_sort_same_key. now apply newest_first_by_key. }
  split; [now apply get_files_stored|]. split; [exact Hsame|].
  intros t Hall. specialize (Hsame t).
  assert (Hall' : Forall (fun r => uploaded_at Date_value t r = true) meta).
  { eapply List.Forall_impl; [|exact Hall]. intros r Hr.
    now apply bool_decide_eq_true_2. }
  rewrite (filter_all _ meta Hall') in Hsame.
  rewrite filter_all in Hsame; [exact Hsame|].
  rewrite List.Forall_forall in *. intros r Hr. apply Hall'.
  now apply (Permutation_in _ Hperm).
Qed.

End ListingFacts.

(** ** The shape of stored names *)

Lemma hex_digit_uuid_char (n : N) : (n < 16)%N -> uuid_char (hex_digit n) = true.
Proof.
  intros Hn.
  assert (Hall : forallb (fun k => uuid_char (hex_digit (N.of_nat k))) (seq 0 16) = true)
    by (vm_compute; reflexivity).
  rewrite List.forallb_forall in Hall.
  specialize (Hall (N.to_nat n)). rewrite N2Nat.id in Hall.
  apply Hall, List.in_seq. lia.
Qed.

Lemma group_uuid_chars r from count :
  Forall (fun c => uuid_char c = true) (UUID.group r from count).
Proof.
  unfold UUID.group. apply List.Forall_forall. intros c Hc.
  apply List.in_map_iff in Hc as [i [<- _]].
  apply hex_digit_uuid_char, NameFacts.nibble_bound.
Qed.

Lemma uuid_format_chars (r : N) :
  Forall (fun c => uuid_char c = true) (list_ascii_of_string (UUID.format r)).
Proof.
  unfold UUID.format. rewrite list_ascii_of_string_of_list_ascii.
  repeat (apply List.Forall_app; split; [apply group_uuid_chars|]; constructor; [reflexivity|]).
  apply group_uuid_chars.
Qed.

Lemma plain_allowed_alphanumeric (c : ascii) :
  Char.plain c = true -> Char.ext_allowed c = true -> alphanumeric c = true.
Proof.
  unfold Char.plain, Char.ext_allowed, alphanumeric.
  destruct (Char.is_dot c); [discriminate|]. simpl. now intros _ H.
Qed.

Lemma storage_filename_shape (id originalname : string) :
  storage_filename id originalname = id
  \/ exists t, storage_filename id originalname
               = id +:+ String "." (string_of_list_ascii t)
               /\ Forall (fun c => alphanumeric c = true) t.
Proof.
  unfold storage_filename, safeExt_of, Path.extname.
  rewrite list_ascii_of_string_of_list_ascii.
  destruct (PathFacts.extname_shape originalname) as [-> | [t [-> Ht]]].
  - left. apply string_app_nil_r.
  - right. exists (List.filter Char.ext_allowed t). split; [reflexivity|].
    unfold Path.plain_chars in Ht. rewrite List.Forall_forall in *.
    intros c Hc. apply List.filter_In in Hc as [Hc Ha].
    apply plain_allowed_alphanumeric; auto.
Qed.

(** X9: a stored name is the 36 characters of the identifier
    (lower-case hexadecimal digits and hyphens), alone or followed by
    one dot and letters and digits; it holds no path separator and is
    never the name of the metadata document. *)
Theorem stored_name_shape (r : N) (originalname : string) :
  let uuid := UUID.format r in
  let name := storage_filename uuid originalname in
  String.length uuid = 36%nat
  /\ Forall (fun c => uuid_char c = true) (list_ascii_of_string uuid)
  /\ (name = uuid
      \/ exists t, name = uuid +:+ String "." (string_of_list_ascii t)
                   /\ Forall (fun c => alphanumeric c = true) t)
  /\ ~ In "/"%char (list_ascii_of_string name)
  /\ name <> "metadata.json".
Proof.
  intros uuid name.
  pose proof (storage_filename_shape uuid originalname) as Hshape. fold name in Hshape.
  split; [reflexivity|]. split; [apply uuid_format_chars|].
  split; [exact Hshape|]. split; [|apply NameFacts.stored_name_not_metadata].
  assert (Hu : ~ In "/"%char (list_ascii_of_string uuid)).
  { intros Hin. pose proof (uuid_format_chars r) as Hc.
    rewrite List.Forall_forall in Hc. now specialize (Hc _ Hin). }
  destruct Hshape as [-> | [t [-> Ht]]]; [exact Hu|].
  rewrite chars_app. intros Hin. apply in_app_or in Hin as [Hin | Hin]; [now apply Hu|].
  simpl in Hin. destruct Hin as [Hin | Hin]; [discriminate|].
  rewrite list_ascii_of_string_of_list_ascii in Hin.
  rewrite List.Forall_forall in Ht. now specialize (Ht _ Hin).
Qed.

(** ** More on uploads *)

Lemma string_app_inv_length (a b c d : string) :
  String.length a = String.length b -> a +:+ c = b +:+ d -> a = b.
Proof.
  revert b. induction a as [|x a IH]; intros [|y b]; simpl; try discriminate; [reflexivity|].
  intros [= Hl] [= -> H]. f_equal. now apply IH.
Qed.


Section MoreUploadFacts.

Variable UPLOAD_DIR : string.
Variable MAX_FILE_SIZE : N.
Variable random_bits : nat -> N.
Variable clock : nat -> string.
Variable mime_lookup : string -> option string.


Lemma dests_inv (parts : list Part) :
  forall (k : nat) (d : string),
    In d (dests UPLOAD_DIR random_bits k parts) ->
    exists i p, parts !! i = Some p
      /\ d = dest UPLOAD_DIR random_bits (k + i) p.
Proof.
  induction parts as [|p rest IH]; intros k d; [intros []|].
  simpl. intros [<- | Hin].
  - exists 0%nat, p. now rewrite Nat.add_0_r.
  - destruct (IH _ _ Hin) as (i & q & Hq & ->). exists (S i), q.
    split; [exact Hq|]. now rewrite Nat.add_succ_r.
Qed.

Lemma dests_lookup (parts : list Part) :
  forall (k i : nat) (p : Part),
    parts !! i = Some p ->
    In (dest UPLOAD_DIR random_bits (k + i) p) (dests UPLOAD_DIR random_bits k parts).
Proof.
  induction parts as [|q rest IH]; intros k i p; [discriminate|].
  destruct i as [|i]; simpl.
  - intros [= ->]. left. now rewrite Nat.add_0_r.
  - intros H. right. rewrite <- Nat.add_succ_comm. now apply IH.
Qed.


Lemma disk_after_other (parts : list Part) :
  forall k fs q,
    ~ In q (dests UPLOAD_DIR random_bits k parts) ->
    disk_after UPLOAD_DIR random_bits k parts fs !! q = fs !! q.
Proof.
  induction parts as [|p rest IH]; intros k fs q Hq; [reflexivity|].
  simpl in Hq. simpl. rewrite IH by (intros H; apply Hq; now right).
  apply lookup_insert_ne. intros Heq. apply Hq. now left.
Qed.

Lemma disk_after_is_Some (parts : list Part) :
  forall k fs d,
    In d (dests UPLOAD_DIR random_bits k parts) ->
    is_Some (disk_after UPLOAD_DIR random_bits k parts fs !! d).
Proof.
  induction parts as [|p rest IH]; intros k fs d; [intros []|].
  simpl. intros Hin.
  destruct (decide (d ∈ dests UPLOAD_DIR random_bits (S k) rest)) as [Hr | Hr];
    rewrite list_elem_of_In in Hr.
  - now apply IH.
  - destruct Hin as [<- | Hin]; [|contradiction].
    rewrite disk_after_other by exact Hr. rewrite lookup_insert_eq. eauto.
Qed.


(** The route handler on a store that holds [meta]. *)
Lemma upload_handler_stored (fls : list MulterFile) (w : World)
    (meta : list FileRecord) :
  stored UPLOAD_DIR w = Some meta ->
  upload_handler UPLOAD_DIR MAX_FILE_SIZE clock mime_lookup fls w
  = if bool_decide (META_PATH UPLOAD_DIR ∈ denied w)
    then (Ok upload_failed, ticked w)
    else (Ok (created (new_records clock mime_lookup w fls)),
          written (META_PATH UPLOAD_DIR)
            (document (meta ++ new_records clock mime_lookup w fls)) (ticked w)).
Proof.
  intros Hst. unfold upload_handler, try_catch. unfold bind at 1.
  rewrite (loadRecords_stored _ _ _ Hst).
  unfold bind at 1, now_toISOString. rewrite push_records_eq. cbv iota beta.
  unfold bind, saveMeta, writeFileSync, ret. simpl denied.
  destruct (bool_decide (META_PATH UPLOAD_DIR ∈ denied w)) eqn:Hd.
  - now rewrite bool_decide_eq_false_2 by discriminate.
  - reflexivity.
Qed.





Lemma new_records_lookup (w : World) (parts : list Part) (k i : nat) (p : Part) :
  parts !! i = Some p ->
  new_records clock mime_lookup w (multer_result random_bits k parts) !! i
  = Some (new_record mime_lookup (clock (clock_reads w))
            (mkFile (part_filename p) (part_type p)
               (stored_name random_bits (k + i) p) (part_size p))).
Proof.
  intros Hp. unfold new_records. rewrite list_lookup_fmap.
  now rewrite (multer_result_lookup _ _ _ _ _ Hp).
Qed.






(** X13: every response of the upload route has status 201 or 500; none
    has status 400, and none carries the [File too large] message of the
    handler's [catch] block. *)
Theorem upload_answers_201_or_500 (parts : list Part) (w : World) resp w' :
  post_upload UPLOAD_DIR MAX_FILE_SIZE random_bits clock mime_lookup parts w
  = (Responded resp, w') ->
  (status resp = 201%Z \/ status resp = 500%Z)
  /\ status resp <> 400%Z
  /\ body resp
     <> BJson (error_json ("File too large. Max "
                           +:+ N_to_string MAX_FILE_SIZE +:+ " bytes.")).
Proof.
  unfold post_upload, upload_array.
  destruct (multer_parts _ _ _ _ _ parts w) as [[fls|e|] w1].
  - unfold run.
    destruct (upload_handler _ _ _ _ fls w1) as [res w2] eqn:Hh.
    destruct (upload_handler_outcomes _ _ _ _ _ _ _ _ Hh)
      as [-> | [-> | (? & ? & _ & _ & -> & _)]];
      [discriminate | |]; intros [= <- <-].
    + split; [now right|]. split; discriminate.
    + split; [now left|]. split; discriminate.
  - intros [= <- <-]. split; [now right|]. split; discriminate.
  - discriminate.
Qed.

Lemma remove_uploaded_gone (wr : list string) (w : World) (q : string) :
  In q wr -> (q ∉ denied w) -> files (remove_uploaded wr w) !! q = None.
Proof.
  unfold remove_uploaded. simpl. intros Hin Hq.
  induction wr as [|p wr IH]; [destruct Hin|]. simpl.
  destruct (decide (q = p)) as [<- | Hne].
  - rewrite (bool_decide_eq_false_2 _ Hq). apply lookup_delete_eq.
  - destruct Hin as [-> | Hin]; [contradiction|].
    destruct (bool_decide (p ∈ denied w)); [now apply IH|].
    rewrite lookup_delete_ne by congruence. now apply IH.
Qed.



Lemma multer_parts_confined (parts : list Part) :
  forall filesLeft wr w res w',
    multer_parts UPLOAD_DIR MAX_FILE_SIZE random_bits filesLeft wr parts w
    = (res, w') ->
    forall q, ~ In q wr ->
      ~ In q (dests UPLOAD_DIR random_bits (uuid_calls w) parts) ->
      files w' !! q = files w !! q.
Proof.
  induction parts as [|p rest IH]; intros filesLeft wr w res w'.
  - now intros [= <- <-].
  - rewrite multer_parts_cons. intros H q Hwr Hq. simpl in Hq.
    assert (Hwr' : ~ In q (dest UPLOAD_DIR random_bits (uuid_calls w) p :: wr)).
    { intros [Heq | Hin]; [apply Hq; now left | now apply Hwr]. }
    destruct (negb _ || _).
    { injection H as <- <-. now apply remove_uploaded_lookup. }
    cbv zeta in H. destruct (MAX_FILE_SIZE <? part_size p)%N.
    { injection H as <- <-. now rewrite remove_uploaded_lookup. }
    destruct (bool_decide _).
    { injection H as <- <-. now rewrite remove_uploaded_lookup. }
    destruct (multer_parts _ _ _ _ _ rest _) as [r w1] eqn:Hrec.
    apply IH with (q := q) in Hrec;
      [|exact Hwr'|simpl; intros Hin; apply Hq; now right].
    simpl in Hrec.
    rewrite lookup_insert_ne in Hrec by (intros Heq; apply Hq; now left).
    destruct r; injection H as <- <-; exact Hrec.
Qed.

Lemma loadRecords_confined (w : World) r w' :
  loadRecords UPLOAD_DIR w = (r, w') ->
  forall q, q <> META_PATH UPLOAD_DIR -> files w' !! q = files w !! q.
Proof.
  intros H q Hq. revert H.
  unfold loadRecords, bind, loadMeta, try_catch, bind, readFileSync, throw,
    writeFileSync, ret.
  destruct (files w !! META_PATH UPLOAD_DIR) as [raw|].
  - destruct (JSON.parse raw) as [v|].
    + destruct (json_to_records v); now intros [= <- <-].
    + destruct (bool_decide _); simpl; intros [= <- <-]; [reflexivity|].
      simpl. now rewrite lookup_insert_ne.
  - destruct (bool_decide _); simpl; intros [= <- <-]; [reflexivity|].
    simpl. now rewrite lookup_insert_ne.
Qed.

Lemma upload_handler_confined (fls : list MulterFile) (w : World) res w' :
  upload_handler UPLOAD_DIR MAX_FILE_SIZE clock mime_lookup fls w = (res, w') ->
  forall q, q <> META_PATH UPLOAD_DIR -> files w' !! q = files w !! q.
Proof.
  intros H q Hq. revert H.
  unfold upload_handler, try_catch. unfold bind at 1.
  destruct (loadRecords UPLOAD_DIR w) as [r w1] eqn:Hl.
  pose proof (loadRecords_confined _ _ _ Hl q Hq) as H1.
  destruct r as [meta|e|].
  - unfold bind at 1, now_toISOString. rewrite push_records_eq. cbv iota beta.
    unfold bind, saveMeta, writeFileSync, ret. simpl denied. simpl files.
    destruct (bool_decide (META_PATH UPLOAD_DIR ∈ denied w1)).
    + destruct (bool_decide _); now intros [= <- <-].
    + intros [= <- <-]. simpl. now rewrite lookup_insert_ne.
  - destruct (bool_decide _); now intros [= <- <-].
  - now intros [= <- <-].
Qed.

(** X15: whatever its outcome, an upload changes no file other than the
    metadata document and the files named for its own parts. *)
Theorem upload_touches_only_its_own_files (parts : list Part) (w : World) o w' :
  post_upload UPLOAD_DIR MAX_FILE_SIZE random_bits clock mime_lookup parts w
  = (o, w') ->
  forall q,
    q <> META_PATH UPLOAD_DIR ->
    ~ In q (dests UPLOAD_DIR random_bits (uuid_calls w) parts) ->
    files w' !! q = files w !! q.
Proof.
  unfold post_upload, upload_array. intros H q Hmeta Hq.
  destruct (multer_parts _ _ _ _ _ parts w) as [r w1] eqn:Hm.
  pose proof (multer_parts_confined parts _ _ _ _ _ Hm q (fun H => H) Hq) as H1.
  destruct r as [fls|e|].
  - unfold run in H.
    destruct (upload_handler _ _ _ _ fls w1) as [res w2] eqn:Hh.
    pose proof (upload_handler_confined _ _ _ _ Hh q Hmeta) as H2.
    destruct res; injection H as <- <-; congruence.
  - injection H as <- <-. exact H1.
  - injection H as <- <-. exact H1.
Qed.

End MoreUploadFacts.

(** ** The routes as a state machine *)

Section RouteFacts.

Variable UPLOAD_DIR : string.
Variable MAX_FILE_SIZE : N.
Variable random_bits : nat -> N.
Variable clock : nat -> string.
Variable mime_lookup : string -> option string.
Variable Date_value : string -> option Z.

Lemma remove_uploaded_calls (wr : list string) (w : World) :
  uuid_calls (remove_uploaded wr w) = uuid_calls w.
Proof. reflexivity. Qed.

Lemma multer_parts_calls (parts : list Part) :
  forall filesLeft wr w res w',
    multer_parts UPLOAD_DIR MAX_FILE_SIZE random_bits filesLeft wr parts w
    = (res, w') ->
    (uuid_calls w <= uuid_calls w')%nat.
Proof.
  induction parts as [|p rest IH]; intros filesLeft wr w res w'.
  - intros [= <- <-]. lia.
  - rewrite multer_parts_cons.
    destruct (negb _ || _); [intros [= <- <-]; simpl; lia|].
    cbv zeta. destruct (MAX_FILE_SIZE <? part_size p)%N; [intros [= <- <-]; simpl; lia|].
    destruct (bool_decide _); [intros [= <- <-]; simpl; lia|].
    destruct (multer_parts _ _ _ _ _ rest _) as [r w1] eqn:Hrec.
    apply IH in Hrec. simpl in Hrec.
    destruct r; intros [= <- <-]; lia.
Qed.

(** What an upload leaves on a store that holds [meta]. *)
Lemma post_upload_stored (parts : list Part) (w : World) (meta : list FileRecord) o w' :
  (MAX_FILE_SIZE < safe_limit)%N ->
  stored UPLOAD_DIR w = Some meta ->
  post_upload UPLOAD_DIR MAX_FILE_SIZE random_bits clock mime_lookup parts w
  = (o, w') ->
  denied w' = denied w
  /\ (uuid_calls w <= uuid_calls w')%nat
  /\ ((exists resp, o = Responded resp /\ status resp = 500%Z
                    /\ stored UPLOAD_DIR w' = Some meta)
      \/ o = Responded
               (created (new_records clock mime_lookup w
                           (multer_result random_bits (uuid_calls w) parts)))
         /\ uuid_calls w' = (uuid_calls w + length parts)%nat
         /\ stored UPLOAD_DIR w'
            = Some (meta ++ new_records clock mime_lookup w
                              (multer_result random_bits (uuid_calls w) parts))).
Proof.
  intros Hmax Hst. unfold post_upload, upload_array.
  destruct (multer_parts _ _ _ _ _ parts w) as [r w1] eqn:Hm.
  destruct (multer_parts_frame _ _ _ parts _ _ _ _ _
              (fun q (H : In q []) => match H with end) Hm) as (Hden & Hclock & Hf & Hu).
  pose proof (multer_parts_calls _ _ _ _ _ _ Hm) as Hcalls.
  assert (Hst1 : stored UPLOAD_DIR w1 = Some meta)
    by (unfold stored in *; now rewrite Hf).
  destruct r as [fls|e|]; [| |contradiction].
  - apply multer_parts_inv in Hm as (-> & Hacc & _ & Hn & _).
    unfold run. rewrite (upload_handler_stored _ _ _ _ _ _ meta Hst1).
    destruct (bool_decide (META_PATH UPLOAD_DIR ∈ denied w1)); intros [= <- <-].
    + split; [exact Hden|]. split; [exact Hcalls|].
      left. exists upload_failed. now repeat split.
    + split; [exact Hden|]. split; [exact Hcalls|].
      right. unfold new_records. rewrite Hclock.
      split; [reflexivity|]. split; [exact Hn|].
      apply stored_written_meta.
      apply Forall_app. split; [now apply (stored_safe UPLOAD_DIR w)|].
      now apply new_records_safe with (MAX_FILE_SIZE := MAX_FILE_SIZE).
  - intros [= <- <-]. split; [exact Hden|]. split; [exact Hcalls|].
    left. exists (default_error_handler e). now repeat split.
Qed.

Lemma new_records_names (w : World) (k : nat) (parts : list Part) :
  map originalName (new_records clock mime_lookup w (multer_result random_bits k parts))
  = map part_filename parts.
Proof.
  revert k. induction parts as [|p rest IH]; intros k; [reflexivity|].
  simpl. f_equal. apply IH.
Qed.

(** X16: on a store holding a sequence of records, an upload is either
    answered 500 and leaves the store as it was, or answered 201 with
    one record per part, in the order of the parts and with their
    original names, and the store then holds these after the records it
    held. *)
Theorem upload_is_all_or_nothing (parts : list Part) (w : World)
    (meta : list FileRecord) o w' :
  (MAX_FILE_SIZE < safe_limit)%N ->
  stored UPLOAD_DIR w = Some meta ->
  post_upload UPLOAD_DIR MAX_FILE_SIZE random_bits clock mime_lookup parts w
  = (o, w') ->
  (exists resp,
     o = Responded resp /\ status resp = 500%Z
     /\ stored UPLOAD_DIR w' = Some meta)
  \/ (exists saved,
        o = Responded (json_response 201 (JObj [("files", records_to_json saved)]))
        /\ length saved = length parts
        /\ map originalName saved = map part_filename parts
        /\ stored UPLOAD_DIR w' = Some (meta ++ saved)).
Proof.
  intros Hmax Hst H.
  destruct (post_upload_stored _ _ _ _ _ Hmax Hst H) as (_ & _ & [Hs | (Ho & _ & Hs)]).
  - now left.
  - right. eexists. split; [exact Ho|]. split; [|split; [apply new_records_names | exact Hs]].
    unfold new_records. now rewrite length_map, multer_result_length.
Qed.

(** What a DELETE leaves on a store that holds [meta]. *)
Lemma delete_file_stored (w : World) (meta : list FileRecord) (req_id : string) o w' :
  stored UPLOAD_DIR w = Some meta ->
  delete_file UPLOAD_DIR req_id w = (o, w') ->
  answered o /\ denied w' = denied w /\ uuid_calls w' = uuid_calls w
  /\ (stored UPLOAD_DIR w' = Some meta
      \/ exists idx, stored UPLOAD_DIR w' = Some (delete idx meta)).
Proof.
  intros Hst. pose proof (delete_file_cases UPLOAD_DIR w meta req_id Hst) as Hc.
  destruct (findIndex req_id meta) as [idx|].
  - destruct Hc as (file & Hf & Hc). cbv zeta in Hc. rewrite Hc. clear Hc.
    set (abs := Path.join UPLOAD_DIR (storedName file)).
    destruct (bool_decide (is_Some (files w !! abs)) && bool_decide (abs ∈ denied w))
      eqn:Hg.
    { intros [= <- <-]. repeat split; [eexists; reflexivity | now left]. }
    destruct (bool_decide (META_PATH UPLOAD_DIR ∈ denied w)) eqn:Hd; intros [= <- <-].
    + repeat split; [eexists; reflexivity|]. left.
      assert (Hne : abs <> META_PATH UPLOAD_DIR).
      { intros Heq. rewrite Heq, Hd, andb_true_r in Hg.
        apply bool_decide_eq_false in Hg. apply Hg.
        apply stored_inv in Hst as (raw & -> & _). eauto. }
      unfold stored, unlinked in *. simpl. now rewrite lookup_delete_ne.
    + repeat split; [eexists; reflexivity|]. right. exists idx.
      apply stored_written_meta, Forall_delete. now apply (stored_safe UPLOAD_DIR w).
  - rewrite Hc. intros [= <- <-]. repeat split; [eexists; reflexivity | now left].
Qed.

(** One request on a store that holds [meta]. *)
Lemma serve_stored (r : Request) (w : World) (meta : list FileRecord) o w' :
  (MAX_FILE_SIZE < safe_limit)%N ->
  stored UPLOAD_DIR w = Some meta ->
  serve UPLOAD_DIR MAX_FILE_SIZE random_bits clock mime_lookup Date_value r w
  = (o, w') ->
  answered o /\ denied w' = denied w
  /\ (uuid_calls w <= uuid_calls w')%nat
  /\ (stored UPLOAD_DIR w' = Some meta
      \/ (exists idx, stored UPLOAD_DIR w' = Some (delete idx meta))
      \/ exists parts,
           uuid_calls w' = (uuid_calls w + length parts)%nat
           /\ stored UPLOAD_DIR w'
              = Some (meta ++ new_records clock mime_lookup w
                                (multer_result random_bits (uuid_calls w) parts))).
Proof.
  intros Hmax Hst. destruct r as [|parts| |req_id|req_id|req_id]; simpl.
  - intros [= <- <-]. repeat split; [eexists; reflexivity | lia | now left].
  - intros H. destruct (post_upload_stored _ _ _ _ _ Hmax Hst H) as (Hd & Hc & Hs).
    destruct Hs as [(resp & -> & _ & Hs) | (-> & Hn & Hs)].
    + repeat split; [eexists; reflexivity | assumption | assumption | now left].
    + repeat split; [eexists; reflexivity | assumption | assumption|].
      right; right; now exists parts.
  - rewrite (get_files_stored _ _ _ _ Hst). intros [= <- <-].
    repeat split; [eexists; reflexivity | lia | now left].
  - rewrite (get_file_cases _ _ _ _ Hst). intros [= <- <-].
    repeat split; [eexists; reflexivity | lia | now left].
  - rewrite (get_download_cases _ _ _ _ Hst). intros H.
    assert (Hw : answered o /\ w' = w).
    { destruct (getFileInfoById req_id meta) as [file|].
      - destruct (files w !! _); injection H as <- <-; split; eauto; eexists; reflexivity.
      - injection H as <- <-. split; eauto. eexists; reflexivity. }
    destruct Hw as [Ha ->]. repeat split; [exact Ha | lia | now left].
  - intros H. destruct (delete_file_stored _ _ _ _ _ Hst H) as (Ha & Hd & Hc & Hs).
    repeat split; try assumption; [lia|].
    destruct Hs as [Hs | Hs]; [now left | right; now left].
Qed.

Lemma serve_all_stored (rs : list Request) :
  forall (w : World) os w',
    (MAX_FILE_SIZE < safe_limit)%N ->
    is_Some (stored UPLOAD_DIR w) ->
    serve_all UPLOAD_DIR MAX_FILE_SIZE random_bits clock mime_lookup Date_value rs w
    = (os, w') ->
    Forall answered os /\ length os = length rs
    /\ is_Some (stored UPLOAD_DIR w')
    /\ denied w' = denied w /\ (uuid_calls w <= uuid_calls w')%nat.
Proof.
  induction rs as [|r rest IH]; intros w os w' Hmax [meta Hst]; simpl.
  - intros [= <- <-]. repeat split; [constructor | eauto | lia].
  - destruct (serve _ _ _ _ _ _ r w) as [o w1] eqn:Hr.
    destruct (serve_all _ _ _ _ _ _ rest w1) as [os1 w2] eqn:Hrest.
    intros [= <- <-].
    destruct (serve_stored _ _ _ _ _ Hmax Hst Hr) as (Ha & Hd & Hc & Hs).
    assert (Hst1 : is_Some (stored UPLOAD_DIR w1)).
    { destruct Hs as [Hs | [[idx Hs] | (parts & _ & Hs)]]; eauto. }
    destruct (IH _ _ _ Hmax Hst1 Hrest) as (Has & Hl & Hst2 & Hd2 & Hc2).
    repeat split; [now constructor | simpl; now rewrite Hl | exact Hst2
                   | congruence | lia].
Qed.

(** X17: starting from a document that holds a sequence of records,
    every request of any sequence of requests is answered, whatever
    write or unlink fails on the way, and the document holds a sequence
    of records afterwards; the access rights are unchanged. *)
Theorem every_request_is_answered (rs : list Request) (w : World) os w' :
  (MAX_FILE_SIZE < safe_limit)%N ->
  is_Some (stored UPLOAD_DIR w) ->
  serve_all UPLOAD_DIR MAX_FILE_SIZE random_bits clock mime_lookup Date_value rs w
  = (os, w') ->
  Forall answered os /\ length os = length rs
  /\ is_Some (stored UPLOAD_DIR w')
  /\ denied w' = denied w.
Proof.
  intros Hmax Hst H.
  destruct (serve_all_stored rs _ _ _ Hmax Hst H) as (Ha & Hl & Hs & Hd & _).
  now repeat split.
Qed.

Lemma never_repeats_le (m n : nat) :
  (m <= n)%nat -> never_repeats random_bits n -> never_repeats random_bits m.
Proof. intros Hle Hn j k Hjk. apply Hn. lia. Qed.

Lemma never_repeats_NoDup (k n : nat) :
  never_repeats random_bits (k + n) ->
  NoDup (map (uuid_at random_bits) (seq k n)).
Proof.
  revert k. induction n as [|n IH]; intros k Hn; [constructor|].
  simpl. apply NoDup_cons. split.
  - rewrite list_elem_of_In. intros Hin.
    apply List.in_map_iff in Hin as (j & Hj & Hin). apply List.in_seq in Hin.
    apply (Hn k j); [lia | now symmetry].
  - apply IH. intros i j Hij. apply Hn. lia.
Qed.

Lemma drawn_id_le (w w' : World) (r : FileRecord) :
  (uuid_calls w <= uuid_calls w')%nat ->
  drawn_id random_bits w r -> drawn_id random_bits w' r.
Proof. intros Hle (k & Hk & Hid). exists k. split; [lia | exact Hid]. Qed.

(** One request keeps the identifiers of the store distinct. *)
Lemma serve_unique_ids (r : Request) (w : World) o w' :
  (MAX_FILE_SIZE < safe_limit)%N ->
  unique_ids UPLOAD_DIR random_bits w ->
  serve UPLOAD_DIR MAX_FILE_SIZE random_bits clock mime_lookup Date_value r w
  = (o, w') ->
  never_repeats random_bits (uuid_calls w') ->
  unique_ids UPLOAD_DIR random_bits w'.
Proof.
  intros Hmax (meta & Hst & Hnd & Hdr) Hr Hrep.
  destruct (serve_stored _ _ _ _ _ Hmax Hst Hr) as (_ & _ & Hc & Hs).
  assert (Hdr' : Forall (drawn_id random_bits w') meta).
  { eapply List.Forall_impl; [|exact Hdr]. intros a. now apply drawn_id_le. }
  destruct Hs as [Hs | [[idx Hs] | (parts & Hn & Hs)]].
  - exists meta. repeat split; assumption.
  - exists (delete idx meta). repeat split; [exact Hs | now apply unique_ids_deleted|].
    now apply Forall_delete.
  - set (k := uuid_calls w) in *.
    set (saved := new_records clock mime_lookup w (multer_result random_bits k parts)) in *.
    assert (Hids : map id saved = map (uuid_at random_bits) (seq k (length parts)))
      by apply new_records_ids.
    exists (meta ++ saved). split; [exact Hs|]. split.
    + rewrite map_app. apply NoDup_app. repeat split.
      * exact Hnd.
      * intros x Hx Hx'. rewrite list_elem_of_In in Hx, Hx'.
        rewrite Hids in Hx'. apply List.in_map_iff in Hx' as (j & Hj & Hin).
        apply List.in_seq in Hin.
        apply List.in_map_iff in Hx as (a & Ha & Hin').
        rewrite List.Forall_forall in Hdr. destruct (Hdr a Hin') as (i & Hi & Hid).
        apply (Hrep i j); [fold k in Hi; lia | congruence].
      * rewrite Hids. apply never_repeats_NoDup. now rewrite <- Hn.
    + apply Forall_app. split; [exact Hdr'|].
      apply List.Forall_forall. intros a Ha.
      assert (Hin : In (id a) (map id saved)) by now apply in_map.
      rewrite Hids in Hin. apply List.in_map_iff in Hin as (j & Hj & Hin).
      apply List.in_seq in Hin. exists j. split; [lia | now symmetry].
Qed.

(** X18: the identifiers of the store stay distinct: when they are
    distinct and were generated by this server (as in the empty store
    that startup creates), they are so after any sequence of requests,
    as long as the generator has not repeated an identifier. *)
Theorem identifiers_stay_unique (rs : list Request) (w : World) os w' :
  (MAX_FILE_SIZE < safe_limit)%N ->
  unique_ids UPLOAD_DIR random_bits w ->
  serve_all UPLOAD_DIR MAX_FILE_SIZE random_bits clock mime_lookup Date_value rs w
  = (os, w') ->
  never_repeats random_bits (uuid_calls w') ->
  unique_ids UPLOAD_DIR random_bits w'.
Proof.
  intros Hmax. revert w os w'.
  induction rs as [|r rest IH]; intros w os w' Hu; simpl.
  - now intros [= <- <-].
  - destruct (serve _ _ _ _ _ _ r w) as [o w1] eqn:Hr.
    destruct (serve_all _ _ _ _ _ _ rest w1) as [os1 w2] eqn:Hrest.
    intros [= <- <-] Hrep.
    assert (Hst1 : is_Some (stored UPLOAD_DIR w1)).
    { destruct Hu as (meta & Hst & _).
      destruct (serve_stored _ _ _ _ _ Hmax Hst Hr) as (_ & _ & _ & Hs).
      destruct Hs as [Hs | [[idx Hs] | (parts & _ & Hs)]]; eauto. }
    destruct (serve_all_stored rest _ _ _ Hmax Hst1 Hrest)
      as (_ & _ & _ & _ & Hc).
    apply (IH w1 os1 w2); [|exact Hrest|exact Hrep].
    apply (serve_unique_ids r w o w1 Hmax Hu Hr).
    now apply (never_repeats_le _ (uuid_calls w2)).
Qed.

End RouteFacts.

(** ** The client *)

Section ClientFacts.

Variable UPLOAD_DIR : string.
Variable Date_value : string -> option Z.

Import JSONText JSONFacts.

Lemma parse_sent (v : json) : wf_json v -> JSON.parse (Client.sent v) = Some v.
Proof. intros H. now apply parse_serialized. Qed.



Lemma error_message_sent (fallback msg : string) :
  Client.error_message fallback (Client.sent (error_json msg))
  = Client.Says (js_or msg fallback).
Proof.
  unfold Client.error_message. rewrite parse_sent; [reflexivity|].
  split; exact I.
Qed.

(** X20: when DELETE is not answered with a success status, the
    response carries an error message, [Not found] when no record has
    the identifier and [Failed to delete] otherwise, and that message is
    what the client's [handleDelete] reports. *)
Theorem client_reports_why_delete_failed (w : World) (meta : list FileRecord)
    (req_id : string) resp w' :
  stored UPLOAD_DIR w = Some meta ->
  delete_file UPLOAD_DIR req_id w = (Responded resp, w') ->
  Client.ok resp = false ->
  exists msg,
    body resp = BJson (error_json msg)
    /\ Client.error_message "Delete failed" (Client.sent (error_json msg))
       = Client.Says msg
    /\ (msg = "Not found" /\ getFileInfoById req_id meta = None
        \/ msg = "Failed to delete" /\ is_Some (getFileInfoById req_id meta)).
Proof.
  intros Hst Hdel Hstatus.
  pose proof (delete_file_cases UPLOAD_DIR w meta req_id Hst) as Hc.
  destruct (findIndex req_id meta) as [idx|] eqn:Hi.
  - destruct (findIndex_Some _ _ _ Hi) as (f & _ & _ & Hfind).
    destruct Hc as (file & Hf & Hc). cbv zeta in Hc. rewrite Hc in Hdel.
    exists "Failed to delete".
    assert (Hresp : resp = delete_failed).
    { destruct (_ && _); [now injection Hdel as <- _|].
      destruct (bool_decide _); injection Hdel as <- _; [reflexivity|].
      discriminate Hstatus. }
    subst resp. split; [reflexivity|]. split; [apply error_message_sent|].
    right. split; [reflexivity|]. rewrite Hfind. eauto.
  - rewrite Hc in Hdel. injection Hdel as <- _.
    exists "Not found". split; [reflexivity|]. split; [apply error_message_sent|].
    left. split; [reflexivity|]. now apply findIndex_None.
Qed.

End ClientFacts.

(** ** The listing after a DELETE and after an upload *)

Section SortCompose.
Context {A : Type} (comparefn : A -> A -> option Z) (key : A -> Z).

Lemma sort_insert_first (x : A) (l : list A) :
  by_key comparefn key (x :: l) ->
  Forall (fun y => (key y <= key x)%Z) l ->
  sort_insert comparefn x l = x :: l.
Proof.
  intros Hk Hl. destruct l as [|y l]; [reflexivity|]. simpl.
  rewrite (Hk x y) by (simpl; auto).
  inversion Hl as [|? ? Hy _]; subst.
  now replace (key y - key x <=? 0)%Z with true by (symmetry; apply Z.leb_le; lia).
Qed.

Lemma sort_insert_filter (P : A -> bool) (x : A) (l : list A) :
  by_key comparefn key (x :: l) ->
  StronglySorted (key_ge key) l ->
  List.filter P (sort_insert comparefn x l)
  = if P x then sort_insert comparefn x (List.filter P l) else List.filter P l.
Proof.
  intros Hk Hs. induction Hs as [|y l Hs IH Hy].
  - simpl. now destruct (P x).
  - assert (Hxy : sort_compare comparefn x y = (key y - key x)%Z)
      by (apply Hk; simpl; auto).
    assert (Hk' : by_key comparefn key (x :: l))
      by (intros a b Ha Hb; apply Hk; simpl in *; tauto).
    simpl sort_insert. destruct (sort_compare comparefn x y <=? 0)%Z eqn:Hc.
    + apply Z.leb_le in Hc. change (List.filter P (x :: y :: l))
        with (if P x then x :: List.filter P (y :: l) else List.filter P (y :: l)).
      destruct (P x); [|reflexivity]. symmetry. apply sort_insert_first.
      * intros a b Ha Hb. apply Hk.
        -- destruct Ha as [<- | Ha]; [now left | right].
           now apply List.filter_In in Ha as [Ha _].
        -- destruct Hb as [<- | Hb]; [now left | right].
           now apply List.filter_In in Hb as [Hb _].
      * apply List.Forall_forall. intros z Hz.
        apply List.filter_In in Hz as [[<- | Hz] _]; [lia|].
        rewrite List.Forall_forall in Hy. specialize (Hy z Hz).
        unfold key_ge in Hy. lia.
    + apply Z.leb_gt in Hc. simpl List.filter. rewrite (IH Hk').
      destruct (P x), (P y); try reflexivity.
      simpl sort_insert.
      now replace (sort_compare comparefn x y <=? 0)%Z with false
        by (symmetry; apply Z.leb_gt; lia).
Qed.

(** Sorting commutes with the removal of elements. *)
Lemma js_sort_filter (P : A -> bool) (l : list A) :
  by_key comparefn key l ->
  List.filter P (js_sort comparefn l) = js_sort comparefn (List.filter P l).
Proof.
  induction l as [|x l IH]; intros Hk; [reflexivity|].
  assert (Hk' : by_key comparefn key l)
    by (intros a b Ha Hb; apply Hk; now right).
  simpl js_sort. rewrite sort_insert_filter.
  - simpl List.filter. rewrite (IH Hk'). now destruct (P x).
  - intros a b Ha Hb. apply Hk.
    + destruct Ha as [<- | Ha]; [now left | right].
      now apply (Permutation_in _ (js_sort_perm comparefn l)).
    + destruct Hb as [<- | Hb]; [now left | right].
      now apply (Permutation_in _ (js_sort_perm comparefn l)).
  - now apply js_sort_sorted.
Qed.




End SortCompose.

Lemma delete_as_filter (req_id : string) (meta : list FileRecord) (idx : nat) :
  NoDup (map id meta) -> findIndex req_id meta = Some idx ->
  delete idx meta
  = List.filter (fun r => negb (String.eqb (id r) req_id)) meta.
Proof.
  revert idx. induction meta as [|f meta IH]; intros idx Hnd; simpl; [discriminate|].
  apply NoDup_cons in Hnd as [Hf Hnd].
  destruct (String.eqb (id f) req_id) eqn:He; simpl.
  - intros [= <-]. simpl. apply String.eqb_eq in He. subst req_id.
    symmetry. apply filter_all. apply List.Forall_forall. intros r Hr.
    apply negb_true_iff, String.eqb_neq. intros Heq. apply Hf. rewrite <- Heq.
    apply list_elem_of_In. now apply in_map.
  - destruct (findIndex req_id meta) as [i|] eqn:Hi; [|discriminate].
    intros [= <-]. simpl. f_equal. now apply IH.
Qed.

Section ListingCompose.

Variable UPLOAD_DIR : string.
Variable MAX_FILE_SIZE : N.
Variable random_bits : nat -> N.
Variable clock : nat -> string.
Variable mime_lookup : string -> option string.
Variable Date_value : string -> option Z.

(** X21: on a store with distinct identifiers and valid time stamps, the
    listing after a DELETE that succeeded is the listing before it
    without the deleted record, the other records keeping their
    order. *)
Theorem listing_after_delete (w w' : World) (meta : list FileRecord)
    (req_id : string) :
  stored UPLOAD_DIR w = Some meta ->
  Forall (valid_time Date_value) meta ->
  NoDup (map id meta) ->
  delete_file UPLOAD_DIR req_id w = (Responded ok_response, w') ->
  exists listing,
    get_files UPLOAD_DIR Date_value w
    = (Responded
         (json_response 200 (JObj [("files", records_to_json listing)])), w)
    /\ get_files UPLOAD_DIR Date_value w'
       = (Responded
            (json_response 200
               (JObj [("files",
                       records_to_json
                         (List.filter (fun r => negb (String.eqb (id r) req_id))
                            listing))])), w').
Proof.
  intros Hst Hv Hnd Hdel.
  exists (js_sort (newest_first Date_value) meta).
  split; [now apply get_files_stored|].
  pose proof (delete_file_cases UPLOAD_DIR w meta req_id Hst) as Hc.
  destruct (findIndex req_id meta) as [idx|] eqn:Hi.
  - destruct Hc as (file & Hf & Hc). cbv zeta in Hc. rewrite Hc in Hdel.
    destruct (bool_decide _ && bool_decide _); [discriminate|].
    destruct (bool_decide _); [discriminate|].
    injection Hdel as <-.
    rewrite (js_sort_filter _ (time_of Date_value)) by now apply newest_first_by_key.
    rewrite <- (delete_as_filter req_id meta idx Hnd Hi).
    apply get_files_stored.
    apply stored_written_meta, Forall_delete. now apply (stored_safe UPLOAD_DIR w).
  - rewrite Hc in Hdel. discriminate.
Qed.


End ListingCompose.

(** ** Records and files *)

Lemma in_moved {A} (x y : A) (l1 l2 : list A) :
  In x (l1 ++ y :: l2) <-> In x ((y :: l1) ++ l2).
Proof. rewrite !in_app_iff. simpl. tauto. Qed.

Section MatchedFacts.

Variable UPLOAD_DIR : string.
Variable MAX_FILE_SIZE : N.
Variable random_bits : nat -> N.
Variable clock : nat -> string.
Variable mime_lookup : string -> option string.
Variable Date_value : string -> option Z.

Lemma not_denied (w : World) (q : string) : denied w = ∅ -> q ∉ denied w.
Proof. intros ->. apply not_elem_of_empty. Qed.

(** Where Multer leaves the disk when it aborts a request and no file
    operation fails: the files it wrote are gone, the others are as they
    were. *)
Lemma multer_parts_aborted (parts : list Part) :
  forall filesLeft wr w e w',
    denied w = ∅ ->
    multer_parts UPLOAD_DIR MAX_FILE_SIZE random_bits filesLeft wr parts w
    = (Throw e, w') ->
    exists n,
      uuid_calls w' = (uuid_calls w + n)%nat /\ (n <= length parts)%nat
      /\ forall q,
           (In q (wr ++ dests UPLOAD_DIR random_bits (uuid_calls w) (take n parts)) ->
            files w' !! q = None)
           /\ (~ In q (wr ++ dests UPLOAD_DIR random_bits (uuid_calls w) (take n parts)) ->
               files w' !! q = files w !! q).
Proof.
  induction parts as [|p rest IH]; intros filesLeft wr w e w' Hden; [discriminate|].
  rewrite multer_parts_cons.
  set (d := dest UPLOAD_DIR random_bits (uuid_calls w) p).
  destruct (negb _ || _).
  { intros [= <- <-]. exists 0%nat. cbn [firstn dests length]. rewrite app_nil_r.
    change (uuid_calls (remove_uploaded wr w)) with (uuid_calls w).
    split; [lia|]. split; [lia|]. intros q. split.
    - intros Hq. apply remove_uploaded_gone; [exact Hq | now apply not_denied].
    - intros Hq. now apply remove_uploaded_lookup. }
  cbv zeta. destruct (MAX_FILE_SIZE <? part_size p)%N.
  { intros [= <- <-]. exists 1%nat. cbn [firstn dests length]. fold d.
    change (uuid_calls (remove_uploaded (d :: wr) (drawn w))) with (S (uuid_calls w)).
    split; [lia|]. split; [lia|]. intros q.
    rewrite (in_moved q d wr []). rewrite app_nil_r. split.
    - intros Hq. apply remove_uploaded_gone; [exact Hq | now apply not_denied].
    - intros Hq. now rewrite remove_uploaded_lookup. }
  rewrite (bool_decide_eq_false_2 _ (not_denied w d Hden)).
  destruct (multer_parts _ _ _ _ _ rest _) as [r w1] eqn:Hrec.
  destruct r as [fs|e1|]; try discriminate. intros [= <- <-].
  apply IH in Hrec as (n & Hn & Hle & Hq); [|exact Hden].
  simpl in Hn, Hq. exists (S n). simpl. fold d.
  split; [lia|]. split; [lia|]. intros q.
  rewrite in_moved. destruct (Hq q) as [Hin Hout]. split; [exact Hin|].
  intros Hno. rewrite (Hout Hno). apply lookup_insert_ne.
  intros Heq. apply Hno. left. exact Heq.
Qed.

Lemma join_uuid_inj (j k : nat) (e1 e2 : string) :
  Path.join UPLOAD_DIR (uuid_at random_bits j +:+ e1)
  = Path.join UPLOAD_DIR (uuid_at random_bits k +:+ e2) ->
  uuid_at random_bits j = uuid_at random_bits k.
Proof.
  intros H. apply join_inj in H. now apply string_app_inv_length in H.
Qed.

Lemma same_id_same_record (meta : list FileRecord) (a b : FileRecord) :
  NoDup (map id meta) -> In a meta -> In b meta -> id a = id b -> a = b.
Proof.
  intros Hnd Ha Hb Hid. pose proof (find_unique meta a Hnd Ha) as H1.
  pose proof (find_unique meta b Hnd Hb) as H2. rewrite Hid in H1. congruence.
Qed.

Lemma matched_unique_ids (w : World) :
  matched UPLOAD_DIR random_bits w -> unique_ids UPLOAD_DIR random_bits w.
Proof.
  intros (meta & Hst & Hnd & Hb & _). exists meta. split; [exact Hst|].
  split; [exact Hnd|]. eapply List.Forall_impl; [|exact Hb].
  intros r (k & ext & Hk & Hid & _). now exists k.
Qed.

(** The file of a record that was there before the request is not one
    of the files the request names. *)
Lemma backed_not_dest (w : World) (r : FileRecord) (parts : list Part) (n : nat) :
  backed UPLOAD_DIR random_bits w r ->
  never_repeats random_bits (uuid_calls w + n) ->
  ~ In (Path.join UPLOAD_DIR (storedName r))
       (dests UPLOAD_DIR random_bits (uuid_calls w) (take n parts)).
Proof.
  intros (j & ext & Hj & _ & Hname & _) Hrep Hin.
  destruct (dests_inv _ _ _ _ _ Hin) as (i & p & Hp & Hd).
  apply lookup_take_Some in Hp as [_ Hi].
  rewrite Hname in Hd. unfold dest, stored_name, storage_filename in Hd.
  apply join_uuid_inj in Hd. apply (Hrep j (uuid_calls w + i)%nat); [lia | exact Hd].
Qed.

Lemma upload_matched (parts : list Part) (w : World) o w' :
  (MAX_FILE_SIZE < safe_limit)%N ->
  denied w = ∅ ->
  matched UPLOAD_DIR random_bits w ->
  post_upload UPLOAD_DIR MAX_FILE_SIZE random_bits clock mime_lookup parts w
  = (o, w') ->
  never_repeats random_bits (uuid_calls w') ->
  matched UPLOAD_DIR random_bits w'.
Proof.
  intros Hmax Hden Hm Hup Hrep.
  assert (Hu : unique_ids UPLOAD_DIR random_bits w') .
  { apply (serve_unique_ids UPLOAD_DIR MAX_FILE_SIZE random_bits clock mime_lookup
             Date_value (PostUpload parts) w o w' Hmax); auto using matched_unique_ids. }
  destruct Hm as (meta & Hst & Hnd & Hb & Ho).
  destruct Hu as (meta' & Hst' & Hnd' & _).
  exists meta'. split; [exact Hst'|]. split; [exact Hnd'|].
  revert Hup. unfold post_upload, upload_array.
  destruct (multer_parts _ _ _ _ _ parts w) as [r w1] eqn:Hmul.
  destruct (multer_parts_frame _ _ _ parts _ _ _ _ _
              (fun q (H : In q []) => match H with end) Hmul) as (Hden1 & _ & Hf & Hnot).
  assert (Hst1 : stored UPLOAD_DIR w1 = Some meta)
    by (unfold stored in *; now rewrite Hf).
  destruct r as [fls|e|]; [| |contradiction].
  - (* the request went through *)
    apply multer_parts_inv in Hmul as (-> & Hacc & _ & Hn & Hdisk).
    unfold run. rewrite (upload_handler_stored _ _ _ _ _ _ meta Hst1).
    rewrite bool_decide_eq_false_2 by (rewrite Hden1; now apply not_denied).
    intros [= <- <-].
    set (k := uuid_calls w) in *.
    set (saved := new_records clock mime_lookup w1 (multer_result random_bits k parts)) in *.
    assert (Hsafe : Forall safe_size (meta ++ saved)).
    { apply Forall_app. split; [now apply (stored_safe UPLOAD_DIR w)|].
      now apply new_records_safe with (MAX_FILE_SIZE := MAX_FILE_SIZE). }
    rewrite (stored_written_meta _ _ _ Hsafe) in Hst'. injection Hst' as <-.
    simpl in Hrep. rewrite Hn in Hrep.
    assert (Hfiles : forall q, q <> META_PATH UPLOAD_DIR ->
              files (written (META_PATH UPLOAD_DIR) (document (meta ++ saved)) (ticked w1))
                !! q
              = disk_after UPLOAD_DIR random_bits k parts (files w) !! q).
    { intros q Hq. unfold written, ticked. simpl. rewrite lookup_insert_ne by congruence.
      now rewrite Hdisk. }
    assert (Hmeta : is_Some (files (written (META_PATH UPLOAD_DIR)
                                      (document (meta ++ saved)) (ticked w1))
                               !! META_PATH UPLOAD_DIR)).
    { unfold written. simpl. rewrite lookup_insert_eq. eauto. }
    assert (Hnew : forall r, In r saved ->
              exists i p, parts !! i = Some p
                /\ id r = uuid_at random_bits (k + i)
                /\ storedName r = stored_name random_bits (k + i) p).
    { intros r Hr. apply list_elem_of_In, list_elem_of_lookup in Hr as [i Hi].
      assert (Hlt : (i < length parts)%nat).
      { apply lookup_lt_Some in Hi. unfold saved, new_records in Hi.
        now rewrite length_map, multer_result_length in Hi. }
      destruct (lookup_lt_is_Some_2 parts i Hlt) as [p Hp]. exists i, p.
      pose proof (new_records_lookup random_bits clock mime_lookup w1 parts k i p Hp) as Hr'.
      fold saved in Hr'. rewrite Hi in Hr'. injection Hr' as ->.
      split; [exact Hp|]. split; [|reflexivity].
      apply (new_record_id random_bits mime_lookup _ (k + i) p). reflexivity. }
    split.
    + apply Forall_app. split.
      * apply List.Forall_forall. intros r Hr.
        rewrite List.Forall_forall in Hb. pose proof (Hb r Hr) as Hbr.
        pose proof (backed_not_dest w r parts (length parts) Hbr Hrep) as Hnd1.
        rewrite firstn_all in Hnd1.
        destruct Hbr as (j & ext & Hj & Hid & Hname & Hfile).
        exists j, ext. simpl. repeat split; [lia | exact Hid | exact Hname|].
        destruct (decide (Path.join UPLOAD_DIR (storedName r) = META_PATH UPLOAD_DIR))
          as [-> | Hne]; [exact Hmeta|].
        rewrite Hfiles by exact Hne. now rewrite disk_after_other.
      * apply List.Forall_forall. intros r Hr.
        destruct (Hnew r Hr) as (i & p & Hp & Hid & Hname).
        exists (k + i)%nat, (safeExt_of (Path.extname (part_filename p))).
        simpl. apply lookup_lt_Some in Hp as Hlt.
        repeat split; [lia | exact Hid | exact Hname|].
        rewrite Hname. change (Path.join UPLOAD_DIR (stored_name random_bits (k + i) p))
          with (dest UPLOAD_DIR random_bits (k + i) p).
        rewrite Hfiles by apply dest_not_meta.
        apply (disk_after_is_Some UPLOAD_DIR random_bits parts k).
        exact (dests_lookup UPLOAD_DIR random_bits parts k i p Hp).
    + intros q Hq.
      destruct (decide (q = META_PATH UPLOAD_DIR)) as [-> | Hne]; [now left|].
      rewrite Hfiles in Hq by exact Hne.
      destruct (decide (q ∈ dests UPLOAD_DIR random_bits k parts)) as [Hin | Hout];
        rewrite list_elem_of_In in *.
      * destruct (dests_inv _ _ _ _ _ Hin) as (i & p & Hp & ->).
        pose proof (new_records_lookup random_bits clock mime_lookup w1 parts k i p Hp) as Hr.
        fold saved in Hr. right. eexists. split.
        -- apply in_or_app. right. apply list_elem_of_In.
           eapply list_elem_of_lookup_2. exact Hr.
        -- reflexivity.
      * rewrite disk_after_other in Hq by exact Hout.
        destruct (Ho q Hq) as [-> | (r & Hr & ->)]; [now left | right].
        exists r. split; [apply in_or_app; now left | reflexivity].
  - (* Multer aborted the request *)
    intros [= <- <-]. rewrite Hst1 in Hst'. injection Hst' as <-.
    destruct (multer_parts_aborted parts _ _ _ _ _ Hden Hmul) as (n & Hn & _ & Hq).
    simpl in Hq. rewrite Hn in Hrep. split.
    + apply List.Forall_forall. intros r Hr.
      rewrite List.Forall_forall in Hb. pose proof (Hb r Hr) as Hbr.
      pose proof (backed_not_dest w r parts n Hbr Hrep) as Hnd1.
      destruct Hbr as (j & ext & Hj & Hid & Hname & Hfile).
      exists j, ext. repeat split; [lia | exact Hid | exact Hname|].
      now rewrite (proj2 (Hq _) Hnd1).
    + intros q Hsome.
      destruct (decide (q ∈ dests UPLOAD_DIR random_bits (uuid_calls w) (take n parts)))
        as [Hin | Hout]; rewrite list_elem_of_In in *.
      * rewrite (proj1 (Hq q) Hin) in Hsome. destruct Hsome; discriminate.
      * rewrite (proj2 (Hq q) Hout) in Hsome. now apply Ho.
Qed.

Lemma delete_matched (req_id : string) (w : World) o w' :
  denied w = ∅ ->
  matched UPLOAD_DIR random_bits w ->
  delete_file UPLOAD_DIR req_id w = (o, w') ->
  matched UPLOAD_DIR random_bits w'.
Proof.
  intros Hden (meta & Hst & Hnd & Hb & Ho) Hdel.
  pose proof (delete_file_cases UPLOAD_DIR w meta req_id Hst) as Hc.
  destruct (findIndex req_id meta) as [idx|] eqn:Hi.
  - destruct Hc as (file & Hf & Hc). cbv zeta in Hc. rewrite Hc in Hdel. clear Hc.
    set (abs := Path.join UPLOAD_DIR (storedName file)) in *.
    rewrite (bool_decide_eq_false_2 _ (not_denied w abs Hden)), andb_false_r in Hdel.
    rewrite (bool_decide_eq_false_2 _ (not_denied w _ Hden)) in Hdel.
    injection Hdel as <- <-.
    destruct (findIndex_Some _ _ _ Hi) as (file' & Hf' & Hidf & _).
    assert (file' = file) as -> by congruence.
    assert (Hinf : In file meta)
      by (apply list_elem_of_In; eapply list_elem_of_lookup_2; exact Hf).
    assert (Hfiles : forall q, q <> META_PATH UPLOAD_DIR ->
              files (written (META_PATH UPLOAD_DIR) (document (delete idx meta))
                       (unlinked abs w)) !! q
              = delete abs (files w) !! q).
    { intros q Hq. unfold written, unlinked. simpl. now rewrite lookup_insert_ne by congruence. }
    assert (Hpath : forall r, In r meta -> id r <> req_id ->
              Path.join UPLOAD_DIR (storedName r) <> abs).
    { intros r Hr Hne Heq. rewrite List.Forall_forall in Hb.
      destruct (Hb r Hr) as (j & ext & _ & Hid & Hname & _).
      destruct (Hb file Hinf) as (jf & extf & _ & Hidf' & Hnamef & _).
      unfold abs in Heq. rewrite Hname, Hnamef in Heq.
      apply join_uuid_inj in Heq. congruence. }
    exists (delete idx meta). split.
    { apply stored_written_meta, Forall_delete. now apply (stored_safe UPLOAD_DIR w). }
    split; [now apply unique_ids_deleted|]. split.
    + apply List.Forall_forall. intros r Hr.
      apply (elem_of_deleted req_id meta idx r Hnd Hi) in Hr as [Hr Hne].
      rewrite List.Forall_forall in Hb.
      destruct (Hb r Hr) as (j & ext & Hj & Hid & Hname & Hfile).
      exists j, ext. repeat split; [exact Hj | exact Hid | exact Hname|].
      destruct (decide (Path.join UPLOAD_DIR (storedName r) = META_PATH UPLOAD_DIR))
        as [-> | Hnm].
      * unfold written. simpl. rewrite lookup_insert_eq. eauto.
      * rewrite Hfiles by exact Hnm. rewrite lookup_delete_ne; [exact Hfile|].
        apply not_eq_sym. now apply Hpath.
    + intros q Hq.
      destruct (decide (q = META_PATH UPLOAD_DIR)) as [-> | Hnm]; [now left|].
      rewrite Hfiles in Hq by exact Hnm.
      destruct (decide (q = abs)) as [-> | Hna].
      { rewrite lookup_delete_eq in Hq. destruct Hq; discriminate. }
      rewrite lookup_delete_ne in Hq by congruence.
      destruct (Ho q Hq) as [-> | (r & Hr & ->)]; [now left | right].
      exists r. split; [|reflexivity].
      apply (elem_of_deleted req_id meta idx r Hnd Hi). split; [exact Hr|].
      intros Heq. apply Hna.
      now rewrite (same_id_same_record meta r file Hnd Hr Hinf) by congruence.
  - rewrite Hc in Hdel. injection Hdel as <- <-. now exists meta.
Qed.

Lemma serve_matched (r : Request) (w : World) o w' :
  (MAX_FILE_SIZE < safe_limit)%N ->
  denied w = ∅ ->
  matched UPLOAD_DIR random_bits w ->
  serve UPLOAD_DIR MAX_FILE_SIZE random_bits clock mime_lookup Date_value r w
  = (o, w') ->
  never_repeats random_bits (uuid_calls w') ->
  matched UPLOAD_DIR random_bits w'.
Proof.
  intros Hmax Hden Hm. pose proof Hm as (meta & Hst & _).
  destruct r as [|parts| |req_id|req_id|req_id]; simpl.
  - now intros [= <- <-].
  - intros H Hrep. now apply (upload_matched parts w o w').
  - rewrite (get_files_stored _ _ _ _ Hst). now intros [= <- <-].
  - rewrite (get_file_cases _ _ _ _ Hst). now intros [= <- <-].
  - rewrite (get_download_cases _ _ _ _ Hst).
    destruct (getFileInfoById req_id meta) as [file|].
    + destruct (files w !! _); now intros [= <- <-].
    + now intros [= <- <-].
  - intros H _. now apply (delete_matched req_id w o w').
Qed.

(** X23: when no file operation fails and the generator does not repeat
    an identifier, records and files stay matched through any sequence
    of requests: from a state where every record has its file and every
    file other than the document belongs to a record (as after startup
    on an empty directory), the same holds afterwards, and every stored
    record can be downloaded. *)
Theorem records_and_files_stay_matched (rs : list Request) (w : World) os w' :
  (MAX_FILE_SIZE < safe_limit)%N ->
  denied w = ∅ ->
  matched UPLOAD_DIR random_bits w ->
  serve_all UPLOAD_DIR MAX_FILE_SIZE random_bits clock mime_lookup Date_value rs w
  = (os, w') ->
  never_repeats random_bits (uuid_calls w') ->
  matched UPLOAD_DIR random_bits w'
  /\ forall meta' r,
       stored UPLOAD_DIR w' = Some meta' -> In r meta' ->
       exists data,
         files w' !! Path.join UPLOAD_DIR (storedName r) = Some data
         /\ get_download UPLOAD_DIR (id r) w'
            = (Responded (download_response r data), w').
Proof.
  intros Hmax. revert w os w'.
  assert (Hall : forall w os w',
            denied w = ∅ -> matched UPLOAD_DIR random_bits w ->
            serve_all UPLOAD_DIR MAX_FILE_SIZE random_bits clock mime_lookup
              Date_value rs w = (os, w') ->
            never_repeats random_bits (uuid_calls w') ->
            matched UPLOAD_DIR random_bits w').
  { induction rs as [|r rest IH]; intros w os w' Hden Hm; simpl.
    - now intros [= <- <-].
    - destruct (serve _ _ _ _ _ _ r w) as [o w1] eqn:Hr.
      destruct (serve_all _ _ _ _ _ _ rest w1) as [os1 w2] eqn:Hrest.
      intros [= <- <-] Hrep.
      pose proof Hm as (meta & Hst & _).
      destruct (serve_stored _ _ _ _ _ _ _ _ _ _ _ Hmax Hst Hr) as (_ & Hd & _ & Hs).
      assert (Hst1 : is_Some (stored UPLOAD_DIR w1)).
      { destruct Hs as [Hs | [[idx Hs] | (parts & _ & Hs)]]; eauto. }
      destruct (serve_all_stored _ _ _ _ _ _ rest _ _ _ Hmax Hst1 Hrest)
        as (_ & _ & _ & _ & Hc).
      apply (IH w1 os1 w2); [congruence | |exact Hrest|exact Hrep].
      apply (serve_matched r w o w1 Hmax Hden Hm Hr).
      now apply (never_repeats_le _ _ (uuid_calls w2)). }
  intros w os w' Hden Hm Hrun Hrep.
  pose proof (Hall w os w' Hden Hm Hrun Hrep) as Hm'.
  split; [exact Hm'|].
  intros meta' r Hst' Hr. destruct Hm' as (meta & Hst & Hnd & Hb & _).
  rewrite Hst' in Hst. injection Hst as <-.
  rewrite List.Forall_forall in Hb. destruct (Hb r Hr) as (_ & _ & _ & _ & _ & [data Hdata]).
  exists data. split; [exact Hdata|].
  rewrite (get_download_cases _ _ _ _ Hst').
  unfold getFileInfoById. rewrite (find_unique meta' r Hnd Hr). now rewrite Hdata.
Qed.

End MatchedFacts.

(** ** The further properties on the concrete runs *)

Lemma startup_creates_or_keeps_witness :
  startup Scenario.dir Scenario.w0 = (Ok tt, Scenario.w0)
  /\ stored Scenario.dir Scenario.w0 = Some [].
Proof.
  destruct (startup_creates_or_keeps Scenario.dir Cases.fresh Scenario.w0)
    as (Hagain & _ & Hnew); [by_computation|].
  split; [exact Hagain|]. apply Hnew. by_computation.
Defined.

Lemma lookup_returns_stored_record_witness :
  get_file Scenario.dir (id Scenario.r2) Scenario.w3
  = (Responded (json_response 200 (record_to_json Scenario.r2)), Scenario.w3)
  /\ get_file Scenario.dir "unknown" Scenario.w3
     = (Responded not_found, Scenario.w3).
Proof.
  destruct (lookup_returns_stored_record Scenario.dir Scenario.w3 _ scenario_stored)
    as [Hknown Hunknown]; [by_decision|].
  split.
  - apply (Hknown Scenario.r2). right. now left.
  - apply Hunknown. intros [H | [H | [H | []]]]; discriminate H.
Defined.

Lemma unreadable_document_is_reset_witness :
  let w' := written (META_PATH Scenario.dir) "[]" Scenario.corrupt in
  get_files Scenario.dir Scenario.date Scenario.corrupt
  = (Responded (json_response 200 (JObj [("files", JArr [])])), w')
  /\ get_file Scenario.dir "unknown" Scenario.corrupt = (Responded not_found, w')
  /\ get_download Scenario.dir "unknown" Scenario.corrupt = (Responded not_found, w')
  /\ delete_file Scenario.dir "unknown" Scenario.corrupt = (Responded not_found, w')
  /\ stored Scenario.dir w' = Some [].
Proof.
  apply (unreadable_document_is_reset Scenario.dir Scenario.date Scenario.corrupt
           "unknown").
  - by_computation.
  - by_decision.
Defined.

Lemma failing_reset_reaches_the_caller_witness :
  let e := SystemError "EACCES" in
  get_files Scenario.dir Scenario.date Scenario.locked = (Rejected e, Scenario.locked)
  /\ get_file Scenario.dir "unknown" Scenario.locked = (Rejected e, Scenario.locked)
  /\ get_download Scenario.dir "unknown" Scenario.locked
     = (Rejected e, Scenario.locked)
  /\ delete_file Scenario.dir "unknown" Scenario.locked
     = (Rejected e, Scenario.locked)
  /\ run (upload_handler Scenario.dir Scenario.limit Scenario.clock
            Scenario.no_lookup []) Scenario.locked
     = (Responded upload_failed, Scenario.locked).
Proof.
  apply (failing_reset_reaches_the_caller Scenario.dir Scenario.date Scenario.locked
           "unknown" Scenario.limit Scenario.clock Scenario.no_lookup []).
  - by_computation.
  - by_decision.
Defined.

Lemma delete_is_not_atomic_witness :
  let abs := Path.join Scenario.dir (storedName Scenario.r2) in
  let w' := unlinked abs Cases.frozen in
  delete_file Scenario.dir (id Scenario.r2) Cases.frozen
  = (Responded delete_failed, w')
  /\ files w' !! abs = None
  /\ stored Scenario.dir w' = Some [Scenario.r1; Scenario.r2; Scenario.r3]
  /\ get_file Scenario.dir (id Scenario.r2) w'
     = (Responded (json_response 200 (record_to_json Scenario.r2)), w')
  /\ get_download Scenario.dir (id Scenario.r2) w'
     = (Responded missing_on_disk, w').
Proof.
  apply (delete_is_not_atomic Scenario.dir Cases.frozen
           [Scenario.r1; Scenario.r2; Scenario.r3] (id Scenario.r2) Scenario.r2).
  - by_computation.
  - reflexivity.
  - exists "0123456789". by_computation.
  - by_decision.
  - by_decision.
Defined.

Lemma listing_keeps_store_order_among_equals_witness :
  exists listing,
    get_files Scenario.dir Scenario.date Cases.together
    = (Responded
         (json_response 200 (JObj [("files", records_to_json listing)])),
       Cases.together)
    /\ length Cases.batch = 2%nat
    /\ listing = Cases.batch.
Proof.
  destruct (listing_keeps_store_order_among_equals Scenario.dir Scenario.date
              Cases.together Cases.batch)
    as (listing & Hget & _ & Hsame).
  - by_computation.
  - repeat constructor; eexists; reflexivity.
  - exists listing. split; [exact Hget|]. split; [reflexivity|].
    apply (Hsame 1709283600000%Z). repeat constructor.
Defined.





Lemma upload_answers_201_or_500_witness :
  let run := Scenario.upload [Scenario.notes; Scenario.large] Scenario.w3 in
  let resp := Scenario.response_of (fst run) in
  (status resp = 201%Z \/ status resp = 500%Z)
  /\ status resp <> 400%Z
  /\ body resp
     <> BJson (error_json ("File too large. Max "
                           +:+ N_to_string Scenario.limit +:+ " bytes.")).
Proof.
  intros run resp.
  apply (upload_answers_201_or_500 Scenario.dir Scenario.limit Scenario.bits
           Scenario.clock Scenario.no_lookup [Scenario.notes; Scenario.large]
           Scenario.w3 resp (snd run)).
  by_computation.
Defined.


Lemma upload_touches_only_its_own_files_witness :
  let run := Scenario.upload [Scenario.notes; Scenario.large] Scenario.w3 in
  let q := Path.join Scenario.dir (storedName Scenario.r1) in
  files (snd run) !! q = files Scenario.w3 !! q.
Proof.
  intros run q.
  apply (upload_touches_only_its_own_files Scenario.dir Scenario.limit Scenario.bits
           Scenario.clock Scenario.no_lookup [Scenario.notes; Scenario.large]
           Scenario.w3 (fst run) (snd run)).
  - by_computation.
  - intros H. vm_compute in H. discriminate H.
  - vm_compute. intros [H | [H | []]]; discriminate H.
Defined.

Lemma upload_is_all_or_nothing_witness :
  let run := Scenario.upload [Scenario.notes; Scenario.large] Scenario.w3 in
  (exists resp,
     fst run = Responded resp /\ status resp = 500%Z
     /\ stored Scenario.dir (snd run)
        = Some [Scenario.r1; Scenario.r2; Scenario.r3])
  \/ (exists saved,
        fst run
        = Responded (json_response 201 (JObj [("files", records_to_json saved)]))
        /\ length saved = 2%nat
        /\ map originalName saved
           = map part_filename [Scenario.notes; Scenario.large]
        /\ stored Scenario.dir (snd run)
           = Some ([Scenario.r1; Scenario.r2; Scenario.r3] ++ saved)).
Proof.
  intros run.
  apply (upload_is_all_or_nothing Scenario.dir Scenario.limit Scenario.bits
           Scenario.clock Scenario.no_lookup [Scenario.notes; Scenario.large]
           Scenario.w3 [Scenario.r1; Scenario.r2; Scenario.r3] (fst run) (snd run)).
  - reflexivity.
  - exact scenario_stored.
  - by_computation.
Defined.

Lemma every_request_is_answered_witness :
  let run := Cases.serve_session Cases.session Scenario.w0 in
  Forall answered (fst run) /\ length (fst run) = length Cases.session
  /\ is_Some (stored Scenario.dir (snd run))
  /\ denied (snd run) = denied Scenario.w0.
Proof.
  intros run.
  apply (every_request_is_answered Scenario.dir Scenario.limit Scenario.bits
           Scenario.clock Scenario.no_lookup Scenario.date Cases.session
           Scenario.w0 (fst run) (snd run)).
  - reflexivity.
  - exists []. by_computation.
  - by_computation.
Defined.

Lemma identifiers_stay_unique_witness :
  let run := Cases.serve_session Cases.session Scenario.w0 in
  unique_ids Scenario.dir Scenario.bits (snd run)
  /\ uuid_calls (snd run) = 5%nat.
Proof.
  intros run.
  assert (Hcalls : uuid_calls (snd run) = 5%nat) by by_computation.
  split; [|exact Hcalls].
  apply (identifiers_stay_unique Scenario.dir Scenario.limit Scenario.bits
           Scenario.clock Scenario.no_lookup Scenario.date Cases.session
           Scenario.w0 (fst run) (snd run)).
  - reflexivity.
  - exists []. split; [by_computation|]. split; constructor.
  - by_computation.
  - rewrite Hcalls. intros j k Hjk.
    destruct j as [|[|[|[|[|j]]]]]; destruct k as [|[|[|[|[|k]]]]]; try lia;
      vm_compute; intros H; discriminate H.
Defined.


Lemma client_reports_why_delete_failed_witness :
  exists msg,
    body not_found = BJson (error_json msg)
    /\ Client.error_message "Delete failed" (Client.sent (error_json msg))
       = Client.Says msg
    /\ (msg = "Not found"
        /\ getFileInfoById "unknown" [Scenario.r1; Scenario.r2; Scenario.r3] = None
        \/ msg = "Failed to delete"
           /\ is_Some (getFileInfoById "unknown"
                         [Scenario.r1; Scenario.r2; Scenario.r3])).
Proof.
  apply (client_reports_why_delete_failed Scenario.dir Scenario.w3
           [Scenario.r1; Scenario.r2; Scenario.r3] "unknown" not_found Scenario.w3).
  - exact scenario_stored.
  - by_computation.
  - reflexivity.
Defined.

Lemma listing_after_delete_witness :
  let w' := snd (delete_file Scenario.dir (id Scenario.r2) Scenario.w3) in
  exists listing,
    get_files Scenario.dir Scenario.date Scenario.w3
    = (Responded
         (json_response 200 (JObj [("files", records_to_json listing)])),
       Scenario.w3)
    /\ get_files Scenario.dir Scenario.date w'
       = (Responded
            (json_response 200
               (JObj [("files",
                       records_to_json
                         (List.filter
                            (fun r => negb (String.eqb (id r) (id Scenario.r2)))
                            listing))])), w').
Proof.
  intros w'.
  apply (listing_after_delete Scenario.dir Scenario.date Scenario.w3 w'
           [Scenario.r1; Scenario.r2; Scenario.r3] (id Scenario.r2)).
  - exact scenario_stored.
  - repeat constructor; eexists; reflexivity.
  - by_decision.
  - by_computation.
Defined.


Lemma records_and_files_stay_matched_witness :
  let run := Cases.serve_session Cases.session Scenario.w0 in
  matched Scenario.dir Scenario.bits (snd run)
  /\ forall meta' r,
       stored Scenario.dir (snd run) = Some meta' -> In r meta' ->
       exists data,
         files (snd run) !! Path.join Scenario.dir (storedName r) = Some data
         /\ get_download Scenario.dir (id r) (snd run)
            = (Responded (download_response r data), snd run).
Proof.
  intros run.
  assert (Hcalls : uuid_calls (snd run) = 5%nat) by by_computation.
  apply (records_and_files_stay_matched Scenario.dir Scenario.limit Scenario.bits
           Scenario.clock Scenario.no_lookup Scenario.date Cases.session
           Scenario.w0 (fst run) (snd run)).
  - reflexivity.
  - by_computation.
  - exists []. split; [by_computation|]. split; [constructor|].
    split; [constructor|]. intros q Hq.
    assert (Hfiles : files Scenario.w0 = {[ META_PATH Scenario.dir := "[]" ]})
      by by_computation.
    rewrite Hfiles in Hq. apply lookup_singleton_is_Some in Hq. now left.
  - by_computation.
  - rewrite Hcalls. intros j k Hjk.
    destruct j as [|[|[|[|[|j]]]]]; destruct k as [|[|[|[|[|k]]]]]; try lia;
      vm_compute; intros H; discriminate H.
Defined.
